(** * Verification of the DDOT parser ([ddot_utils.py])

    A shallow embedding of the parsing and validation pipeline of
    [ddot_utils.py] and the properties its specification states.

    Modelling choices:
    - a Python [str] is a [list ascii]; a character is a code point below
      256, and [\s] is the whitespace of Python 3 on such characters;
    - a Python [int] is a [Z]; [len], indexing and slicing follow Python
      (negative indices count from the end, slices clamp, indexing out of
      range raises [IndexError]);
    - a [dict] with string keys is a [gmap str str]; a [set] is a [gset];
    - exceptions are explicit: a computation returns a value or raises.
      The module's single [ParseError] class is split by raise site into
      the kinds of the specification; the text of a message is modelled
      where a property is about it (line validation). *)

From stdpp Require Import gmap strings list pretty.
From Stdlib Require Import ZArith Ascii.
From Equations Require Import Equations.

Set Default Proof Using "Type".
Unset Equations With Funext.
Local Open Scope Z_scope.

(** ** Strings *)

Abbreviation str := (list ascii).

(** String literals: ["R="] in [str_scope] is the list of its characters. *)
Inductive str_literal := LitNil | LitCons (c : ascii) (s : str_literal).

Fixpoint literal_of_bytes (l : list Byte.byte) : str_literal :=
  match l with
  | [] => LitNil
  | b :: l => LitCons (ascii_of_byte b) (literal_of_bytes l)
  end.

Fixpoint bytes_of_literal (s : str_literal) : list Byte.byte :=
  match s with
  | LitNil => []
  | LitCons c s => byte_of_ascii c :: bytes_of_literal s
  end.

Declare Scope str_scope.
Delimit Scope str_scope with str.
#[warnings="-via-type-remapping,-via-type-mismatch"]
String Notation list literal_of_bytes bytes_of_literal
  (via str_literal mapping [[nil] => LitNil, [cons] => LitCons]) : str_scope.
Local Open Scope str_scope.

(** ** Python integers, indexing and slicing *)

Definition len {A} (l : list A) : Z := Z.of_nat (length l).

(** The bound of a slice: a negative bound counts from the end, and every
    bound is clamped to [0, n]. *)
Definition clamp (n i : Z) : Z :=
  if i <? 0 then Z.max 0 (i + n) else Z.min i n.

(** [l[a:b]] *)
Definition slice {A} (l : list A) (a b : Z) : list A :=
  let lo := clamp (len l) a in
  let hi := clamp (len l) b in
  take (Z.to_nat (hi - lo)) (drop (Z.to_nat lo) l).

(** [l[a:]] *)
Definition slice_from {A} (l : list A) (a : Z) : list A :=
  slice l a (len l).

(** [l[:b]] *)
Definition slice_to {A} (l : list A) (b : Z) : list A :=
  slice l 0 b.

Fixpoint enumerate_from {A} (i : Z) (l : list A) : list (Z * A) :=
  match l with
  | [] => []
  | x :: l => (i, x) :: enumerate_from (i + 1) l
  end.

(** [enumerate(l)] *)
Definition enumerate {A} (l : list A) : list (Z * A) := enumerate_from 0 l.

(** [sep.join(l)] *)
Fixpoint join (sep : str) (l : list str) : str :=
  match l with
  | [] => []
  | [x] => x
  | x :: l => x ++ sep ++ join sep l
  end.

(** [str(n)] for an integer *)
Definition str_of_int (n : Z) : str := String.list_ascii_of_string (pretty n).

(** [l.count(x)] *)
Definition count `{EqDecision A} (x : A) (l : list A) : Z :=
  len (filter (λ y, y = x) l).

(** ** Exceptions *)

(** The kinds of [ParseError], one per raise site. *)
Inductive ParseError :=
  | EmptyInput
  | NoTransactions
  | ValidationError (message : str)
  | TooManyTransactions
  | NoTokens
  | MissingSeparator (test_string : str)
  | MissingEndingToken (test_string : str)
  | TokenError (line_numbers : list Z) (err : ParseError)
  | DuplicateStationName (line_numbers : list Z)
  | MissingTransactionType (line_numbers : list Z)
  | InvalidCodes (line_numbers : list Z) (invalid_codes : list str)
  | InvalidTransactionType (line_numbers : list Z)
  | DuplicateSite (duplicate_sites : gset (option str * option str)).

Global Instance ParseError_eq_dec : EqDecision ParseError.
Proof. solve_decision. Defined.

Inductive exception :=
  | ParseErr (e : ParseError)
  | IndexError.

Global Instance exception_eq_dec : EqDecision exception.
Proof. solve_decision. Defined.

Inductive outcome (A : Type) :=
  | Return (a : A)
  | Raise (e : exception).
Arguments Return {A} a.
Arguments Raise {A} e.

Global Instance outcome_eq_dec `{EqDecision A} : EqDecision (outcome A).
Proof. solve_decision. Defined.

Definition raise {A} (e : ParseError) : outcome A := Raise (ParseErr e).

Global Instance outcome_ret : MRet outcome := λ A a, Return a.
Global Instance outcome_bind : MBind outcome := λ A B f m,
  match m with
  | Return a => f a
  | Raise e => Raise e
  end.

(** [l[i]] *)
Definition getitem {A} (l : list A) (i : Z) : outcome A :=
  let j := if i <? 0 then i + len l else i in
  if j <? 0 then Raise IndexError
  else match l !! Z.to_nat j with
       | Some x => Return x
       | None => Raise IndexError
       end.

(** ** Regular expressions of the module *)

(** A match object: [start()] and [end()]. *)
Record Match := { m_start : Z; m_end : Z }.

(** Offset of the first character of [s] that satisfies [p]. *)
Fixpoint find_index (p : ascii → bool) (s : str) : option nat :=
  match s with
  | [] => None
  | c :: s => if p c then Some 0%nat else S <$> find_index p s
  end.

(** [\s] on a [str] pattern. *)
Definition is_space (c : ascii) : bool :=
  let n := nat_of_ascii c in
  bool_decide ((9 ≤ n ≤ 13)%nat ∨ (28 ≤ n ≤ 32)%nat ∨ n = 133%nat ∨ n = 160%nat).

Definition is_separator (c : ascii) : bool :=
  bool_decide (c = "="%char ∨ c = "#"%char).

Definition is_ending (c : ascii) : bool :=
  bool_decide (c = "*"%char ∨ c = "$"%char).

(** Length of the longest prefix whose characters satisfy [p]: a greedy [p*]. *)
Fixpoint span_length (p : ascii → bool) (s : str) : nat :=
  match s with
  | [] => 0
  | c :: s => if p c then S (span_length p s) else 0
  end.

(** [re.compile('[=#]').search(s)] *)
Definition SEPARATOR_TOKENS_search (s : str) : option Match :=
  i ← find_index is_separator s;
  Some {| m_start := Z.of_nat i; m_end := Z.of_nat i + 1 |}.

(** [re.compile('[\*\$]\s*').search(s)] *)
Definition VALUE_ENDING_TOKENS_search (s : str) : option Match :=
  i ← find_index is_ending s;
  Some {| m_start := Z.of_nat i;
          m_end := Z.of_nat i + 1 + Z.of_nat (span_length is_space (drop (S i) s)) |}.

(** [re.split('\r\n|\n', s)] *)
Fixpoint re_split_lines (s : str) : list str :=
  match s with
  | [] => [[]]
  | "013"%char :: "010"%char :: rest => [] :: re_split_lines rest
  | "010"%char :: rest => [] :: re_split_lines rest
  | c :: rest =>
      match re_split_lines rest with
      | line :: lines => (c :: line) :: lines
      | [] => [[c]]
      end
  end.

(** ** Constants of the module *)

(** The items of the dictionary literal, in the order of the source. *)
Definition KEY_TO_ATTR_ITEMS : list (str * str) :=
  [
    ("5", "projectNumber");
    ("900", "stationName");
    ("12", "stationName");
    ("802", "siteTypeCode");
    ("6", "districtCode");
    ("41", "countryCode");
    ("7", "stateFipsCode");
    ("8", "countyCode");
    ("42", "minorCivilDivisionCode");
    ("9", "latitude");
    ("10", "longitude");
    ("11", "coordinateAccuracyCode");
    ("35", "coordinateMethodCode");
    ("36", "coordinateDatumCode");
    ("16", "altitude");
    ("18", "altitudeAccuracyValue");
    ("17", "altitudeMethodCode");
    ("22", "altitudeDatumCode");
    ("13", "landNet");
    ("19", "topographicCode");
    ("20", "hydrologicUnitCode");
    ("801", "basinCode");
    ("813", "timeZoneCode");
    ("814", "daylightSavingsTimeFlag");
    ("14", "mapName");
    ("15", "mapScale");
    ("803", "agencyUseCode");
    ("39", "nationalWaterUseCode");
    ("804", "dataTypesCode");
    ("805", "instrumentsCode");
    ("711", "siteEstablishmentDate");
    ("806", "remarks");
    ("32", "siteWebReadyCode");
    ("3", "dataReliabilityCode");
    ("21", "firstConstructionDate");
    ("23", "primaryUseOfSiteCode");
    ("301", "secondaryUseOfSiteCode");
    ("302", "tertiaryUseOfSiteCode");
    ("24", "primaryUseOfWaterCode");
    ("25", "secondaryUseOfWaterCode");
    ("26", "tertiaryUseOfWaterCode");
    ("713", "aquiferTypeCode");
    ("714", "aquiferCode");
    ("715", "nationalAquiferCode");
    ("27", "holeDepth");
    ("28", "wellDepth");
    ("29", "sourceOfDepthCode");
    ("808", "drainageArea");
    ("809", "contributingDrainageArea");
    ("712", "gwFileCode");
    ("R", "databaseTableIdentifier");
    ("T", "transactionType")
  ].

Definition KEY_TO_ATTR_MAPPING : gmap str str := list_to_map KEY_TO_ATTR_ITEMS.

Definition DATABASE_TABLE_ID_TOKEN : str := "R=".

Definition MAX_TRANSACTIONS : Z := 30000.

(** ** Line splitting and validation *)

(** The three lists of line numbers the loop of [validate_lines] fills. *)
Record violations := {
  too_long_lines : list Z;
  too_short_lines : list Z;
  bad_site_lines : list Z
}.

(** One iteration of the loop of [validate_lines]. *)
Definition validate_line (v : violations) (entry : Z * str) : outcome violations :=
  let '(index, line) := entry in
  if len line >? 80 then
    Return {| too_long_lines := too_long_lines v ++ [index + 2];
              too_short_lines := too_short_lines v;
              bad_site_lines := bad_site_lines v |}
  else if len line <? 21 then
    Return {| too_long_lines := too_long_lines v;
              too_short_lines := too_short_lines v ++ [index + 2];
              bad_site_lines := bad_site_lines v |}
  else
    c ← getitem line 20;
    if bool_decide (c ≠ " "%char) then
      Return {| too_long_lines := too_long_lines v;
                too_short_lines := too_short_lines v;
                bad_site_lines := bad_site_lines v ++ [index + 2] |}
    else Return v.

Fixpoint validate_loop (v : violations) (entries : list (Z * str)) : outcome violations :=
  match entries with
  | [] => Return v
  | entry :: entries => v' ← validate_line v entry; validate_loop v' entries
  end.

Definition line_list (line_numbers : list Z) : str :=
  join ", " (str_of_int <$> line_numbers).

Definition too_long_clause (l : list Z) : str :=
  "Contains lines exceeding 80 characters: lines " ++ line_list l ++ ". ".

Definition too_short_clause (l : list Z) : str :=
  "Contains lines with an invalid agency code / site number format (fewer than 21 characters): lines "
  ++ line_list l ++ ". ".

Definition bad_site_clause (l : list Z) : str :=
  "Contains lines with invalid site number format: lines " ++ line_list l ++ ". ".

Definition validate_lines (lines : list str) : outcome str :=
  v ← validate_loop {| too_long_lines := []; too_short_lines := []; bad_site_lines := [] |}
                    (enumerate lines);
  let error_message := "" in
  let error_message :=
    if bool_decide (too_long_lines v ≠ []) then error_message ++ too_long_clause (too_long_lines v)
    else error_message in
  let error_message :=
    if bool_decide (too_short_lines v ≠ []) then error_message ++ too_short_clause (too_short_lines v)
    else error_message in
  let error_message :=
    if bool_decide (bad_site_lines v ≠ []) then error_message ++ bad_site_clause (bad_site_lines v)
    else error_message in
  Return error_message.

Definition get_lines (content : str) : outcome (list str) :=
  if bool_decide (content = []) then raise EmptyInput
  else
    let lines := slice_from (re_split_lines content) 1 in
    if bool_decide (lines = []) then raise NoTransactions
    else
      last_line ← getitem lines (len lines - 1);
      let lines := if bool_decide (last_line = []) then slice lines 0 (len lines - 1) else lines in
      validation_errors ← validate_lines lines;
      if len validation_errors >? 0 then raise (ValidationError validation_errors)
      else Return lines.

(** ** Transaction grouping *)

(** [itertools.groupby(l, key)]: the maximal runs of consecutive elements
    with equal keys, each with its key. *)
Fixpoint groupby `{EqDecision K} {A} (key : A → K) (l : list A) : list (K * list A) :=
  match l with
  | [] => []
  | x :: l =>
      match groupby key l with
      | (k, g) :: groups =>
          if decide (key x = k) then (key x, x :: g) :: groups
          else (key x, [x]) :: (k, g) :: groups
      | [] => [(key x, [x])]
      end
  end.

Record transaction := {
  agencyCode : str;
  siteNumber : str;
  key_value_pairs : str;
  line_numbers : list Z
}.

Global Instance transaction_eq_dec : EqDecision transaction.
Proof. solve_decision. Defined.

(** A line split into site key, payload and line number. *)
Abbreviation parsed_line := (str * str * Z)%type.

Definition parse_line (entry : Z * str) : parsed_line :=
  let '(index, line) := entry in (slice line 0 20, slice_from line 21, index + 2).

(** The dictionary literal of [get_transactions], built at both of its places. *)
Definition make_transaction (location : str) (key_value_pairs : list str)
    (line_numbers : list Z) : transaction :=
  {| agencyCode := slice location 0 5;
     siteNumber := slice location 5 20;
     key_value_pairs := join " " key_value_pairs;
     line_numbers := line_numbers |}.

(** The state of the loops: [result], [line_numbers], [key_value_pairs]. *)
Abbreviation group_state := (list transaction * list Z * list str)%type.

(** One iteration of the inner loop. *)
Definition group_line (location : str) (st : group_state) (line : parsed_line) : group_state :=
  let '(result, line_numbers, key_value_pairs) := st in
  let '(result, line_numbers, key_value_pairs) :=
    if bool_decide (DATABASE_TABLE_ID_TOKEN = slice line.1.2 0 2)
       && bool_decide (key_value_pairs ≠ [])
    then (result ++ [make_transaction location key_value_pairs line_numbers], [], [])
    else (result, line_numbers, key_value_pairs) in
  (result, line_numbers ++ [line.2], key_value_pairs ++ [line.1.2]).

(** One iteration of the outer loop. *)
Definition group_location (result : list transaction) (group : str * list parsed_line)
    : list transaction :=
  let '(location, location_group) := group in
  let '(result, line_numbers, key_value_pairs) :=
    foldl (group_line location) (result, [], []) location_group in
  result ++ [make_transaction location key_value_pairs line_numbers].

Definition get_transactions (lines : list str) : list transaction :=
  let parsed_lines := parse_line <$> enumerate lines in
  foldl group_location [] (groupby (λ x, x.1.1) parsed_lines).

(** ** Token parsing *)

(** The body of the [while] loop of [parse_key_value_pairs]: the pair read
    and the string that remains. Both searches run on [test_string]. *)
Definition parse_pair (test_string : str) : outcome (str * str * str) :=
  match SEPARATOR_TOKENS_search test_string with
  | None => raise (MissingSeparator test_string)
  | Some separator_match =>
      let key := slice test_string 0 (m_start separator_match) in
      match VALUE_ENDING_TOKENS_search test_string with
      | Some value_ending_match =>
          let value :=
            slice test_string (m_end separator_match) (m_start value_ending_match) in
          Return (key, value, slice_from test_string (m_end value_ending_match))
      | None => raise (MissingEndingToken test_string)
      end
  end.

(** A value together with the equation that says where it comes from. *)
Definition inspect {A} (x : A) : {y : A | x = y} := exist _ x eq_refl.

Equations parse_pairs (test_string : str) (result : list (str * str))
    : outcome (list (str * str)) by wf (length test_string) lt :=
  parse_pairs [] result := Return result;
  parse_pairs (c :: s) result with inspect (parse_pair (c :: s)) := {
    | exist _ (Return (key, value, rest)) Hpair => parse_pairs rest (result ++ [(key, value)]);
    | exist _ (Raise e) _ => Raise e
  }.
Next Obligation.
  revert Hpair.
  unfold parse_pair, SEPARATOR_TOKENS_search, VALUE_ENDING_TOKENS_search.
  destruct (find_index is_separator (c :: s)) as [i|]; [|by simpl].
  destruct (find_index is_ending (c :: s)) as [j|]; [|by simpl].
  cbn [mbind option_bind m_start m_end].
  intros [= _ _ <-].
  unfold slice_from, slice, clamp, len. cbn [length].
  set (n := Z.of_nat (S (length s))).
  set (e := (Z.of_nat j + 1 + Z.of_nat _)%Z).
  assert (0 < e) by lia. assert (0 < n) by lia.
  destruct (Z.ltb_spec e 0); [lia|]. destruct (Z.ltb_spec n 0); [lia|].
  rewrite length_take, length_drop. cbn [length]. lia.
Qed.

Definition parse_key_value_pairs (kv_pairs_str : str) : outcome (list (str * str)) :=
  if bool_decide (kv_pairs_str = []) then raise NoTokens
  else parse_pairs kv_pairs_str [].

(** ** Semantic validation and normalization *)

(** The loop of [has_duplicate_station_name_keys]: [found] is the flag of the
    source, the value returned is [has_duplicate]; [break] ends the loop. *)
Fixpoint station_name_loop (found : bool) (kv_pairs : list (str * str)) : bool :=
  match kv_pairs with
  | [] => false
  | (key, value) :: kv_pairs =>
      if bool_decide (KEY_TO_ATTR_MAPPING !! key = Some "stationName") then
        if found then true else station_name_loop true kv_pairs
      else station_name_loop found kv_pairs
  end.

Definition has_duplicate_station_name_keys (kv_pairs : list (str * str)) : bool :=
  station_name_loop false kv_pairs.

Definition has_transaction_type (kv_pairs : list (str * str)) : bool :=
  1 =? len ((λ p, p.1) <$> filter (λ p, p.1 = "T") kv_pairs).

Definition invalid_key_codes (kv_pairs : list (str * str)) : list str :=
  (λ p, p.1) <$> filter (λ p, KEY_TO_ATTR_MAPPING !! p.1 = None) kv_pairs.

(** The dictionary comprehension: pairs are taken in order, a later pair
    overwrites an earlier one with the same attribute. *)
Definition translate_keys_to_attributes (kv_pairs : list (str * str)) : gmap str str :=
  foldl (λ result p,
           match KEY_TO_ATTR_MAPPING !! p.1 with
           | Some attr => <[attr := p.2]> result
           | None => result
           end) ∅ kv_pairs.

Definition startswith (value prefix : str) : bool :=
  bool_decide (take (length prefix) value = prefix).

Definition endswith (value suffix : str) : bool :=
  bool_decide (drop (length value - length suffix) value = suffix).

Definition remove_leading_and_trailing_single_quotes (value : str) : str :=
  if startswith value "'" && endswith value "'"
  then slice value 1 (len value - 1)
  else value.

Definition update_c_code_to_y_code (value : str) : str :=
  if bool_decide (value = "C") then "Y" else value.

(** Python's [a or b] on computations that may raise: [b] runs only when
    [a] is false. *)
Definition or_else (a b : outcome bool) : outcome bool :=
  x ← a; if x : bool then Return true else b.

Definition add_leading_space (value : str) : outcome str :=
  cond ← or_else (Return (len value =? 0))
           (or_else (c ← getitem value 0; Return (bool_decide (c = " "%char)))
                    (c ← getitem value 0; Return (bool_decide (c = "-"%char))));
  Return (if cond : bool then value else " " ++ value).

Definition add_leading_zero (value : str) : outcome str :=
  cond ← or_else (Return (len value =? 0))
           (or_else (c ← getitem value 1; Return (bool_decide (c = "1"%char)))
                    (c ← getitem value 1; Return (bool_decide (c = "0"%char))));
  Return (if cond : bool then value else slice_to value 1 ++ "0" ++ slice_from value 1).

Definition too_many_transactions (value : Z) : bool :=
  if value >? MAX_TRANSACTIONS then true else false.

(** ** The orchestrator *)

(** Lines 334 to 346 of [parse]: the special processing of values. *)
Definition normalize_values (this_result : gmap str str) : outcome (gmap str str) :=
  let this_result :=
    match this_result !! "stationName" with
    | Some value =>
        <["stationName" := remove_leading_and_trailing_single_quotes value]> this_result
    | None => this_result
    end in
  this_result ←
    match this_result !! "latitude" with
    | Some value =>
        value ← add_leading_space value;
        Return (<["latitude" := value]> this_result)
    | None => Return this_result
    end;
  this_result ←
    match this_result !! "longitude" with
    | Some value =>
        value ← add_leading_space value;
        value ← add_leading_zero value;
        Return (<["longitude" := value]> this_result)
    | None => Return this_result
    end;
  let this_result :=
    match this_result !! "siteWebReadyCode" with
    | Some value => <["siteWebReadyCode" := update_c_code_to_y_code value]> this_result
    | None => this_result
    end in
  Return this_result.

(** Lines 318 to 346 of [parse]: the checks and the normalization of one
    transaction, from its key/value pairs. *)
Definition validate_and_normalize (transaction : transaction) (kv_pairs : list (str * str))
    : outcome (gmap str str) :=
  if has_duplicate_station_name_keys kv_pairs then
    raise (DuplicateStationName (line_numbers transaction))
  else if negb (has_transaction_type kv_pairs) then
    raise (MissingTransactionType (line_numbers transaction))
  else
    let invalid_codes := invalid_key_codes kv_pairs in
    if bool_decide (invalid_codes ≠ []) then
      raise (InvalidCodes (line_numbers transaction) invalid_codes)
    else
      let this_result := translate_keys_to_attributes kv_pairs in
      let this_result := <["agencyCode" := agencyCode transaction]> this_result in
      let this_result := <["siteNumber" := siteNumber transaction]> this_result in
      if bool_decide (default "" (this_result !! "transactionType") ∉ ["A"; "M"]) then
        raise (InvalidTransactionType (line_numbers transaction))
      else normalize_values this_result.

(** The body of the [for] loop of [parse]: a [ParseError] of the token
    parser is caught and raised again with the line numbers. *)
Definition parse_transaction (transaction : transaction) : outcome (gmap str str) :=
  kv_pairs ←
    match parse_key_value_pairs (key_value_pairs transaction) with
    | Raise (ParseErr err) => raise (TokenError (line_numbers transaction) err)
    | other => other
    end;
  validate_and_normalize transaction kv_pairs.

Fixpoint parse_transactions (transactions : list transaction) (results : list (gmap str str))
    : outcome (list (gmap str str)) :=
  match transactions with
  | [] => Return results
  | transaction :: transactions =>
      this_result ← parse_transaction transaction;
      parse_transactions transactions (results ++ [this_result])
  end.

(** The site of a record: [(r.get('agencyCode'), r.get('siteNumber'))]. *)
Definition site_of (site_result : gmap str str) : option str * option str :=
  (site_result !! "agencyCode", site_result !! "siteNumber").

Definition parse (file_contents : str) : outcome (list (gmap str str)) :=
  lines ← get_lines file_contents;
  let transactions := get_transactions lines in
  if too_many_transactions (len transactions) then raise TooManyTransactions
  else
    results ← parse_transactions transactions [];
    let site_results :=
      filter (λ result, result !! "databaseTableIdentifier" = Some "0") results in
    let sites := site_of <$> site_results in
    let duplicate_sites : gset (option str * option str) :=
      list_to_set (filter (λ site, count site sites > 1) sites) in
    if bool_decide (duplicate_sites ≠ ∅) then raise (DuplicateSite duplicate_sites)
    else Return site_results.

(** A line feed, the line terminator of the examples. *)
Definition nl : str := ["010"%char].

(** * Vocabulary of the properties *)

(** The number of pairs whose key the code table maps to [stationName]. *)
Definition station_name_count (kv_pairs : list (str * str)) : nat :=
  length (filter (λ p, KEY_TO_ATTR_MAPPING !! p.1 = Some "stationName") kv_pairs).

(** The number of pairs whose key is ["T"]. *)
Definition transaction_type_count (kv_pairs : list (str * str)) : nat :=
  length (filter (λ p, p.1 = "T") kv_pairs).

(** The violation categories of line validation. *)
Inductive category := TooLong | TooShort | BadSite.

Global Instance category_eq_dec : EqDecision category.
Proof. solve_decision. Defined.

(** The category of a line, by the precedence of the rules: too long, else
    too short, else no space at offset 20. *)
Definition category_of (line : str) : option category :=
  if len line >? 80 then Some TooLong
  else if len line <? 21 then Some TooShort
  else if bool_decide (line !! 20%nat = Some " "%char) then None
  else Some BadSite.

(** The line numbers (index plus 2) of the entries in a category. *)
Definition violating (c : category) (entries : list (Z * str)) : list Z :=
  (λ e, e.1 + 2) <$> filter (λ e, category_of e.2 = Some c) entries.

Definition lines_in (c : category) (lines : list str) : list Z :=
  violating c (enumerate lines).

Definition clause_of (c : category) (line_numbers : list Z) : str :=
  match c with
  | TooLong => too_long_clause line_numbers
  | TooShort => too_short_clause line_numbers
  | BadSite => bad_site_clause line_numbers
  end.

(** The clause of a category in the message: present when some line is in
    the category. *)
Definition optional_clause (c : category) (lines : list str) : str :=
  if bool_decide (lines_in c lines = []) then "" else clause_of c (lines_in c lines).

Definition validation_message (lines : list str) : str :=
  optional_clause TooLong lines ++ optional_clause TooShort lines
  ++ optional_clause BadSite lines.

(** The lines of a file after its header, without the empty line that a final
    line terminator leaves. *)
Definition data_lines (content : str) : list str :=
  let lines := drop 1 (re_split_lines content) in
  if bool_decide (last lines = Some []) then take (length lines - 1) lines else lines.

(** A file of [n] data lines for one site, each a payload ["R=0"] that starts
    a transaction and has no ending token. *)
Definition unterminated_file (n : Z) : str :=
  "header" ++ nl ++ mjoin (replicate (Z.to_nat n) ("USGS 123456789012345 R=0" ++ nl)).

(** The site key and the payload of a line, and the number of the line at
    an index. *)
Definition site_key (line : str) : str := slice line 0 20.

Definition payload (line : str) : str := slice_from line 21.

Definition line_number (k : nat) : Z := Z.of_nat k + 2.

(** A payload that starts with the token ["R="]. *)
Definition marked (payload : str) : bool :=
  bool_decide (DATABASE_TABLE_ID_TOKEN = slice payload 0 2).

(** Two line numbers are together when one transaction lists both. *)
Definition together (transactions : list transaction) (n m : Z) : Prop :=
  ∃ t, t ∈ transactions ∧ n ∈ line_numbers t ∧ m ∈ line_numbers t.

(** The segments of a list: the maximal blocks of consecutive elements with
    no break between two neighbours. *)
Fixpoint segments {A} (brk : A → A → bool) (l : list A) : list (list A) :=
  match l with
  | [] => []
  | x :: l' =>
      match l' with
      | y :: _ =>
          match segments brk l' with
          | seg :: segs => if brk x y then [x] :: seg :: segs else (x :: seg) :: segs
          | [] => [[x]]
          end
      | [] => [[x]]
      end
  end.

(** A break between two parsed lines: the site key changes, or the second
    payload starts with ["R="]. *)
Definition line_break (x y : parsed_line) : bool :=
  bool_decide (x.1.1 ≠ y.1.1) || marked y.1.2.

(** The line numbers and the payloads of a block of parsed lines. *)
Definition numbers (seg : list parsed_line) : list Z := (λ x, x.2) <$> seg.

Definition payloads (seg : list parsed_line) : list str := (λ x, x.1.2) <$> seg.

(** The transaction of a segment of parsed lines. *)
Definition transaction_of (seg : list parsed_line) : transaction :=
  make_transaction (from_option (λ x, x.1.1) [] (head seg)) (payloads seg) (numbers seg).

(** The records of the site file among the results of the transactions. *)
Definition site_file (results : list (gmap str str)) : list (gmap str str) :=
  filter (λ result, result !! "databaseTableIdentifier" = Some "0") results.

(** The sites that occur more than once in a list of sites. *)
Definition duplicates (sites : list (option str * option str))
    : gset (option str * option str) :=
  list_to_set (filter (λ site, count site sites > 1) sites).

(** The errors the body of the loop of [parse] raises. *)
Definition transaction_error (e : ParseError) : Prop :=
  match e with
  | TokenError _ _ | DuplicateStationName _ | MissingTransactionType _
  | InvalidCodes _ _ | InvalidTransactionType _ => True
  | _ => False
  end.

(** Two files with two transactions for one site: in the first both are for
    the site file, in the second one is for another table. *)
Definition two_site_records : str :=
  "header" ++ nl ++ "USGS 123456789012345 R=0* T=A*" ++ nl
  ++ "USGS 123456789012345 R=0* T=M*" ++ nl.

Definition one_site_record : str :=
  "header" ++ nl ++ "USGS 123456789012345 R=0* T=A*" ++ nl
  ++ "USGS 123456789012345 R=1* T=M*" ++ nl.

Definition site_record (table transaction_type : str) : gmap str str :=
  list_to_map [("databaseTableIdentifier", table); ("transactionType", transaction_type);
               ("agencyCode", "USGS "); ("siteNumber", "123456789012345")].

(** The two delimiter conventions of the token grammar: [key=value*] and
    [key#value$]. *)
Inductive style := EqualsStar | HashDollar.

Definition separator_of (st : style) : ascii :=
  match st with EqualsStar => "="%char | HashDollar => "#"%char end.

Definition ending_of (st : style) : ascii :=
  match st with EqualsStar => "*"%char | HashDollar => "$"%char end.

(** A pair written back as a token: key, separator, value, ending token. *)
Definition serialize_pair (st : style) (p : str * str) : str :=
  p.1 ++ separator_of st :: p.2 ++ [ending_of st].

Definition serialize (st : style) (kv_pairs : list (str * str)) : str :=
  mjoin (serialize_pair st <$> kv_pairs).

(** A string without a separator character, and one without ['*'] and ['$']. *)
Definition nosep (s : str) : Prop := find_index is_separator s = None.

Definition clean (s : str) : Prop := find_index is_ending s = None.

(** A string that does not start with whitespace. *)
Definition no_leading_space (s : str) : Prop := span_length is_space s = 0%nat.

(** What the token parser reads next when the ending token it finds lies in
    the key: the rest of the key after that token. *)
Definition next_key (k : str) : option str :=
  j ← find_index is_ending k;
  Some (drop (S j + span_length is_space (drop (S j) k)) k).

(** The rest of a key is shorter than the key. *)
Lemma next_key_shorter k y : next_key k = Some y → (length y < length k)%nat.
Proof.
  unfold next_key. destruct (find_index is_ending k) as [j|] eqn:Hj; [|done].
  intros [= <-]. rewrite length_drop.
  assert (length k ≠ 0%nat) by (by destruct k). lia.
Qed.

(** The pairs the token parser reads from the token of a pair: the key and,
    as long as the key read has an ending token, the rest of that key read as a
    key of an empty value. *)
Equations chain (k v : str) : list (str * str) by wf (length k) lt :=
  chain k v with inspect (next_key k) := {
    | exist _ (Some y) Hnext => (k, []) :: chain y v;
    | exist _ None _ => [(k, v)]
  }.
Next Obligation. by apply next_key_shorter. Qed.

(** The shape of the lists the token parser returns: a key with an ending
    token has an empty value and is followed by the rest of the key as the
    next key; the other keys have a value without ending token and are
    followed by a key that does not start with whitespace. *)
Inductive chained : list (str * str) → Prop :=
  | chained_nil : chained []
  | chained_clean k v kv :
      nosep k → clean k → clean v →
      (∀ k' v' kv', kv = (k', v') :: kv' → no_leading_space k') →
      chained kv → chained ((k, v) :: kv)
  | chained_dirty k y v kv :
      nosep k → next_key k = Some y →
      chained ((y, v) :: kv) → chained ((k, []) :: (y, v) :: kv).

(** One step of the dictionary comprehension of
    [translate_keys_to_attributes]. *)
Definition translate_step (result : gmap str str) (p : str * str) : gmap str str :=
  match KEY_TO_ATTR_MAPPING !! p.1 with
  | Some attr => <[attr := p.2]> result
  | None => result
  end.


(** ** Vocabulary of the properties of the remaining code *)

(** What [add_leading_space] returns, and what [add_leading_zero] returns on
    a value it can index. *)
Definition leading_space (value : str) : str :=
  match value with
  | [] => []
  | c :: _ => if bool_decide (c = " "%char ∨ c = "-"%char) then value else " " ++ value
  end.

Definition leading_zero (value : str) : str :=
  match value with
  | c0 :: c1 :: s =>
      if bool_decide (c1 = "1"%char ∨ c1 = "0"%char) then value else c0 :: "0"%char :: c1 :: s
  | _ => value
  end.

(** The four attributes whose values [parse] rewrites. *)
Definition normalized_attributes : list str :=
  ["stationName"; "latitude"; "longitude"; "siteWebReadyCode"].

(** A file written line by line, every line followed by the terminator. *)
Definition terminated (terminator : str) (lines : list str) : str :=
  mjoin ((λ line, line ++ terminator) <$> lines).

Definition crlf : str := ["013"%char; "010"%char].

(** A line without line feed and carriage return. *)
Definition plain (line : str) : Prop := ("010"%char ∉ line) ∧ ("013"%char ∉ line).

(** A line that passes the three rules of line validation. *)
Definition valid_line (line : str) : Prop :=
  21 ≤ len line ≤ 80 ∧ line !! 20%nat = Some " "%char.

(** A token of the grammar as it is written in a file: key, separator, value,
    ending token and the whitespace after it. *)
Record token := {
  token_key : str;
  token_separator : ascii;
  token_value : str;
  token_ending : ascii;
  token_space : str
}.

Definition write_token (t : token) : str :=
  token_key t ++ token_separator t :: token_value t ++ token_ending t :: token_space t.

Definition write_tokens (tokens : list token) : str := mjoin (write_token <$> tokens).

Definition token_pair (t : token) : str * str := (token_key t, token_value t).

(** A token the parser reads back as written: delimiters of the grammar, a
    key without delimiters, a value without ending token, whitespace after the
    ending token. *)
Definition well_formed (t : token) : Prop :=
  nosep (token_key t) ∧ clean (token_key t) ∧ clean (token_value t)
  ∧ is_separator (token_separator t) = true ∧ is_ending (token_ending t) = true
  ∧ Forall (λ c, is_space c = true) (token_space t).

(** The values of the pairs whose code the table maps to an attribute, in
    the order of the pairs. *)
Definition values_of (attr : str) (kv_pairs : list (str * str)) : list str :=
  (λ p, p.2) <$> filter (λ p, KEY_TO_ATTR_MAPPING !! p.1 = Some attr) kv_pairs.

(** The attribute names of the code table. *)
Definition attribute_names : list str := KEY_TO_ATTR_ITEMS.*2.

(** The line numbers an error of the loop of [parse] carries. *)
Definition error_lines (e : ParseError) : option (list Z) :=
  match e with
  | TokenError line_numbers _ | DuplicateStationName line_numbers
  | MissingTransactionType line_numbers | InvalidCodes line_numbers _
  | InvalidTransactionType line_numbers => Some line_numbers
  | _ => None
  end.

(** The errors [parse_key_value_pairs] raises. *)
Definition token_error (e : ParseError) : Prop :=
  match e with
  | NoTokens | MissingSeparator _ | MissingEndingToken _ => True
  | _ => False
  end.

(** The record before the special processing of values. *)
Definition identified (transaction : transaction) (kv_pairs : list (str * str))
    : gmap str str :=
  <["siteNumber" := siteNumber transaction]>
    (<["agencyCode" := agencyCode transaction]> (translate_keys_to_attributes kv_pairs)).
(** * Properties *)

(** ** Slices, indexing and the exception monad *)

Lemma slice_nonneg {A} (l : list A) (a b : Z) :
  0 ≤ a → 0 ≤ b →
  slice l a b = take (Z.to_nat b - Z.to_nat a) (drop (Z.to_nat a) l).
Proof.
  intros Ha Hb. unfold slice, clamp, len.
  destruct (Z.ltb_spec a 0); [lia|]. destruct (Z.ltb_spec b 0); [lia|].
  destruct (Z.min_spec a (Z.of_nat (length l))) as [[? ->]|[? ->]];
    destruct (Z.min_spec b (Z.of_nat (length l))) as [[? ->]|[? ->]].
  - f_equal. lia.
  - rewrite !take_ge; [done|rewrite length_drop; lia..].
  - rewrite !drop_ge by lia. by rewrite !take_nil.
  - rewrite !drop_ge by lia. by rewrite !take_nil.
Qed.

Lemma slice_from_nonneg {A} (l : list A) (a : Z) :
  0 ≤ a → slice_from l a = drop (Z.to_nat a) l.
Proof.
  intros Ha. unfold slice_from. rewrite slice_nonneg by (unfold len; lia).
  apply take_ge. rewrite length_drop. unfold len. lia.
Qed.

Lemma slice_to_nonneg {A} (l : list A) (b : Z) :
  0 ≤ b → slice_to l b = take (Z.to_nat b) l.
Proof.
  intros Hb. unfold slice_to. rewrite slice_nonneg by lia.
  simpl. by rewrite Nat.sub_0_r.
Qed.

Lemma getitem_nonneg {A} (l : list A) (i : nat) :
  getitem l (Z.of_nat i) =
  match l !! i with Some x => Return x | None => Raise IndexError end.
Proof.
  unfold getitem.
  destruct (Z.ltb_spec (Z.of_nat i) 0); [lia|].
  destruct (Z.ltb_spec (Z.of_nat i) 0); [lia|].
  by rewrite Nat2Z.id.
Qed.

Lemma bind_Return {A B} (f : A → outcome B) (a : A) : (Return a ≫= f) = f a.
Proof. done. Qed.

Lemma bind_Raise {A B} (f : A → outcome B) (e : exception) : (Raise e ≫= f) = Raise e.
Proof. done. Qed.

(** ** The token parser *)

Lemma parse_pairs_eq test_string result :
  parse_pairs test_string result =
  match test_string with
  | [] => Return result
  | _ =>
      match parse_pair test_string with
      | Return (key, value, rest) => parse_pairs rest (result ++ [(key, value)])
      | Raise e => Raise e
      end
  end.
Proof.
  destruct test_string as [|c s]; simp parse_pairs; [done|].
  destruct (inspect (parse_pair (c :: s))) as [[[[key value] rest]|e] H];
    simp parse_pairs; by rewrite H.
Qed.

Lemma find_index_Some p s i :
  find_index p s = Some i →
  (i < length s)%nat ∧ (∃ c, s !! i = Some c ∧ p c = true) ∧
  ∀ c, c ∈ take i s → p c = false.
Proof.
  revert i. induction s as [|c s IH]; intros i; simpl; [done|].
  destruct (p c) eqn:Hc.
  - intros [= <-]. split; [lia|]. split; [by exists c|]. simpl. by intros ? ?%elem_of_nil.
  - destruct (find_index p s) as [j|]; simpl; [|done]. intros [= <-].
    destruct (IH j eq_refl) as (? & ? & Hall). split; [lia|]. split; [done|].
    simpl. intros c' [->|?]%elem_of_cons; auto.
Qed.

Lemma find_index_None p s :
  find_index p s = None ↔ ∀ c, c ∈ s → p c = false.
Proof.
  induction s as [|c s IH]; simpl.
  - split; [by intros _ ? ?%elem_of_nil|done].
  - destruct (p c) eqn:Hc.
    + split; [done|]. intros H. rewrite H in Hc; [done|]. by left.
    + destruct (find_index p s) as [j|] eqn:Hj; simpl.
      * split; [done|]. intros H.
        assert (Some j = None) as [=]. apply IH. intros ??. apply H. by right.
      * split; [|done]. intros _ c' [->|?]%elem_of_cons; [done|]. by apply IH.
Qed.

(** The step of the token parser. The separator and the ending token are both
    looked for in the whole remaining string; the key is what precedes the
    separator, the value what lies between the separator and the ending
    token, and the next pair is read after the ending token and the
    whitespace that follows it. *)
Lemma parse_pairs_step test_string result i j :
  find_index is_separator test_string = Some i →
  find_index is_ending test_string = Some j →
  parse_pairs test_string result =
  parse_pairs
    (drop (S j + span_length is_space (drop (S j) test_string)) test_string)
    (result ++ [(take i test_string, take (j - S i) (drop (S i) test_string))]).
Proof.
  intros Hi Hj. rewrite parse_pairs_eq.
  destruct test_string as [|c s]; [done|].
  unfold parse_pair, SEPARATOR_TOKENS_search, VALUE_ENDING_TOKENS_search.
  rewrite Hi, Hj. cbn [mbind option_bind m_start m_end].
  rewrite slice_from_nonneg by lia.
  rewrite !slice_nonneg by lia.
  rewrite drop_0.
  repeat f_equal; lia.
Qed.

(** Claim C3: the payload ["5=ABC* T=A*"] parses to the two pairs
    [("5","ABC")] and [("T","A")], in this order. At every step the ending
    token (['*'] or ['$'] and the whitespace after it) is searched from the
    start of the remaining string, as the separator is, and the next pair
    is read after the ending token and its trailing whitespace; on
    ["a*b=c*"] the ending token found first lies before the separator. *)
Theorem C3_parse_key_value_pairs_example :
  parse_key_value_pairs "5=ABC* T=A*" = Return [("5", "ABC"); ("T", "A")]
  ∧ (∀ test_string result i j,
       find_index is_separator test_string = Some i →
       find_index is_ending test_string = Some j →
       parse_pairs test_string result =
       parse_pairs
         (drop (S j + span_length is_space (drop (S j) test_string)) test_string)
         (result ++ [(take i test_string, take (j - S i) (drop (S i) test_string))]))
  ∧ parse_key_value_pairs "a*b=c*" = Return [("a*b", ""); ("b", "c")].
Proof.
  split; [by vm_compute|]. split; [apply parse_pairs_step|by vm_compute].
Qed.

Lemma C3_witness :
  find_index is_separator "5=ABC* T=A*" = Some 1%nat
  ∧ find_index is_ending "5=ABC* T=A*" = Some 5%nat
  ∧ parse_pairs "5=ABC* T=A*" [] = parse_pairs "T=A*" [("5", "ABC")].
Proof.
  split; [reflexivity|]. split; [reflexivity|].
  apply (proj1 (proj2 C3_parse_key_value_pairs_example) "5=ABC* T=A*" [] 1%nat 5%nat);
    reflexivity.
Defined.

(** ** The code table *)

Lemma KEY_TO_ATTR_ITEMS_NoDup : NoDup KEY_TO_ATTR_ITEMS.*1.
Proof. apply (bool_decide_unpack _). by vm_compute. Qed.

Lemma KEY_TO_ATTR_MAPPING_lookup key attr :
  KEY_TO_ATTR_MAPPING !! key = Some attr ↔ (key, attr) ∈ KEY_TO_ATTR_ITEMS.
Proof.
  unfold KEY_TO_ATTR_MAPPING. symmetry.
  apply elem_of_list_to_map, KEY_TO_ATTR_ITEMS_NoDup.
Qed.

(** The codes of [stationName] are ["900"] and ["12"], and no other. *)
Lemma station_name_codes key :
  KEY_TO_ATTR_MAPPING !! key = Some "stationName" ↔ key = "900" ∨ key = "12".
Proof.
  split.
  - rewrite KEY_TO_ATTR_MAPPING_lookup. intros Hin.
    assert (Forall (λ p, p.2 = "stationName" → p.1 = "900" ∨ p.1 = "12")
              KEY_TO_ATTR_ITEMS) as Hall.
    { apply (bool_decide_unpack _). by vm_compute. }
    rewrite Forall_forall in Hall. by apply (Hall _ Hin).
  - intros [-> | ->]; by vm_compute.
Qed.

(** ** Duplicate station names (claim C7) *)

Lemma station_name_loop_spec found kv_pairs :
  station_name_loop found kv_pairs =
  bool_decide (2 ≤ (if found then 1 else 0) + station_name_count kv_pairs)%nat.
Proof.
  revert found. unfold station_name_count.
  induction kv_pairs as [|[key value] kv IH]; intros found.
  - simpl. destruct found; by rewrite bool_decide_false by lia.
  - cbn [station_name_loop]. rewrite filter_cons. cbn [fst].
    case_bool_decide as Hkey.
    + rewrite decide_True by done. cbn [length]. destruct found.
      * by rewrite bool_decide_true by lia.
      * rewrite IH. apply bool_decide_ext. lia.
    + rewrite decide_False by done. apply IH.
Qed.

Lemma has_duplicate_station_name_keys_spec kv_pairs :
  has_duplicate_station_name_keys kv_pairs = true ↔ (2 ≤ station_name_count kv_pairs)%nat.
Proof.
  unfold has_duplicate_station_name_keys. rewrite station_name_loop_spec.
  by rewrite bool_decide_eq_true.
Qed.

(** Claim C7: a transaction with two or more pairs whose keys the code table
    maps to [stationName] (the codes ["900"] and ["12"], in any combination)
    fails with [DuplicateStationName], whatever else it contains: the check
    comes first, before the transaction type and the unknown codes are
    looked at. *)
Theorem C7_duplicate_station_name transaction kv_pairs :
  (2 ≤ length (filter (λ p, p.1 = "900" ∨ p.1 = "12") kv_pairs))%nat →
  has_duplicate_station_name_keys kv_pairs = true
  ∧ validate_and_normalize transaction kv_pairs
    = raise (DuplicateStationName (line_numbers transaction))
  ∧ (parse_key_value_pairs (key_value_pairs transaction) = Return kv_pairs →
     parse_transaction transaction
     = raise (DuplicateStationName (line_numbers transaction))).
Proof.
  intros Hcount.
  assert (has_duplicate_station_name_keys kv_pairs = true) as Hdup.
  { apply has_duplicate_station_name_keys_spec. unfold station_name_count.
    erewrite list_filter_iff; [done|]. intros p. apply station_name_codes. }
  split; [done|].
  assert (validate_and_normalize transaction kv_pairs
          = raise (DuplicateStationName (line_numbers transaction))) as Hval.
  { unfold validate_and_normalize. by rewrite Hdup. }
  split; [done|].
  intros Hparse. unfold parse_transaction. by rewrite Hparse.
Qed.

Lemma C7_witness :
  let transaction :=
    {| agencyCode := "USGS "; siteNumber := "123456789012345";
       key_value_pairs := "X=1* 900=A* 12=B*"; line_numbers := [2] |} in
  parse_key_value_pairs (key_value_pairs transaction)
  = Return [("X", "1"); ("900", "A"); ("12", "B")]
  ∧ parse_transaction transaction = raise (DuplicateStationName [2]).
Proof.
  intros transaction. split; [by vm_compute|].
  apply (C7_duplicate_station_name transaction [("X", "1"); ("900", "A"); ("12", "B")]).
  - vm_compute. lia.
  - by vm_compute.
Defined.

(** ** Value normalization *)

Lemma add_leading_space_spec value :
  add_leading_space value =
  Return (match value with
          | [] => []
          | c :: _ => if bool_decide (c = " "%char ∨ c = "-"%char) then value else " " ++ value
          end).
Proof.
  destruct value as [|c s]; [done|].
  unfold add_leading_space, or_else.
  change (len (c :: s) =? 0) with false.
  change (getitem (c :: s) 0) with (Return c).
  cbn [mbind outcome_bind].
  destruct (decide (c = " "%char)) as [->|Hspace]; [done|].
  rewrite (bool_decide_false (c = " "%char)) by done.
  destruct (decide (c = "-"%char)) as [->|Hminus]; [done|].
  rewrite (bool_decide_false (c = "-"%char)) by done.
  by rewrite bool_decide_false by tauto.
Qed.

Lemma add_leading_zero_spec value :
  add_leading_zero value =
  match value with
  | [] => Return []
  | [_] => Raise IndexError
  | c0 :: c1 :: s =>
      Return (if bool_decide (c1 = "1"%char ∨ c1 = "0"%char) then value
              else c0 :: "0"%char :: c1 :: s)
  end.
Proof.
  destruct value as [|c0 [|c1 s]]; [done..|].
  unfold add_leading_zero, or_else.
  change (len (c0 :: c1 :: s) =? 0) with false.
  change (getitem (c0 :: c1 :: s) 1) with (Return c1).
  cbn [mbind outcome_bind].
  rewrite slice_to_nonneg, slice_from_nonneg by lia.
  destruct (decide (c1 = "1"%char)) as [->|Hone]; [done|].
  rewrite (bool_decide_false (c1 = "1"%char)) by done.
  destruct (decide (c1 = "0"%char)) as [->|Hzero]; [done|].
  rewrite (bool_decide_false (c1 = "0"%char)) by done.
  by rewrite bool_decide_false by tauto.
Qed.

(** Normalization raises no [ParseError]. *)
Lemma normalize_values_not_ParseErr this_result e :
  normalize_values this_result ≠ raise e.
Proof.
  unfold normalize_values.
  set (r1 := match this_result !! "stationName" with Some _ => _ | None => _ end).
  clearbody r1.
  destruct (r1 !! "latitude") as [lat|]; cbn [mbind outcome_bind].
  - rewrite add_leading_space_spec. cbn [mbind outcome_bind].
    set (r2 := <["latitude":=_]> r1). clearbody r2.
    destruct (r2 !! "longitude") as [lon|]; cbn [mbind outcome_bind]; [|done].
    rewrite add_leading_space_spec. cbn [mbind outcome_bind].
    rewrite add_leading_zero_spec.
    by repeat case_match.
  - destruct (r1 !! "longitude") as [lon|]; cbn [mbind outcome_bind]; [|done].
    rewrite add_leading_space_spec. cbn [mbind outcome_bind].
    rewrite add_leading_zero_spec.
    by repeat case_match.
Qed.

(** ** The transaction type (claim C6) *)

Lemma has_transaction_type_spec kv_pairs :
  has_transaction_type kv_pairs = true ↔ transaction_type_count kv_pairs = 1%nat.
Proof.
  unfold has_transaction_type, transaction_type_count, len.
  rewrite length_fmap, Z.eqb_eq. lia.
Qed.

(** The claim C6 as it is written fails: with no ["T"] pair and the two
    station name codes, the error is [DuplicateStationName], since that check
    comes first. *)
Lemma C6_counterexample :
  let transaction :=
    {| agencyCode := "USGS "; siteNumber := "123456789012345";
       key_value_pairs := "900=A* 12=B*"; line_numbers := [2] |} in
  let kv_pairs := [("900", "A"); ("12", "B")] in
  parse_key_value_pairs (key_value_pairs transaction) = Return kv_pairs
  ∧ transaction_type_count kv_pairs = 0%nat
  ∧ validate_and_normalize transaction kv_pairs = raise (DuplicateStationName [2])
  ∧ validate_and_normalize transaction kv_pairs ≠ raise (MissingTransactionType [2]).
Proof.
  intros transaction kv_pairs.
  assert (validate_and_normalize transaction kv_pairs = raise (DuplicateStationName [2]))
    as Hval by (by vm_compute).
  split; [by vm_compute|]. split; [by vm_compute|]. split; [done|].
  by rewrite Hval.
Qed.

(** Claim C6, amended: for the key/value pairs of a transaction that passes
    the duplicate station name check, semantic validation fails with
    [MissingTransactionType] exactly when the number of pairs with key ["T"]
    is not 1 (none, or two or more); [has_transaction_type] holds exactly
    when that number is 1, and whenever it is not 1 the validation fails. *)
Theorem C6_missing_transaction_type transaction kv_pairs :
  (has_transaction_type kv_pairs = true ↔ transaction_type_count kv_pairs = 1%nat)
  ∧ (transaction_type_count kv_pairs ≠ 1%nat →
     ∃ e, validate_and_normalize transaction kv_pairs = raise e)
  ∧ (has_duplicate_station_name_keys kv_pairs = false →
     (validate_and_normalize transaction kv_pairs
      = raise (MissingTransactionType (line_numbers transaction))
      ↔ transaction_type_count kv_pairs ≠ 1%nat)).
Proof.
  pose proof (has_transaction_type_spec kv_pairs) as Hspec.
  split; [done|]. split.
  - intros Hne. unfold validate_and_normalize.
    destruct (has_duplicate_station_name_keys kv_pairs); [by eexists|].
    destruct (has_transaction_type kv_pairs); [|by eexists].
    exfalso. apply Hne. by apply Hspec.
  - intros Hdup. unfold validate_and_normalize. rewrite Hdup.
    destruct (has_transaction_type kv_pairs) eqn:Htype; cbn [negb].
    + split; [|intros Hne; exfalso; apply Hne; by apply Hspec].
      intros Hraise. exfalso. revert Hraise.
      case_bool_decide; [done|]. case_bool_decide; [done|].
      apply normalize_values_not_ParseErr.
    + split; [|done]. intros _ Hone. apply Hspec in Hone. congruence.
Qed.

Lemma C6_witness :
  let transaction :=
    {| agencyCode := "USGS "; siteNumber := "123456789012345";
       key_value_pairs := "R=0* T=A* T=M*"; line_numbers := [2] |} in
  let kv_pairs := [("R", "0"); ("T", "A"); ("T", "M")] in
  transaction_type_count kv_pairs = 2%nat
  ∧ has_duplicate_station_name_keys kv_pairs = false
  ∧ validate_and_normalize transaction kv_pairs = raise (MissingTransactionType [2]).
Proof.
  intros transaction kv_pairs.
  split; [by vm_compute|]. split; [by vm_compute|].
  apply (proj2 (proj2 (C6_missing_transaction_type transaction kv_pairs))).
  - by vm_compute.
  - vm_compute. lia.
Defined.

(** ** Line splitting *)

Lemma re_split_lines_lf rest :
  re_split_lines ("010"%char :: rest) = [] :: re_split_lines rest.
Proof. done. Qed.

Lemma re_split_lines_crlf rest :
  re_split_lines ("013"%char :: "010"%char :: rest) = [] :: re_split_lines rest.
Proof. done. Qed.

(** A character that starts no line terminator stays in its line. *)
Lemma re_split_lines_char c rest :
  c ≠ "010"%char →
  (c = "013"%char → head rest ≠ Some "010"%char) →
  re_split_lines (c :: rest) =
  match re_split_lines rest with
  | line :: lines => (c :: line) :: lines
  | [] => [[c]]
  end.
Proof.
  intros Hlf Hcr.
  destruct c as [[] [] [] [] [] [] [] []]; try done.
  destruct rest as [|c' rest']; [done|].
  destruct c' as [[] [] [] [] [] [] [] []]; try done.
  by destruct Hcr.
Qed.

Lemma re_split_lines_not_nil s : re_split_lines s ≠ [].
Proof.
  induction s as [|c s IH]; [done|].
  destruct (decide (c = "010"%char)) as [->|Hlf]; [done|].
  destruct (decide (c = "013"%char ∧ head s = Some "010"%char)) as [[-> Hhd]|Hcr].
  - destruct s as [|c' s']; [done|]. by injection Hhd as ->.
  - rewrite re_split_lines_char; [by destruct (re_split_lines s)|done|tauto].
Qed.

(** A header line and one line feed split into the header, without the
    carriage return that may end it, and one empty line. *)
Lemma re_split_lines_header header :
  "010"%char ∉ header →
  ∃ line, re_split_lines (header ++ nl) = [line; []].
Proof.
  induction header as [|c header IH]; intros Hlf.
  - by exists [].
  - apply not_elem_of_cons in Hlf as [Hc Hlf].
    destruct (IH Hlf) as [line Hline].
    destruct (decide (c = "013"%char ∧ head (header ++ nl) = Some "010"%char))
      as [[-> Hhd]|Hcr].
    + destruct header as [|c' header']; [by exists []|].
      injection Hhd as ->. by destruct Hlf; left.
    + exists (c :: line). cbn [app].
      rewrite re_split_lines_char, Hline; [done|done|tauto].
Qed.

(** Claim C8, what the code does: for a header line followed by one line
    terminator and nothing else, [get_lines] finds one line after the header,
    the empty one, so its test for [NoTransactions] passes; the empty line is
    dropped after the test, and [parse] returns the empty list. Without the
    terminator the same header gives [NoTransactions]. *)
Theorem C8_header_only_returns_empty header :
  "010"%char ∉ header →
  get_lines (header ++ nl) = Return []
  ∧ parse (header ++ nl) = Return [].
Proof.
  intros Hlf. destruct (re_split_lines_header header Hlf) as [line Hline].
  assert (get_lines (header ++ nl) = Return []) as Hget.
  { unfold get_lines. rewrite bool_decide_false by (by destruct header).
    rewrite Hline. done. }
  split; [done|]. unfold parse. rewrite Hget. done.
Qed.

Lemma C8_witness :
("010"%char ∉ "AGENCY SITE NUMBER      DATA")
  ∧ parse ("AGENCY SITE NUMBER      DATA" ++ nl) = Return []
  ∧ parse "AGENCY SITE NUMBER      DATA" = raise NoTransactions.
Proof.
  assert ("010"%char ∉ "AGENCY SITE NUMBER      DATA") as Hlf.
  { apply (bool_decide_unpack _). by vm_compute. }
  split; [done|]. split; [|by vm_compute].
  apply (C8_header_only_returns_empty "AGENCY SITE NUMBER      DATA" Hlf).
Defined.

(** ** Longitude normalization (claim C10) *)

(** The two steps on a longitude raise [IndexError] exactly on a value that
    is one space or one hyphen. *)
Lemma longitude_IndexError value :
  (add_leading_space value ≫= add_leading_zero) = Raise IndexError
  ↔ value = " " ∨ value = "-".
Proof.
  rewrite add_leading_space_spec. cbn [mbind outcome_bind].
  rewrite add_leading_zero_spec.
  destruct value as [|c [|c' s]].
  - split; [done|]. by intros [|].
  - case_bool_decide as Hc.
    + split; [intros _|done]. destruct Hc as [-> | ->]; auto.
    + split; [done|]. intros [[= ->]|[= ->]]; destruct Hc; auto.
  - split; [by case_bool_decide|]. by intros [|].
Qed.

(** Claim C10, what the code does: [add_leading_space] leaves a value of one
    character that is a space or a hyphen as it is, [add_leading_zero] then
    reads the character at index 1 of a string of length 1, and [parse]
    ends with [IndexError], which is no [ParseError]. For every other value
    the two steps return. *)
Theorem C10_longitude_index_error :
  parse ("header" ++ nl ++ "USGS 123456789012345 R=0* T=A* 10=-*" ++ nl) = Raise IndexError
  ∧ parse ("header" ++ nl ++ "USGS 123456789012345 R=0* T=A* 10= *" ++ nl) = Raise IndexError
  ∧ add_leading_space "-" = Return "-"
  ∧ add_leading_zero "-" = Raise IndexError
  ∧ ∀ value,
      (add_leading_space value ≫= add_leading_zero) = Raise IndexError
      ↔ value = " " ∨ value = "-".
Proof.
  split; [by vm_compute|]. split; [by vm_compute|].
  split; [by vm_compute|]. split; [by vm_compute|].
  apply longitude_IndexError.
Qed.

(** ** Line validation (claim C4) *)

Lemma validate_line_spec v index line :
  validate_line v (index, line) =
  Return {| too_long_lines := too_long_lines v ++ violating TooLong [(index, line)];
            too_short_lines := too_short_lines v ++ violating TooShort [(index, line)];
            bad_site_lines := bad_site_lines v ++ violating BadSite [(index, line)] |}.
Proof.
  assert (∀ c, violating c [(index, line)] =
               if decide (category_of line = Some c) then [index + 2] else []) as Hone.
  { intros c. unfold violating. rewrite filter_cons, filter_nil. cbn [fst snd].
    by destruct (decide (category_of line = Some c)). }
  rewrite !Hone. unfold validate_line, category_of.
  destruct (len line >? 80) eqn:Hlong.
  { rewrite decide_True, !decide_False by done. by rewrite !app_nil_r. }
  destruct (len line <? 21) eqn:Hshort.
  { rewrite decide_False, decide_True, decide_False by done. by rewrite !app_nil_r. }
  change 20 with (Z.of_nat 20). rewrite getitem_nonneg.
  destruct (line !! 20%nat) as [c|] eqn:Hc.
  - rewrite ?Hc. cbn [mbind outcome_bind].
    destruct (decide (c = " "%char)) as [->|Hne].
    + rewrite (bool_decide_false (_ ≠ _)) by (intros H; by apply H).
      rewrite (bool_decide_true (_ = _)) by done.
      rewrite !decide_False by done.
      rewrite !app_nil_r. by destruct v.
    + rewrite (bool_decide_true (_ ≠ _)) by done.
      rewrite (bool_decide_false (_ = _)) by congruence.
      rewrite !decide_False, decide_True by done.
      by rewrite !app_nil_r.
  - apply lookup_ge_None in Hc. apply Z.ltb_ge in Hshort. unfold len in Hshort. lia.
Qed.

Lemma violating_cons c entry entries :
  violating c (entry :: entries) = violating c [entry] ++ violating c entries.
Proof.
  unfold violating. rewrite !filter_cons, filter_nil.
  by destruct (decide (category_of entry.2 = Some c)).
Qed.

Lemma validate_loop_spec v entries :
  validate_loop v entries =
  Return {| too_long_lines := too_long_lines v ++ violating TooLong entries;
            too_short_lines := too_short_lines v ++ violating TooShort entries;
            bad_site_lines := bad_site_lines v ++ violating BadSite entries |}.
Proof.
  revert v. induction entries as [|[index line] entries IH]; intros v.
  - cbn. rewrite !app_nil_r. by destruct v.
  - cbn [validate_loop]. rewrite validate_line_spec. cbn [mbind outcome_bind].
    rewrite IH. cbn [too_long_lines too_short_lines bad_site_lines].
    rewrite (violating_cons TooLong (index, line) entries),
      (violating_cons TooShort (index, line) entries),
      (violating_cons BadSite (index, line) entries).
    by rewrite !app_assoc.
Qed.

Lemma append_clause (l : list Z) (message clause : str) :
  (if bool_decide (l ≠ []) then message ++ clause else message) =
  message ++ (if bool_decide (l = []) then [] else clause).
Proof.
  destruct l as [|n l].
  - rewrite bool_decide_false by (intros H; by apply H).
    rewrite bool_decide_true by done. by rewrite app_nil_r.
  - rewrite bool_decide_true by done. by rewrite bool_decide_false by done.
Qed.

(** [validate_lines] raises nothing and returns the message of the
    categories. *)
Lemma validate_lines_spec lines :
  validate_lines lines = Return (validation_message lines).
Proof.
  unfold validate_lines. rewrite validate_loop_spec. cbn [mbind outcome_bind].
  cbn [too_long_lines too_short_lines bad_site_lines].
  rewrite !append_clause.
  unfold validation_message, optional_clause, lines_in, clause_of.
  by rewrite !app_nil_l, <-app_assoc.
Qed.

Lemma elem_of_enumerate_from {A} (i : Z) (l : list A) n x :
  (n, x) ∈ enumerate_from i l ↔ ∃ k : nat, n = i + Z.of_nat k ∧ l !! k = Some x.
Proof.
  revert i. induction l as [|y l IH]; intros i; cbn [enumerate_from].
  - split; [by intros ?%elem_of_nil|by intros (k & _ & ?)].
  - rewrite elem_of_cons, IH. split.
    + intros [[= -> ->]|(k & -> & Hk)].
      * exists 0%nat. split; [lia|done].
      * exists (S k). split; [lia|done].
    + intros ([|k] & -> & Hk).
      * left. injection Hk as ->. f_equal. lia.
      * right. exists k. split; [lia|done].
Qed.

(** A line number is listed in a category exactly when the line at that
    number (index plus 2) is in the category. *)
Lemma elem_of_lines_in c lines n :
  n ∈ lines_in c lines ↔
  ∃ (k : nat) line, n = Z.of_nat k + 2 ∧ lines !! k = Some line ∧ category_of line = Some c.
Proof.
  unfold lines_in, violating, enumerate. rewrite list_elem_of_fmap. split.
  - intros ([m line] & -> & Hin). apply list_elem_of_filter in Hin as [Hcat Hin].
    apply elem_of_enumerate_from in Hin as (k & -> & Hk).
    exists k, line. split; [cbn; lia|done].
  - intros (k & line & -> & Hk & Hcat). exists (Z.of_nat k, line). split; [done|].
    apply list_elem_of_filter. split; [done|].
    apply elem_of_enumerate_from. exists k. split; [lia|done].
Qed.

Lemma clause_of_not_nil c l : clause_of c l ≠ [].
Proof. by destruct c. Qed.

Lemma optional_clause_nil c lines :
  optional_clause c lines = [] ↔ lines_in c lines = [].
Proof.
  unfold optional_clause. case_bool_decide as He; [done|].
  split; [by intros ?%clause_of_not_nil|done].
Qed.

Lemma validation_message_nil lines :
  validation_message lines = [] ↔ ∀ line, line ∈ lines → category_of line = None.
Proof.
  unfold validation_message. split.
  - intros Hmsg line Hin.
    apply app_eq_nil in Hmsg as [H1 [H2 H3]%app_eq_nil].
    apply optional_clause_nil in H1, H2, H3.
    apply list_elem_of_lookup in Hin as [k Hk].
    destruct (category_of line) as [c|] eqn:Hcat; [exfalso|done].
    assert (Z.of_nat k + 2 ∈ lines_in c lines) as Hin
      by (apply elem_of_lines_in; eauto).
    destruct c; [rewrite H1 in Hin|rewrite H2 in Hin|rewrite H3 in Hin];
      by apply elem_of_nil in Hin.
  - intros Hall.
    assert (∀ c, optional_clause c lines = []) as Hnil.
    { intros c. apply optional_clause_nil, elem_of_nil_inv. intros n Hn.
      apply elem_of_lines_in in Hn as (k & line & _ & Hk & Hcat).
      rewrite Hall in Hcat; [done|]. by eapply list_elem_of_lookup_2. }
    by rewrite !Hnil.
Qed.

(** What [get_lines] does with the lines of the file. *)
Lemma get_lines_spec content :
  content ≠ [] →
  drop 1 (re_split_lines content) ≠ [] →
  get_lines content =
  if bool_decide (validation_message (data_lines content) = [])
  then Return (data_lines content)
  else raise (ValidationError (validation_message (data_lines content))).
Proof.
  intros Hcontent Hlines. unfold get_lines, data_lines.
  rewrite bool_decide_false by done.
  rewrite slice_from_nonneg by lia. change (Z.to_nat 1) with 1%nat.
  set (lines := drop 1 (re_split_lines content)) in *.
  rewrite bool_decide_false by done.
  assert (len lines - 1 = Z.of_nat (length lines - 1)) as ->.
  { unfold len. destruct lines; [done|]. cbn [length]. lia. }
  rewrite getitem_nonneg, Nat.sub_1_r, <-last_lookup.
  destruct (last lines) as [last_line|] eqn:Hlast;
    [|by apply last_None in Hlast].
  cbn [mbind outcome_bind].
  rewrite slice_nonneg by lia. rewrite drop_0, Nat2Z.id. change (Z.to_nat 0) with 0%nat.
  rewrite Nat.sub_0_r.
  assert (bool_decide (Some last_line = Some []) = bool_decide (last_line = [])) as ->.
  { apply bool_decide_ext. split; [by intros [= ->]|by intros ->]. }
  set (lines' := if bool_decide (last_line = []) then _ else _).
  rewrite validate_lines_spec. cbn [mbind outcome_bind].
  destruct (validation_message lines') as [|c msg]; [done|].
  rewrite bool_decide_false by done. done.
Qed.

(** Claim C4: every line is in at most one category, by the precedence too
    long (more than 80 characters), else too short (fewer than 21), else bad
    site format (the character at offset 20 is no space); all lines are
    looked at, and the message has one clause for each category that is not
    empty, in the order too long, too short, bad site format, each with the
    line numbers (index plus 2) of its lines; [get_lines] raises one
    [ValidationError] with this message when a line is in a category. A line
    of 19 characters and one of 85 are both reported, in one error. *)
Theorem C4_line_validation :
  (∀ lines,
     validate_lines lines = Return (validation_message lines)
     ∧ (∀ (k : nat) line c,
          lines !! k = Some line →
          (Z.of_nat k + 2 ∈ lines_in c lines ↔ category_of line = Some c))
     ∧ (∀ n c1 c2, n ∈ lines_in c1 lines → n ∈ lines_in c2 lines → c1 = c2)
     ∧ (validation_message lines = [] ↔ ∀ line, line ∈ lines → category_of line = None))
  ∧ (∀ content,
       content ≠ [] →
       drop 1 (re_split_lines content) ≠ [] →
       get_lines content =
       if bool_decide (validation_message (data_lines content) = [])
       then Return (data_lines content)
       else raise (ValidationError (validation_message (data_lines content))))
  ∧ get_lines ("header" ++ nl ++ "USGS 12345678901234" ++ nl
               ++ "USGS 123456789012345 R=0* T=A* 12='A STATION NAME THAT IS MUCH TOO LONG FOR A LINE.'*"
               ++ nl)
    = raise (ValidationError
        ("Contains lines exceeding 80 characters: lines 3. "
         ++ "Contains lines with an invalid agency code / site number format (fewer than 21 characters): lines 2. ")).
Proof.
  split; [|split; [apply get_lines_spec|by vm_compute]].
  intros lines. split; [apply validate_lines_spec|]. split; [|split].
  - intros k line c Hk. rewrite elem_of_lines_in. split.
    + intros (k' & line' & Heq & Hk' & Hcat).
      assert (k' = k) as -> by lia. congruence.
    + intros Hcat. by exists k, line.
  - intros n c1 c2 (k1 & l1 & -> & Hk1 & Hc1)%elem_of_lines_in
                   (k2 & l2 & Heq & Hk2 & Hc2)%elem_of_lines_in.
    assert (k2 = k1) as -> by lia. congruence.
  - apply validation_message_nil.
Qed.

Lemma C4_witness :
  let content :=
    "header" ++ nl ++ "USGS 12345678901234" ++ nl
    ++ "USGS 123456789012345 R=0* T=A* 12='A STATION NAME THAT IS MUCH TOO LONG FOR A LINE.'*"
    ++ nl in
  len "USGS 12345678901234" = 19
  ∧ len "USGS 123456789012345 R=0* T=A* 12='A STATION NAME THAT IS MUCH TOO LONG FOR A LINE.'*" = 85
  ∧ lines_in TooShort (data_lines content) = [2]
  ∧ lines_in TooLong (data_lines content) = [3]
  ∧ get_lines content =
    if bool_decide (validation_message (data_lines content) = [])
    then Return (data_lines content)
    else raise (ValidationError (validation_message (data_lines content))).
Proof.
  intros content.
  split; [by vm_compute|]. split; [by vm_compute|].
  split; [by vm_compute|]. split; [by vm_compute|].
  apply (proj1 (proj2 C4_line_validation) content); by vm_compute.
Defined.

(** ** Transaction grouping (claim C2) *)

Section segments.
Context {A : Type} (brk : A → A → bool).
Implicit Types (x y : A) (l seg : list A) (segs : list (list A)).

Lemma segments_cons_cons x y l :
  segments brk (x :: y :: l) =
  match segments brk (y :: l) with
  | seg :: segs => if brk x y then [x] :: seg :: segs else (x :: seg) :: segs
  | [] => [[x]]
  end.
Proof. done. Qed.

Lemma segments_head y l :
  ∃ seg segs, segments brk (y :: l) = (y :: seg) :: segs.
Proof.
  revert y. induction l as [|z l IH]; intros y; [by exists [], []|].
  rewrite segments_cons_cons. destruct (IH z) as (seg & segs & ->).
  destruct (brk y z); eauto.
Qed.

Lemma concat_segments l : mjoin (segments brk l) = l.
Proof.
  induction l as [|x [|y l] IH]; [done..|].
  rewrite segments_cons_cons. destruct (segments brk (y :: l)) as [|seg segs].
  - by destruct (segments_head y l) as (? & ? & ?).
  - destruct (brk x y); cbn [mjoin list_join app]; f_equal; exact IH.
Qed.

Lemma segments_not_nil l seg : seg ∈ segments brk l → seg ≠ [].
Proof.
  revert seg. induction l as [|x [|y l] IH]; intros seg.
  - by intros ?%elem_of_nil.
  - by intros ->%list_elem_of_singleton.
  - rewrite segments_cons_cons. destruct (segments brk (y :: l)) as [|seg' segs].
    + by intros ->%list_elem_of_singleton.
    + destruct (brk x y).
      * intros [->|Hin]%elem_of_cons; [done|by apply IH].
      * intros [->|Hin]%elem_of_cons; [done|]. apply IH. by right.
Qed.

(** A block with no break inside, put before a list, is a segment of its
    own when a break follows it, and joins the first segment otherwise. *)
Lemma segments_app_unbroken cur y z l :
  segments brk cur = [cur] →
  last cur = Some y →
  segments brk (cur ++ z :: l) =
  if brk y z then cur :: segments brk (z :: l)
  else match segments brk (z :: l) with
       | seg :: segs => (cur ++ seg) :: segs
       | [] => []
       end.
Proof.
  induction cur as [|x [|x' cur] IH]; intros Hcur Hlast; [done| |].
  - injection Hlast as ->. cbn [app]. rewrite segments_cons_cons.
    by destruct (segments_head z l) as (seg & segs & ->).
  - rewrite last_cons_cons in Hlast.
    rewrite segments_cons_cons in Hcur.
    destruct (segments_head x' cur) as (seg0 & segs0 & Hseg0).
    rewrite Hseg0 in Hcur. destruct (brk x x') eqn:Hbrk; [done|].
    injection Hcur as -> ->.
    change ((x :: x' :: cur) ++ z :: l) with (x :: x' :: (cur ++ z :: l)).
    rewrite segments_cons_cons.
    change (x' :: (cur ++ z :: l)) with ((x' :: cur) ++ z :: l).
    rewrite (IH Hseg0 Hlast), Hbrk.
    destruct (brk y z); [done|].
    by destruct (segments_head z l) as (seg & segs & ->).
Qed.
End segments.

Section groupby.
Context `{EqDecision K} {A : Type} (key : A → K).
Implicit Types (x y : A) (l g : list A).

Lemma groupby_cons x l :
  groupby key (x :: l) =
  match groupby key l with
  | (k, g) :: groups =>
      if decide (key x = k) then (key x, x :: g) :: groups
      else (key x, [x]) :: (k, g) :: groups
  | [] => [(key x, [x])]
  end.
Proof. done. Qed.

Lemma groupby_head y l :
  ∃ g groups, groupby key (y :: l) = (key y, y :: g) :: groups.
Proof.
  revert y. induction l as [|z l IH]; intros y; [by exists [], []|].
  rewrite groupby_cons. destruct (IH z) as (g & groups & ->).
  destruct (decide (key y = key z)); eauto.
Qed.

(** A group is not empty and its elements have the key of the group. *)
Lemma groupby_group l k g :
  (k, g) ∈ groupby key l → g ≠ [] ∧ ∀ x, x ∈ g → key x = k.
Proof.
  revert k g. induction l as [|x [|y l] IH]; intros k g.
  - by intros ?%elem_of_nil.
  - intros [= -> ->]%list_elem_of_singleton. split; [done|].
    by intros ? ->%list_elem_of_singleton.
  - rewrite groupby_cons. destruct (groupby_head y l) as (g' & groups & Hg).
    rewrite Hg in IH |- *.
    destruct (decide (key x = key y)) as [Hxy|Hxy].
    + intros [[= -> ->]|Hin]%elem_of_cons.
      * split; [done|]. intros z [->|Hz]%elem_of_cons; [done|].
        rewrite Hxy. apply (IH (key y) (y :: g')); [by left|done].
      * apply IH. by right.
    + intros [[= -> ->]|Hin]%elem_of_cons; [|by apply IH].
      split; [done|]. by intros ? ->%list_elem_of_singleton.
Qed.

(** The segments for "the key changes or the element is marked" are the
    segments for "the element is marked" of the groups, in order. *)
Lemma segments_groupby (mark : A → bool) l :
  segments (λ x y, bool_decide (key x ≠ key y) || mark y) l =
  mjoin ((λ kg, segments (λ _ y, mark y) kg.2) <$> groupby key l).
Proof.
  induction l as [|x [|y l] IH]; [done..|].
  rewrite segments_cons_cons, groupby_cons.
  destruct (groupby_head y l) as (g & groups & Hg). rewrite Hg in IH |- *.
  rewrite IH. cbn [fmap list_fmap mjoin list_join snd].
  destruct (segments_head (λ _ y, mark y) y g) as (seg & segs & Hseg).
  destruct (decide (key x = key y)) as [Hxy|Hxy].
  - rewrite bool_decide_false by (intros H; by apply H).
    cbn [fmap list_fmap mjoin list_join snd orb]. rewrite segments_cons_cons, Hseg.
    cbn [app]. by destruct (mark y).
  - rewrite bool_decide_true by done.
    cbn [fmap list_fmap mjoin list_join snd orb]. by rewrite Hseg.
Qed.
End groupby.

(** One iteration of the inner loop, with a buffer that is not empty. *)
Lemma group_line_step location result cur z :
  cur ≠ [] →
  group_line location (result, numbers cur, payloads cur) z =
  if marked z.1.2
  then (result ++ [make_transaction location (payloads cur) (numbers cur)],
        numbers [z], payloads [z])
  else (result, numbers (cur ++ [z]), payloads (cur ++ [z])).
Proof.
  intros Hcur. unfold group_line. fold (marked z.1.2).
  assert (payloads cur ≠ []) as Hne by (by destruct cur).
  rewrite (bool_decide_true _ Hne), andb_true_r.
  unfold numbers, payloads. rewrite !fmap_app. by destruct (marked z.1.2).
Qed.

(** The inner loop: with a buffer that holds a block without a marked line
    after its first, the loop and the final emission give the segments of
    the buffer followed by the rest of the group. *)
Lemma group_line_foldl location result cur y g :
  segments (λ _ y, marked y.1.2) cur = [cur] →
  last cur = Some y →
  (let '(result', line_numbers, key_value_pairs) :=
     foldl (group_line location) (result, numbers cur, payloads cur) g in
   result' ++ [make_transaction location key_value_pairs line_numbers]) =
  result ++ ((λ seg, make_transaction location (payloads seg) (numbers seg))
             <$> segments (λ _ y, marked y.1.2) (cur ++ g)).
Proof.
  revert result cur y. induction g as [|z g IH]; intros result cur y Hcur Hlast.
  - cbn [foldl]. by rewrite app_nil_r, Hcur.
  - cbn [foldl]. rewrite group_line_step by (by destruct cur).
    rewrite (segments_app_unbroken _ cur y z g Hcur Hlast).
    destruct (marked z.1.2) eqn:Hz.
    + rewrite (IH _ [z] z); [|done..].
      cbn [fmap list_fmap app]. by rewrite <-app_assoc.
    + rewrite (IH _ (cur ++ [z]) z).
      * rewrite <-app_assoc. cbn [app].
        by rewrite (segments_app_unbroken _ cur y z g Hcur Hlast), Hz.
      * by rewrite (segments_app_unbroken _ cur y z [] Hcur Hlast), Hz.
      * apply last_snoc.
Qed.

(** One iteration of the outer loop, on a group that is not empty. *)
Lemma group_location_spec result location g :
  g ≠ [] →
  group_location result (location, g) =
  result ++ ((λ seg, make_transaction location (payloads seg) (numbers seg))
             <$> segments (λ _ y, marked y.1.2) g).
Proof.
  destruct g as [|x g]; [done|]. intros _. unfold group_location. cbn [foldl].
  assert (group_line location (result, [], []) x = (result, numbers [x], payloads [x]))
    as ->.
  { unfold group_line. rewrite (bool_decide_false ([] ≠ [])) by (intros H; by apply H).
    by rewrite andb_false_r. }
  apply (group_line_foldl location result [x] x g); done.
Qed.

Lemma transaction_of_segment location seg :
  seg ≠ [] → (∀ x, x ∈ seg → x.1.1 = location) →
  make_transaction location (payloads seg) (numbers seg) = transaction_of seg.
Proof.
  intros Hne Hkey. unfold transaction_of. destruct seg as [|x seg]; [done|].
  cbn [head from_option]. rewrite (Hkey x); [done|by left].
Qed.

Lemma elem_of_segment {A} (brk : A → A → bool) l seg x :
  seg ∈ segments brk l → x ∈ seg → x ∈ l.
Proof.
  intros Hseg Hx. rewrite <-(concat_segments brk l).
  apply list_elem_of_join. eauto.
Qed.

Lemma group_location_foldl result (groups : list (str * list parsed_line)) :
  (∀ k g, (k, g) ∈ groups → g ≠ [] ∧ ∀ x, x ∈ g → x.1.1 = k) →
  foldl group_location result groups =
  result ++ (transaction_of
             <$> mjoin ((λ kg, segments (λ _ y, marked y.1.2) kg.2) <$> groups)).
Proof.
  revert result. induction groups as [|[location g] groups IH]; intros result Hgroups.
  - cbn. by rewrite app_nil_r.
  - destruct (Hgroups location g) as [Hne Hkey]; [by left|].
    cbn [foldl fmap list_fmap mjoin list_join snd]. rewrite group_location_spec by done.
    rewrite IH by (intros ???; apply Hgroups; by right).
    rewrite <-app_assoc, fmap_app. f_equal. f_equal.
    apply Forall_fmap_ext, Forall_forall.
    intros seg Hseg. apply transaction_of_segment.
    + by eapply segments_not_nil.
    + intros x Hx. apply Hkey. by eapply elem_of_segment.
Qed.

(** The transactions are the segments of the parsed lines: the maximal
    blocks of consecutive lines in which no line after the first changes the
    site key or starts with ["R="]. *)
Lemma get_transactions_segments lines :
  get_transactions lines =
  transaction_of <$> segments line_break (parse_line <$> enumerate lines).
Proof.
  unfold get_transactions.
  rewrite group_location_foldl by (intros ??; apply groupby_group).
  cbn [app]. f_equal. symmetry.
  apply (segments_groupby (λ x : parsed_line, x.1.1) (λ y, marked y.1.2)).
Qed.

Section segments_properties.
Context {A B : Type} (brk : A → A → bool) (f : A → B).
Implicit Types (x y : A) (l seg : list A).

(** When no break means equal images under [f], a segment has one image. *)
Lemma segments_uniform l seg :
  (∀ x y, brk x y = false → f x = f y) →
  seg ∈ segments brk l →
  ∃ h rest, seg = h :: rest ∧ ∀ x, x ∈ seg → f x = f h.
Proof.
  intros Hbrk. revert seg. induction l as [|a [|b l] IH]; intros seg.
  - by intros ?%elem_of_nil.
  - intros ->%list_elem_of_singleton. exists a, []. split; [done|].
    by intros ? ->%list_elem_of_singleton.
  - rewrite segments_cons_cons.
    destruct (segments_head brk b l) as (seg0 & segs & Hs). rewrite Hs in IH |- *.
    destruct (brk a b) eqn:Hab.
    + intros [->|Hin]%elem_of_cons; [|by apply IH].
      exists a, []. split; [done|]. by intros ? ->%list_elem_of_singleton.
    + intros [->|Hin]%elem_of_cons; [|apply IH; by right].
      exists a, (b :: seg0). split; [done|].
      intros x [->|Hx]%elem_of_cons; [done|].
      destruct (IH (b :: seg0)) as (h & rest & [= <- <-] & Hall); [by left|].
      rewrite (Hbrk a b Hab). by apply Hall.
Qed.

(** Two neighbours of a list without repeated images are in one segment
    exactly when there is no break between them. *)
Lemma segments_together l k x y :
  NoDup (f <$> l) →
  l !! k = Some x → l !! S k = Some y →
  (∃ seg, seg ∈ segments brk l ∧ f x ∈ f <$> seg ∧ f y ∈ f <$> seg)
  ↔ brk x y = false.
Proof.
  revert k. induction l as [|a [|b l] IH]; intros k Hdup Hx Hy; [done..|].
  rewrite segments_cons_cons.
  destruct (segments_head brk b l) as (seg0 & segs & Hs). rewrite Hs in IH |- *.
  rewrite fmap_cons in Hdup. apply NoDup_cons in Hdup as [Ha Hdup].
  assert (∀ seg z, seg ∈ (b :: seg0) :: segs → f z ∈ f <$> seg → f z ≠ f a) as Hold.
  { intros seg z Hseg (z' & Hz' & Hin)%list_elem_of_fmap Heq. apply Ha.
    rewrite <-Heq, Hz'. apply list_elem_of_fmap_2.
    rewrite <-Hs in Hseg. by eapply elem_of_segment. }
  destruct k as [|k].
  - injection Hx as ->. injection Hy as ->.
    assert (f y ≠ f x) as Hne.
    { intros Heq. apply Ha. rewrite <-Heq. apply list_elem_of_fmap_2. by left. }
    destruct (brk x y) eqn:Hxy.
    + split; [|done]. intros (seg & [->|Hin]%elem_of_cons & Hfx & Hfy).
      * by apply list_elem_of_singleton in Hfy.
      * by destruct (Hold seg x Hin Hfx).
    + split; [done|]. intros _. exists (x :: y :: seg0).
      split; [by left|]. rewrite !fmap_cons. split; [by left|by right; left].
  - change ((b :: l) !! k = Some x) in Hx. change ((b :: l) !! S k = Some y) in Hy.
    rewrite <-(IH k Hdup Hx Hy).
    assert (f x ≠ f a ∧ f y ≠ f a) as [Hxa Hya].
    { split; intros Heq; apply Ha; rewrite <-Heq; apply list_elem_of_fmap_2;
        by eapply list_elem_of_lookup_2. }
    destruct (brk a b).
    + split.
      * intros (seg & [->|Hin]%elem_of_cons & Hfx & Hfy); [|by eauto].
        by apply list_elem_of_singleton in Hfx.
      * intros (seg & Hin & ?). exists seg. split; [by right|done].
    + split.
      * intros (seg & [->|Hin]%elem_of_cons & Hfx & Hfy).
        -- exists (b :: seg0). split; [by left|].
           rewrite fmap_cons in Hfx, Hfy.
           apply elem_of_cons in Hfx as [?|Hfx]; [done|].
           apply elem_of_cons in Hfy as [?|Hfy]; done.
        -- exists seg. split; [by right|done].
      * intros (seg & [->|Hin]%elem_of_cons & Hfx & Hfy).
        -- exists (a :: b :: seg0). split; [by left|].
           rewrite (fmap_cons f a). split; by right.
        -- exists seg. split; [by right|done].
Qed.
End segments_properties.

(** A segment is a block of consecutive elements of the list. *)
Lemma segments_block {A} (brk : A → A → bool) l seg :
  seg ∈ segments brk l → ∃ l1 l2, l = l1 ++ seg ++ l2.
Proof.
  intros (segs1 & segs2 & Hsegs)%list_elem_of_split.
  exists (mjoin segs1), (mjoin segs2).
  by rewrite <-(concat_segments brk l), Hsegs, join_app.
Qed.

Lemma fmap_join {A B} (f : A → B) (ls : list (list A)) :
  f <$> mjoin ls = mjoin ((fmap f) <$> ls).
Proof.
  induction ls as [|l ls IH]; [done|].
  cbn [mjoin list_join fmap list_fmap]. rewrite fmap_app. f_equal. exact IH.
Qed.

(** In lists whose concatenation has no repetition, an element is in one
    list only. *)
Lemma NoDup_join_lookup {A} (ls : list (list A)) i j l1 l2 x :
  NoDup (mjoin ls) →
  ls !! i = Some l1 → ls !! j = Some l2 → x ∈ l1 → x ∈ l2 → i = j.
Proof.
  revert i j. induction ls as [|l ls IH]; intros i j Hdup Hi Hj H1 H2; [done|].
  cbn [mjoin list_join] in Hdup. apply NoDup_app in Hdup as (_ & Hsep & Hdup).
  destruct i as [|i], j as [|j]; [done| | |].
  - injection Hi as ->. destruct (Hsep x H1).
    apply list_elem_of_join. exists l2. split; [done|]. by eapply list_elem_of_lookup_2.
  - injection Hj as ->. destruct (Hsep x H2).
    apply list_elem_of_join. exists l1. split; [done|]. by eapply list_elem_of_lookup_2.
  - f_equal. by apply (IH i j).
Qed.

Lemma lookup_enumerate_from {A} (i : Z) (l : list A) (k : nat) :
  enumerate_from i l !! k = (λ x, (i + Z.of_nat k, x)) <$> l !! k.
Proof.
  revert i k. induction l as [|x l IH]; intros i k; [done|].
  destruct k as [|k]; cbn [enumerate_from].
  - cbn. do 2 f_equal. lia.
  - change ((?a :: ?l') !! S k) with (l' !! k). rewrite IH.
    destruct (l !! k); [|done]. cbn. do 2 f_equal. lia.
Qed.

Lemma parsed_lines_lookup lines k line :
  lines !! k = Some line →
  (parse_line <$> enumerate lines) !! k = Some (site_key line, payload line, line_number k).
Proof.
  intros Hk. unfold enumerate. by rewrite list_lookup_fmap, lookup_enumerate_from, Hk.
Qed.

Lemma numbers_enumerate_from i lines :
  numbers (parse_line <$> enumerate_from i lines) =
  (λ k, i + Z.of_nat k + 2) <$> seq 0 (length lines).
Proof.
  revert i. induction lines as [|line lines IH]; intros i; [done|].
  cbn [enumerate_from length seq]. unfold numbers in *. rewrite !fmap_cons.
  f_equal; [cbn; lia|]. rewrite IH, <-fmap_S_seq, <-list_fmap_compose.
  apply list_fmap_ext. intros _ k _. cbn. lia.
Qed.

Lemma numbers_parsed_lines lines :
  numbers (parse_line <$> enumerate lines) = line_number <$> seq 0 (length lines).
Proof. apply numbers_enumerate_from. Qed.

Global Instance line_number_inj : Inj (=) (=) line_number.
Proof. intros k1 k2. unfold line_number. lia. Qed.

(** The agency code and the site number of a transaction, put together, are
    the site key of its lines. *)
Lemma site_key_split line :
  slice (site_key line) 0 5 ++ slice (site_key line) 5 20 = site_key line.
Proof.
  unfold site_key. rewrite !slice_nonneg by lia.
  change (Z.to_nat 20 - Z.to_nat 0)%nat with 20%nat.
  change (Z.to_nat 5 - Z.to_nat 0)%nat with 5%nat.
  change (Z.to_nat 20 - Z.to_nat 5)%nat with 15%nat.
  change (Z.to_nat 0) with 0%nat. change (Z.to_nat 5) with 5%nat.
  rewrite !drop_0.
  rewrite (take_ge (drop 5 _)) by (rewrite length_drop, length_take; lia).
  apply take_drop.
Qed.

(** The lines a segment of the parsed lines covers. *)
Lemma segment_numbers lines seg :
  seg ∈ segments line_break (parse_line <$> enumerate lines) →
  ∃ a : nat, numbers seg = line_number <$> seq a (length seg)
             ∧ (a + length seg ≤ length lines)%nat.
Proof.
  intros (l1 & l2 & Hl)%segments_block.
  pose proof (numbers_parsed_lines lines) as Hnum.
  rewrite Hl in Hnum. unfold numbers in *. rewrite !fmap_app in Hnum.
  assert (length l1 + length seg + length l2 = length lines)%nat as Hlen.
  { apply (f_equal length) in Hnum.
    rewrite !length_app, !length_fmap, length_seq in Hnum. lia. }
  exists (length l1). split; [|lia].
  apply (f_equal (take (length seg) ∘ drop (length l1))) in Hnum. cbn in Hnum.
  rewrite drop_app_length' in Hnum by (by rewrite length_fmap).
  rewrite take_app_length' in Hnum by (by rewrite length_fmap).
  rewrite Hnum, <-fmap_drop, <-fmap_take, drop_seq, take_seq.
  do 2 f_equal; lia.
Qed.

Lemma elem_of_segment_numbers lines seg k :
  seg ∈ segments line_break (parse_line <$> enumerate lines) →
  line_number k ∈ numbers seg →
  ∃ line, lines !! k = Some line ∧ (site_key line, payload line, line_number k) ∈ seg.
Proof.
  intros Hseg (x & Hx & Hin)%list_elem_of_fmap.
  pose proof (elem_of_segment _ _ _ _ Hseg Hin) as Hl.
  apply list_elem_of_lookup in Hl as [k' Hk'].
  unfold enumerate in Hk'. rewrite list_lookup_fmap, lookup_enumerate_from in Hk'.
  destruct (lines !! k') as [line|] eqn:Hline; [|done].
  injection Hk' as <-. cbn in Hx. assert (k' = k) as -> by (unfold line_number in Hx; lia).
  exists line. split; [done|]. exact Hin.
Qed.

(** The site key of the lines of a transaction. *)
Lemma transaction_site_key lines t k line :
  t ∈ get_transactions lines →
  line_number k ∈ line_numbers t →
  lines !! k = Some line →
  site_key line = agencyCode t ++ siteNumber t.
Proof.
  rewrite get_transactions_segments.
  intros (seg & -> & Hseg)%list_elem_of_fmap Hin Hline.
  destruct (elem_of_segment_numbers lines seg k Hseg Hin) as (line' & Hline' & Hx).
  assert (line' = line) as -> by congruence.
  destruct (segments_uniform line_break (λ x : parsed_line, x.1.1)
              (parse_line <$> enumerate lines) seg) as (h & rest & -> & Hall); [|done|].
  { intros x y. unfold line_break. case_bool_decide as Hxy; [done|]. intros _.
    by destruct (decide (x.1.1 = y.1.1)). }
  cbn [transaction_of make_transaction agencyCode siteNumber head from_option].
  specialize (Hall _ Hx). cbn in Hall. rewrite <-Hall. symmetry. apply site_key_split.
Qed.

(** Two neighbouring lines are in one transaction exactly when they have the
    same site key and the second payload does not start with ["R="]. *)
Lemma transaction_together lines k prev line :
  lines !! k = Some prev → lines !! S k = Some line →
  together (get_transactions lines) (line_number k) (line_number (S k))
  ↔ site_key prev = site_key line ∧ marked (payload line) = false.
Proof.
  intros Hprev Hline. rewrite get_transactions_segments.
  pose proof (segments_together line_break (λ x : parsed_line, x.2)
                (parse_line <$> enumerate lines) k
                (site_key prev, payload prev, line_number k)
                (site_key line, payload line, line_number (S k))) as Htog.
  assert (line_break (site_key prev, payload prev, line_number k)
            (site_key line, payload line, line_number (S k)) = false
          ↔ site_key prev = site_key line ∧ marked (payload line) = false) as <-.
  { unfold line_break. cbn [fst snd]. rewrite orb_false_iff, bool_decide_eq_false.
    split; intros [H1 H2]; (split; [|done]).
    - by destruct (decide (site_key prev = site_key line)).
    - intros H. by apply H. }
  rewrite <-Htog.
  - unfold together. split.
    + intros (t & (seg & -> & Hseg)%list_elem_of_fmap & Hn & Hm). by exists seg.
    + intros (seg & Hseg & Hn & Hm). exists (transaction_of seg).
      split; [by apply list_elem_of_fmap_2|done].
  - fold (numbers (parse_line <$> enumerate lines)). rewrite numbers_parsed_lines.
    apply NoDup_fmap_2; [apply _|apply NoDup_seq].
  - by apply parsed_lines_lookup.
  - by apply parsed_lines_lookup.
Qed.

(** Claim C2: only consecutive lines with one site key are grouped, and two
    runs of a site key with a line of another site key between them are never
    merged; within a run a line whose payload starts with ["R="] starts a new
    transaction (the buffer holds a payload at every line of a run but the
    first); the line number (index plus 2) of every line is listed by exactly
    one transaction, and the line numbers of the transactions, one after the
    other, are the line numbers of the file in order. *)
Theorem C2_get_transactions lines :
  let transactions := get_transactions lines in
  mjoin (line_numbers <$> transactions) = line_number <$> seq 0 (length lines)
  ∧ (∀ k, (k < length lines)%nat →
       ∃ i t, transactions !! i = Some t ∧ line_number k ∈ line_numbers t
              ∧ ∀ j t', transactions !! j = Some t' → line_number k ∈ line_numbers t' → j = i)
  ∧ (∀ t, t ∈ transactions →
       ∃ a : nat, line_numbers t = line_number <$> seq a (length (line_numbers t))
                  ∧ line_numbers t ≠ [])
  ∧ (∀ t k line, t ∈ transactions → line_number k ∈ line_numbers t →
       lines !! k = Some line → site_key line = agencyCode t ++ siteNumber t)
  ∧ (∀ k prev line, lines !! k = Some prev → lines !! S k = Some line →
       (together transactions (line_number k) (line_number (S k))
        ↔ site_key prev = site_key line ∧ marked (payload line) = false))
  ∧ (∀ i j k line_i line_j, (i < j < k)%nat →
       lines !! i = Some line_i → lines !! j = Some line_j →
       site_key line_j ≠ site_key line_i →
       ¬ together transactions (line_number i) (line_number k)).
Proof.
  intros transactions.
  assert (mjoin (line_numbers <$> transactions) = line_number <$> seq 0 (length lines))
    as Hjoin.
  { unfold transactions. rewrite get_transactions_segments, <-list_fmap_compose.
    rewrite <-numbers_parsed_lines.
    rewrite <-(concat_segments line_break (parse_line <$> enumerate lines)) at 2.
    unfold numbers. by rewrite fmap_join. }
  assert (∀ t, t ∈ transactions →
            ∃ a : nat, line_numbers t = line_number <$> seq a (length (line_numbers t))
                       ∧ line_numbers t ≠ []) as Hblock.
  { intros t. unfold transactions. rewrite get_transactions_segments.
    intros (seg & -> & Hseg)%list_elem_of_fmap.
    destruct (segment_numbers lines seg Hseg) as (a & Hnum & _).
    exists a. cbn [transaction_of make_transaction line_numbers].
    split; [by rewrite Hnum, !length_fmap, length_seq|].
    apply segments_not_nil in Hseg. by destruct seg. }
  split; [done|]. split; [|split; [done|]; split; [|split]].
  - intros k Hk.
    assert (line_number k ∈ mjoin (line_numbers <$> transactions)) as Hin.
    { rewrite Hjoin. apply list_elem_of_fmap_2, elem_of_seq. lia. }
    apply list_elem_of_join in Hin as (ln & Hin & (t & -> & Ht)%list_elem_of_fmap).
    apply list_elem_of_lookup in Ht as [i Hi].
    exists i, t. split; [done|]. split; [done|]. intros j t' Hj Hin'.
    apply (NoDup_join_lookup (line_numbers <$> transactions) j i
             (line_numbers t') (line_numbers t) (line_number k)); [|by rewrite list_lookup_fmap, ?Hj, ?Hi..|done|done].
    rewrite Hjoin. apply NoDup_fmap_2; [apply _|apply NoDup_seq].
  - intros t k line. apply transaction_site_key.
  - intros k prev line. apply transaction_together.
  - intros i j k line_i line_j [Hij Hjk] Hi Hj Hkey (t & Ht & Hin_i & Hin_k).
    destruct (Hblock t Ht) as (a & Hnum & _).
    assert (line_number j ∈ line_numbers t) as Hin_j.
    { rewrite Hnum in Hin_i, Hin_k |- *.
      apply list_elem_of_fmap in Hin_i as (i' & ->%(inj line_number) & Hi'%elem_of_seq).
      apply list_elem_of_fmap in Hin_k as (k' & ->%(inj line_number) & Hk'%elem_of_seq).
      apply list_elem_of_fmap_2, elem_of_seq. lia. }
    apply Hkey.
    rewrite (transaction_site_key lines t j line_j Ht Hin_j Hj).
    by rewrite (transaction_site_key lines t i line_i Ht Hin_i Hi).
Qed.

Lemma C2_witness :
  let lines :=
    ["USGS 123456789012345 R=0* T=A*";
     "USGS 123456789012345 12='NAME'*";
     "USGS 123456789012345 R=1* T=M*";
     "USGS 999999999999999 R=0* T=A*";
     "USGS 123456789012345 R=0* T=M*"] in
  line_numbers <$> get_transactions lines = [[2; 3]; [4]; [5]; [6]]
  ∧ together (get_transactions lines) (line_number 0) (line_number 1)
  ∧ ¬ together (get_transactions lines) (line_number 1) (line_number 2)
  ∧ ¬ together (get_transactions lines) (line_number 0) (line_number 4).
Proof.
  intros lines.
  pose proof (C2_get_transactions lines) as (_ & _ & _ & _ & Htogether & Hmerge).
  split; [by vm_compute|]. split; [|split].
  - apply (Htogether 0%nat "USGS 123456789012345 R=0* T=A*"
             "USGS 123456789012345 12='NAME'*"); [done..|]. by vm_compute.
  - rewrite (Htogether 1%nat "USGS 123456789012345 12='NAME'*"
               "USGS 123456789012345 R=1* T=M*"); [|done..].
    vm_compute. by intros [_ ?].
  - apply (Hmerge 0%nat 3%nat 4%nat "USGS 123456789012345 R=0* T=A*"
             "USGS 999999999999999 R=0* T=A*"); [lia|done..|by vm_compute].
Defined.

(** ** The transaction ceiling (claim C5) *)

Lemma parse_transaction_not_too_many transaction :
  parse_transaction transaction ≠ raise TooManyTransactions.
Proof.
  unfold parse_transaction.
  destruct (parse_key_value_pairs (key_value_pairs transaction)) as [kv_pairs|[err|]];
    [|by cbn..].
  cbn [mbind outcome_bind]. unfold validate_and_normalize.
  repeat (case_match; [done|]). apply normalize_values_not_ParseErr.
Qed.

Lemma parse_transactions_not_too_many transactions results :
  parse_transactions transactions results ≠ raise TooManyTransactions.
Proof.
  revert results. induction transactions as [|t ts IH]; intros results; [done|].
  cbn [parse_transactions].
  pose proof (parse_transaction_not_too_many t) as Ht.
  destruct (parse_transaction t) as [this_result|e]; [apply IH|].
  cbn. intros [= ->]. by apply Ht.
Qed.

(** Claim C5: once the lines are validated, [parse] fails with
    [TooManyTransactions] exactly when the grouped transactions are more than
    30000; the count is compared before any transaction is tokenized, so
    30001 transactions fail in this way whatever their payloads are, and
    30000 transactions are not rejected by this check. *)
Theorem C5_too_many_transactions content lines :
  get_lines content = Return lines →
  (30000 < len (get_transactions lines) → parse content = raise TooManyTransactions)
  ∧ (len (get_transactions lines) ≤ 30000 → parse content ≠ raise TooManyTransactions).
Proof.
  intros Hlines. unfold parse. rewrite Hlines. cbn [mbind outcome_bind].
  unfold too_many_transactions, MAX_TRANSACTIONS. split; intros Hcount.
  - by rewrite (proj2 (Z.gtb_gt _ _)) by lia.
  - destruct (Z.gtb_spec (len (get_transactions lines)) 30000) as [?|_]; [lia|].
    pose proof (parse_transactions_not_too_many (get_transactions lines) []) as Hloop.
    destruct (parse_transactions (get_transactions lines) []) as [results|e]; [|done].
    cbn [mbind outcome_bind]. by case_bool_decide.
Qed.


(** *** A file with 30001 transactions *)

(** A line without line feed and carriage return is split off at its line
    feed. *)
Lemma re_split_lines_line line rest :
  "010"%char ∉ line → "013"%char ∉ line →
  re_split_lines (line ++ nl ++ rest) = line :: re_split_lines rest.
Proof.
  induction line as [|c line IH]; intros Hlf Hcr; [done|].
  apply not_elem_of_cons in Hlf as [Hc_lf Hlf].
  apply not_elem_of_cons in Hcr as [Hc_cr Hcr].
  cbn [app]. rewrite re_split_lines_char by done.
  by rewrite (IH Hlf Hcr).
Qed.

Lemma re_split_lines_replicate line n :
  "010"%char ∉ line → "013"%char ∉ line →
  re_split_lines (mjoin (replicate n (line ++ nl))) = replicate n line ++ [[]].
Proof.
  intros Hlf Hcr. induction n as [|n IH]; [done|].
  change (re_split_lines ((line ++ nl) ++ mjoin (replicate n (line ++ nl)))
          = (line :: replicate n line) ++ [[]]).
  rewrite <-app_assoc.
  by rewrite (re_split_lines_line line _ Hlf Hcr), IH.
Qed.

(** Where every element is a break, every element is a segment. *)
Lemma segments_all_breaks {A} (brk : A → A → bool) l :
  (∀ x y, y ∈ l → brk x y = true) → segments brk l = (λ x, [x]) <$> l.
Proof.
  induction l as [|x [|y l] IH]; intros Hbrk; [done..|].
  rewrite segments_cons_cons, IH by (intros ???; apply Hbrk; by right).
  cbn [fmap list_fmap]. rewrite Hbrk; [done|]. right; by left.
Qed.

Lemma length_enumerate_from {A} (i : Z) (l : list A) :
  length (enumerate_from i l) = length l.
Proof. revert i. induction l as [|x l IH]; intros i; cbn; by rewrite ?IH. Qed.

(** Lines that all start with ["R="] are one transaction each. *)
Lemma get_transactions_all_marked lines :
  (∀ line, line ∈ lines → marked (payload line) = true) →
  len (get_transactions lines) = len lines.
Proof.
  intros Hmarked. rewrite get_transactions_segments. unfold len.
  rewrite length_fmap, segments_all_breaks.
  - unfold enumerate. by rewrite !length_fmap, length_enumerate_from.
  - intros x y ([k line] & -> & Hin)%list_elem_of_fmap.
    apply elem_of_enumerate_from in Hin as (k' & _ & Hline).
    unfold line_break. cbn [parse_line fst snd]. fold (payload line).
    rewrite (Hmarked line), orb_true_r; [done|]. by eapply list_elem_of_lookup_2.
Qed.

Lemma get_lines_unterminated_file (n : nat) :
  get_lines (unterminated_file (Z.of_nat (S n)))
  = Return (replicate (S n) "USGS 123456789012345 R=0").
Proof.
  set (line := "USGS 123456789012345 R=0").
  assert ("010"%char ∉ line) as Hlf by compute_done.
  assert ("013"%char ∉ line) as Hcr by compute_done.
  assert (re_split_lines (unterminated_file (Z.of_nat (S n)))
          = "header" :: replicate (S n) line ++ [[]]) as Hsplit.
  { unfold unterminated_file. rewrite Nat2Z.id. fold line.
    rewrite (re_split_lines_line "header") by compute_done.
    by rewrite (re_split_lines_replicate line (S n) Hlf Hcr). }
  assert (data_lines (unterminated_file (Z.of_nat (S n))) = replicate (S n) line) as Hdata.
  { unfold data_lines. rewrite Hsplit. cbn [drop]. rewrite !drop_0.
    rewrite last_snoc, bool_decide_true by done.
    rewrite length_app, length_replicate. cbn [length].
    replace (S n + 1 - 1)%nat with (length (replicate (S n) line))
      by (rewrite length_replicate; lia).
    apply take_app_length. }
  rewrite get_lines_spec.
  - rewrite Hdata. rewrite bool_decide_true; [done|].
    apply validation_message_nil. intros line' [-> _]%elem_of_replicate. by vm_compute.
  - done.
  - rewrite Hsplit. cbn [drop]. rewrite drop_0. by destruct (replicate (S n) line).
Qed.

Lemma C5_witness :
  let lines := replicate (Z.to_nat 30001) "USGS 123456789012345 R=0" in
  get_lines (unterminated_file 30001) = Return lines
  ∧ len (get_transactions lines) = 30001
  ∧ parse_key_value_pairs "R=0" = raise (MissingEndingToken "R=0")
  ∧ parse (unterminated_file 30001) = raise TooManyTransactions.
Proof.
  intros lines.
  assert (get_lines (unterminated_file 30001) = Return lines) as Hlines.
  { pose proof (get_lines_unterminated_file (Z.to_nat 30000)) as Hget.
    replace (Z.of_nat (S (Z.to_nat 30000))) with 30001 in Hget by lia.
    replace (S (Z.to_nat 30000)) with (Z.to_nat 30001) in Hget by lia.
    exact Hget. }
  assert (len (get_transactions lines) = 30001) as Hcount.
  { rewrite get_transactions_all_marked.
    - unfold lines, len. rewrite length_replicate. lia.
    - intros line [-> _]%elem_of_replicate. by vm_compute. }
  split; [done|]. split; [done|]. split; [by vm_compute|].
  apply (proj1 (C5_too_many_transactions (unterminated_file 30001) lines Hlines)).
  rewrite Hcount. lia.
Defined.

(** ** Duplicate sites (claim C1) *)

Lemma count_cons `{EqDecision A} (x y : A) l :
  count x (y :: l) = (if decide (y = x) then 1 else 0) + count x l.
Proof.
  unfold count, len. rewrite filter_cons.
  destruct (decide (y = x)); cbn [length]; lia.
Qed.

Lemma count_nonneg `{EqDecision A} (x : A) l : 0 ≤ count x l.
Proof. unfold count, len. lia. Qed.

Lemma count_zero `{EqDecision A} (x : A) l : count x l = 0 ↔ x ∉ l.
Proof.
  induction l as [|y l IH]; [by split; [intros _ ?%elem_of_nil|]|].
  rewrite count_cons, not_elem_of_cons. pose proof (count_nonneg x l).
  destruct (decide (y = x)) as [->|Hne].
  - split; [lia|]. by intros [? _].
  - rewrite Z.add_0_l, IH. split; [|by intros [_ ?]].
    intros ?. split; [congruence|done].
Qed.

(** A list has no repetition exactly when nothing occurs in it more than
    once. *)
Lemma NoDup_count `{EqDecision A} (l : list A) :
  NoDup l ↔ ∀ x, count x l ≤ 1.
Proof.
  induction l as [|y l IH].
  - split; [by intros _ x|]. intros _. constructor.
  - rewrite NoDup_cons, IH. split.
    + intros [Hy Hl] x. rewrite count_cons. destruct (decide (y = x)) as [->|_].
      * apply count_zero in Hy. lia.
      * apply Hl.
    + intros Hall. split.
      * apply count_zero. specialize (Hall y). rewrite count_cons in Hall.
        rewrite decide_True in Hall by done. pose proof (count_nonneg y l). lia.
      * intros x. specialize (Hall x). rewrite count_cons in Hall.
        destruct (decide (y = x)); lia.
Qed.

Lemma elem_of_duplicates sites site :
  site ∈ duplicates sites ↔ count site sites > 1.
Proof.
  unfold duplicates. rewrite elem_of_list_to_set, list_elem_of_filter.
  split; [by intros [? _]|]. intros Hcount. split; [done|].
  destruct (decide (site ∈ sites)) as [|Hout]; [done|].
  apply count_zero in Hout. lia.
Qed.

Lemma duplicates_empty sites : duplicates sites = ∅ ↔ NoDup sites.
Proof.
  rewrite NoDup_count. split.
  - intros Hempty site. destruct (Z.le_gt_cases (count site sites) 1) as [|Hgt]; [done|].
    assert (site ∈ duplicates sites) as Hin by (apply elem_of_duplicates; lia).
    rewrite Hempty in Hin. by apply not_elem_of_empty in Hin.
  - intros Hall. apply set_eq. intros site. rewrite elem_of_duplicates.
    split; [|by intros ?%not_elem_of_empty]. specialize (Hall site). lia.
Qed.

(** The last step of [parse]. *)
Lemma parse_spec content lines results :
  get_lines content = Return lines →
  too_many_transactions (len (get_transactions lines)) = false →
  parse_transactions (get_transactions lines) [] = Return results →
  parse content =
  if bool_decide (duplicates (site_of <$> site_file results) ≠ ∅)
  then raise (DuplicateSite (duplicates (site_of <$> site_file results)))
  else Return (site_file results).
Proof.
  intros Hlines Hcount Hresults. unfold parse.
  rewrite Hlines. cbn [mbind outcome_bind]. rewrite Hcount, Hresults. done.
Qed.

Lemma parse_transaction_raise transaction e :
  parse_transaction transaction = raise e → transaction_error e.
Proof.
  unfold parse_transaction.
  destruct (parse_key_value_pairs (key_value_pairs transaction)) as [kv_pairs|[err|]];
    [|by intros [= <-]|done].
  cbn [mbind outcome_bind]. unfold validate_and_normalize.
  repeat (case_match; [by intros [= <-]|]).
  by intros ?%normalize_values_not_ParseErr.
Qed.

Lemma parse_transactions_raise transactions results e :
  parse_transactions transactions results = raise e → transaction_error e.
Proof.
  revert results. induction transactions as [|t ts IH]; intros results; [done|].
  cbn [parse_transactions].
  destruct (parse_transaction t) as [this_result|e'] eqn:Ht; [apply IH|].
  cbn. intros [= ->]. by apply (parse_transaction_raise t).
Qed.

Lemma get_lines_raise content e :
  get_lines content = raise e →
  e = EmptyInput ∨ e = NoTransactions ∨ ∃ message, e = ValidationError message.
Proof.
  destruct (decide (content = [])) as [->|Hcontent]; [intros [= <-]; by left|].
  destruct (decide (drop 1 (re_split_lines content) = [])) as [Hnil|Hlines].
  - unfold get_lines. rewrite bool_decide_false by done.
    rewrite slice_from_nonneg by lia. change (Z.to_nat 1) with 1%nat.
    rewrite Hnil. intros [= <-]. right; by left.
  - rewrite get_lines_spec by done. case_bool_decide; [done|].
    intros [= <-]. right; right. by eexists.
Qed.

(** Claim C1: when all transactions are parsed, [parse] fails with
    [DuplicateSite] exactly when some pair of agency code and site number
    occurs more than once among the records whose [databaseTableIdentifier]
    is ["0"]; the error names these pairs; records with another identifier
    are filtered out before the pairs are counted. [parse] raises
    [DuplicateSite] in no other way, and a list it returns holds no two
    records with the same pair. *)
Theorem C1_duplicate_site content :
  (∀ lines results,
     get_lines content = Return lines →
     too_many_transactions (len (get_transactions lines)) = false →
     parse_transactions (get_transactions lines) [] = Return results →
     let sites := site_of <$> site_file results in
     ((∃ site, count site sites > 1) →
      parse content = raise (DuplicateSite (duplicates sites))
      ∧ ∀ site, site ∈ duplicates sites ↔ count site sites > 1)
     ∧ ((∀ site, count site sites ≤ 1) → parse content = Return (site_file results)))
  ∧ (∀ duplicate_sites,
       parse content = raise (DuplicateSite duplicate_sites) →
       ∃ lines results,
         get_lines content = Return lines
         ∧ parse_transactions (get_transactions lines) [] = Return results
         ∧ duplicate_sites = duplicates (site_of <$> site_file results)
         ∧ ∃ site, count site (site_of <$> site_file results) > 1)
  ∧ (∀ site_results,
       parse content = Return site_results → NoDup (site_of <$> site_results)).
Proof.
  split; [|split].
  - intros lines results Hlines Hcount Hresults sites.
    rewrite (parse_spec content lines results Hlines Hcount Hresults). fold sites.
    split.
    + intros [site Hsite]. split; [|apply elem_of_duplicates].
      rewrite bool_decide_true; [done|].
      intros Hempty. apply elem_of_duplicates in Hsite.
      rewrite Hempty in Hsite. by apply not_elem_of_empty in Hsite.
    + intros Hall. rewrite bool_decide_false; [done|].
      intros Hne. apply Hne, duplicates_empty, NoDup_count, Hall.
  - intros duplicate_sites Hparse.
    destruct (get_lines content) as [lines|e] eqn:Hlines.
    2:{ unfold parse in Hparse. rewrite Hlines in Hparse. cbn in Hparse.
        injection Hparse as ->. apply get_lines_raise in Hlines.
        by destruct Hlines as [|[|[]]]. }
    destruct (too_many_transactions (len (get_transactions lines))) eqn:Hcount.
    { unfold parse in Hparse. rewrite Hlines in Hparse. cbn [mbind outcome_bind] in Hparse.
      by rewrite Hcount in Hparse. }
    destruct (parse_transactions (get_transactions lines) []) as [results|e] eqn:Hresults.
    2:{ unfold parse in Hparse. rewrite Hlines in Hparse. cbn [mbind outcome_bind] in Hparse.
        rewrite Hcount, Hresults in Hparse. cbn in Hparse. injection Hparse as ->.
        by apply parse_transactions_raise in Hresults. }
    rewrite (parse_spec content lines results Hlines Hcount Hresults) in Hparse.
    exists lines, results. split; [done|]. split; [done|].
    case_bool_decide as Hne; [|done]. injection Hparse as <-. split; [done|].
    destruct (set_choose_or_empty (duplicates (site_of <$> site_file results)))
      as [[site Hsite]|Hempty].
    + exists site. by apply elem_of_duplicates.
    + apply leibniz_equiv in Hempty. done.
  - intros site_results Hparse.
    destruct (get_lines content) as [lines|e] eqn:Hlines;
      [|unfold parse in Hparse; by rewrite Hlines in Hparse].
    destruct (too_many_transactions (len (get_transactions lines))) eqn:Hcount.
    { unfold parse in Hparse. rewrite Hlines in Hparse. cbn [mbind outcome_bind] in Hparse.
      by rewrite Hcount in Hparse. }
    destruct (parse_transactions (get_transactions lines) []) as [results|e] eqn:Hresults.
    2:{ unfold parse in Hparse. rewrite Hlines in Hparse. cbn [mbind outcome_bind] in Hparse.
        by rewrite Hcount, Hresults in Hparse. }
    rewrite (parse_spec content lines results Hlines Hcount Hresults) in Hparse.
    case_bool_decide as Hne; [done|]. injection Hparse as <-.
    apply duplicates_empty. destruct (decide (duplicates (site_of <$> site_file results) = ∅)); [done|].
    by destruct Hne.
Qed.

Lemma C1_witness :
  parse two_site_records
  = raise (DuplicateSite {[ (Some "USGS ", Some "123456789012345") ]})
  ∧ parse one_site_record = Return [site_record "0" "A"]
  ∧ NoDup (site_of <$> [site_record "0" "A"]).
Proof.
  set (line1 := "USGS 123456789012345 R=0* T=A*").
  split; [|split].
  - destruct (C1_duplicate_site two_site_records) as (Hraise & _ & _).
    specialize (Hraise [line1; "USGS 123456789012345 R=0* T=M*"]
                  [site_record "0" "A"; site_record "0" "M"]).
    destruct Hraise as [Hdup _]; [compute_done..|].
    destruct Hdup as [-> _]; [|compute_done].
    exists (Some "USGS ", Some "123456789012345"). compute_done.
  - destruct (C1_duplicate_site one_site_record) as (Hreturn & _ & _).
    specialize (Hreturn [line1; "USGS 123456789012345 R=1* T=M*"]
                  [site_record "0" "A"; site_record "1" "M"]).
    destruct Hreturn as [_ Hreturn]; [compute_done..|].
    rewrite Hreturn; [compute_done|].
    apply NoDup_count. compute_done.
  - destruct (C1_duplicate_site one_site_record) as (_ & _ & Hnodup).
    apply Hnodup. compute_done.
Defined.

(** ** Serializing and parsing again (claim C9) *)

Lemma find_index_app_l p s1 s2 i :
  find_index p s1 = Some i → find_index p (s1 ++ s2) = Some i.
Proof.
  revert i. induction s1 as [|c s1 IH]; intros i; [done|]. cbn [find_index app].
  destruct (p c); [done|]. destruct (find_index p s1) as [j|]; [|done].
  intros [= <-]. by rewrite (IH j).
Qed.

Lemma find_index_app_r p s1 s2 :
  find_index p s1 = None →
  find_index p (s1 ++ s2) = (λ i, length s1 + i)%nat <$> find_index p s2.
Proof.
  induction s1 as [|c s1 IH]; cbn [find_index app length].
  - intros _. by destruct (find_index p s2).
  - destruct (p c); [done|]. destruct (find_index p s1) as [j|]; [done|].
    intros _. rewrite IH by done. by destruct (find_index p s2).
Qed.

Lemma find_index_lt p s i : find_index p s = Some i → (i < length s)%nat.
Proof. by intros (? & _)%find_index_Some. Qed.

Lemma find_index_drop_None p s n :
  find_index p s = None → find_index p (drop n s) = None.
Proof.
  rewrite !find_index_None. intros Hall c Hc. apply Hall.
  by apply (subseteq_drop n s).
Qed.

Lemma find_index_take_None p s n :
  find_index p s = None → find_index p (take n s) = None.
Proof.
  rewrite !find_index_None. intros Hall c Hc. apply Hall.
  by apply (subseteq_take n s).
Qed.

Lemma span_length_le p s : (span_length p s ≤ length s)%nat.
Proof. induction s as [|c s IH]; cbn; [done|]. destruct (p c); cbn; lia. Qed.

(** A character that [p] refuses ends the run of [p]. *)
Lemma span_length_app_stop p w c t :
  p c = false → span_length p (w ++ c :: t) = span_length p w.
Proof.
  intros Hc. induction w as [|c' w IH]; cbn [span_length app].
  - by rewrite Hc.
  - destruct (p c'); [by rewrite IH|done].
Qed.

Lemma span_length_drop p s : span_length p (drop (span_length p s) s) = 0%nat.
Proof.
  induction s as [|c s IH]; [done|]. cbn [span_length].
  destruct (p c) eqn:Hc; [done|]. cbn. by rewrite Hc.
Qed.

Lemma span_length_take_zero p s n :
  span_length p s = 0%nat → span_length p (take n s) = 0%nat.
Proof.
  destruct s as [|c s], n as [|n]; try done. cbn. by destruct (p c).
Qed.

Lemma is_separator_not_ending c : is_separator c = true → is_ending c = false.
Proof.
  unfold is_separator, is_ending. rewrite bool_decide_eq_true, bool_decide_eq_false.
  intros [-> | ->] [|]; done.
Qed.

Lemma is_separator_not_space c : is_separator c = true → is_space c = false.
Proof.
  unfold is_separator. rewrite bool_decide_eq_true. by intros [-> | ->].
Qed.

Lemma is_separator_of st : is_separator (separator_of st) = true.
Proof. by destruct st. Qed.

Lemma is_ending_of st : is_ending (ending_of st) = true.
Proof. by destruct st. Qed.

(** The token parser on a token whose key has no ending token: it reads the
    key and the value, and goes on after the whitespace. *)
Lemma parse_pair_clean k sep v e rest :
  nosep k → clean k → clean v →
  is_separator sep = true → is_ending e = true →
  parse_pair (k ++ sep :: v ++ e :: rest)
  = Return (k, v, drop (span_length is_space rest) rest).
Proof.
  intros Hk Hclean Hv Hsep He.
  unfold parse_pair, SEPARATOR_TOKENS_search, VALUE_ENDING_TOKENS_search.
  rewrite (find_index_app_r is_separator k) by done.
  cbn [find_index]. rewrite Hsep. cbn [fmap option_fmap option_map mbind option_bind].
  rewrite (find_index_app_r is_ending k) by done.
  cbn [find_index]. rewrite (is_separator_not_ending sep Hsep).
  rewrite (find_index_app_r is_ending v) by done.
  cbn [find_index]. rewrite He.
  cbn [fmap option_fmap option_map mbind option_bind m_start m_end].
  rewrite !Nat.add_0_r.
  rewrite slice_from_nonneg, !slice_nonneg by lia.
  f_equal. f_equal; [f_equal|].
  - rewrite drop_0, Nat2Z.id. change (Z.to_nat 0) with 0%nat.
    by rewrite Nat.sub_0_r, take_app_length.
  - replace (Z.to_nat (Z.of_nat (length k) + 1)) with (length k + 1)%nat by lia.
    rewrite Nat2Z.id.
    replace (length k + S (length v) - (length k + 1))%nat with (length v) by lia.
    rewrite drop_app_add'; [|done]. cbn [drop]. by rewrite drop_0, take_app_length.
  - set (j := (length k + S (length v))%nat).
    assert (drop (S j) (k ++ sep :: v ++ e :: rest) = rest) as Hdrop.
    { unfold j. replace (S (length k + S (length v))) with (length k + (S (length v + 1)))%nat by lia.
      rewrite drop_app_add'; [|done]. cbn [drop].
      rewrite drop_app_add'; [|done]. done. }
    rewrite Hdrop.
    replace (Z.to_nat (Z.of_nat j + 1 + Z.of_nat (span_length is_space rest)))
      with (S j + span_length is_space rest)%nat by lia.
    by rewrite <-drop_drop, Hdrop.
Qed.

(** The token parser on a token whose key has an ending token: the value is
    empty, and the rest of the key is read as the next key. *)
Lemma parse_pair_dirty k sep tail y :
  nosep k → next_key k = Some y →
  is_separator sep = true →
  parse_pair (k ++ sep :: tail) = Return (k, [], y ++ sep :: tail).
Proof.
  intros Hk Hnext Hsep. unfold next_key in Hnext.
  destruct (find_index is_ending k) as [j|] eqn:Hj; [|done].
  cbn in Hnext. injection Hnext as <-.
  pose proof (find_index_lt _ _ _ Hj) as Hlt.
  pose proof (span_length_le is_space (drop (S j) k)) as Hspan.
  rewrite length_drop in Hspan.
  unfold parse_pair, SEPARATOR_TOKENS_search, VALUE_ENDING_TOKENS_search.
  rewrite (find_index_app_r is_separator k) by done.
  cbn [find_index]. rewrite Hsep. cbn [fmap option_fmap option_map mbind option_bind].
  rewrite (find_index_app_l is_ending k _ j Hj).
  cbn [mbind option_bind m_start m_end].
  assert (drop (S j) (k ++ sep :: tail) = drop (S j) k ++ sep :: tail) as Hdrop.
  { rewrite drop_app_le by lia. done. }
  rewrite Hdrop, span_length_app_stop by (by apply is_separator_not_space).
  rewrite slice_from_nonneg, !slice_nonneg by lia.
  f_equal. f_equal; [f_equal|].
  - rewrite drop_0, Nat2Z.id, Nat.add_0_r. change (Z.to_nat 0) with 0%nat.
    by rewrite Nat.sub_0_r, take_app_length.
  - replace (Z.to_nat (Z.of_nat j) - Z.to_nat (Z.of_nat (length k + 0) + 1))%nat
      with 0%nat by lia. done.
  - set (n := span_length is_space (drop (S j) k)) in *.
    replace (Z.to_nat (Z.of_nat j + 1 + Z.of_nat n)) with (S j + n)%nat by lia.
    rewrite drop_app_le by lia. done.
Qed.

Lemma chain_eq k v :
  chain k v =
  match next_key k with
  | Some y => (k, []) :: chain y v
  | None => [(k, v)]
  end.
Proof.
  rewrite chain_equation_1.
  destruct (inspect (next_key k)) as [[y|] H]; cbn [chain_unfold_clause_1]; by rewrite H.
Qed.

Lemma next_key_None k : next_key k = None ↔ clean k.
Proof. unfold next_key, clean. by destruct (find_index is_ending k). Qed.

Lemma next_key_nosep k y : nosep k → next_key k = Some y → nosep y.
Proof.
  unfold next_key. destruct (find_index is_ending k) as [j|]; [|done].
  intros Hk [= <-]. by apply find_index_drop_None.
Qed.

Lemma next_key_no_leading_space k y : next_key k = Some y → no_leading_space y.
Proof.
  unfold next_key. destruct (find_index is_ending k) as [j|]; [|done].
  intros [= <-]. unfold no_leading_space.
  pose proof (drop_drop k (span_length is_space (drop (S j) k)) (S j)) as Hdrop.
  cbn [Nat.add] in Hdrop. rewrite <-Hdrop. apply span_length_drop.
Qed.

(** What a step of the token parser returns. *)
Lemma parse_pair_Return s k v rest :
  parse_pair s = Return (k, v, rest) →
  ∃ i sep tail,
    find_index is_separator s = Some i ∧ k = take i s ∧ s = k ++ sep :: tail
    ∧ is_separator sep = true ∧ nosep k
    ∧ ((clean k ∧ clean v ∧ no_leading_space rest ∧ (length rest < length s)%nat)
       ∨ (∃ y, next_key k = Some y ∧ v = [] ∧ rest = y ++ sep :: tail)).
Proof.
  intros Hpair.
  destruct (find_index is_separator s) as [i|] eqn:Hi.
  2:{ unfold parse_pair, SEPARATOR_TOKENS_search in Hpair. by rewrite Hi in Hpair. }
  destruct (find_index_Some _ _ _ Hi) as (Hlt & (sep & Hsep & Hissep) & Hbefore).
  set (k0 := take i s). set (tail := drop (S i) s).
  assert (s = k0 ++ sep :: tail) as Hs by (symmetry; by apply take_drop_middle).
  assert (nosep k0) as Hnosep by (by apply find_index_None).
  destruct (next_key k0) as [y|] eqn:Hnext.
  - pose proof (parse_pair_dirty k0 sep tail y Hnosep Hnext Hissep) as Hdirty.
    rewrite <-Hs, Hpair in Hdirty. injection Hdirty as -> -> ->.
    exists i, sep, tail. repeat (split; [done|]). right. by exists y.
  - apply next_key_None in Hnext.
    destruct (find_index is_ending tail) as [j|] eqn:Hj.
    + destruct (find_index_Some _ _ _ Hj) as (Hjlt & (e & He & Hise) & Hclean).
      set (v0 := take j tail). set (rest0 := drop (S j) tail).
      assert (tail = v0 ++ e :: rest0) as Htail by (symmetry; by apply take_drop_middle).
      assert (clean v0) as Hv0 by (by apply find_index_None).
      pose proof (parse_pair_clean k0 sep v0 e rest0 Hnosep Hnext Hv0 Hissep Hise) as Hc.
      rewrite <-Htail, <-Hs, Hpair in Hc. injection Hc as -> -> ->.
      exists i, sep, tail. repeat (split; [done|]). left.
      split; [done|]. split; [done|]. split; [apply span_length_drop|].
      rewrite length_drop, Hs, Htail, !length_app. cbn [length]. rewrite length_app.
      cbn [length]. lia.
    + exfalso. unfold parse_pair, SEPARATOR_TOKENS_search, VALUE_ENDING_TOKENS_search in Hpair.
      rewrite Hi in Hpair. cbn [mbind option_bind] in Hpair.
      rewrite Hs in Hpair at 1.
      rewrite (find_index_app_r is_ending k0) in Hpair by done.
      cbn [find_index] in Hpair. rewrite (is_separator_not_ending sep Hissep), Hj in Hpair.
      done.
Qed.

(** The lists the token parser returns are chained, and the first key is what
    precedes the first separator. *)
Lemma parse_pairs_chained n s acc res :
  (length s ≤ n)%nat →
  parse_pairs s acc = Return res →
  ∃ kv, res = acc ++ kv ∧ chained kv
        ∧ match kv with
          | [] => s = []
          | (k, _) :: _ => ∃ i, find_index is_separator s = Some i ∧ k = take i s
          end.
Proof.
  revert s acc res. induction n as [|n IH]; intros s acc res Hlen.
  - destruct s; [|cbn in Hlen; lia]. rewrite parse_pairs_eq. intros [= <-].
    exists []. rewrite app_nil_r. split; [done|]. split; [constructor|done].
  - rewrite parse_pairs_eq. destruct s as [|c s']; [|set (s := c :: s') in *].
    { intros [= <-]. exists []. rewrite app_nil_r. split; [done|]. split; [constructor|done]. }
    destruct (parse_pair s) as [[[k v] rest]|e] eqn:Hpair; [|done].
    intros Hres.
    destruct (parse_pair_Return s k v rest Hpair)
      as (i & sep & tail & Hi & Hk & Hs & Hsep & Hnosep & Hcases).
    assert (length rest < length s)%nat as Hshort.
    { destruct Hcases as [(_ & _ & _ & ?)|(y & Hy & _ & ->)]; [done|].
      apply next_key_shorter in Hy. rewrite Hs, !length_app. cbn [length]. lia. }
    destruct (IH rest (acc ++ [(k, v)]) res) as (kv' & -> & Hchained & Hhead);
      [cbn [length] in *; lia|done|].
    exists ((k, v) :: kv'). split; [by rewrite <-app_assoc|]. split; [|by exists i].
    destruct Hcases as [(Hclean & Hv & Hrest & _)|(y & Hy & -> & ->)].
    + apply chained_clean; [done..| |done].
      intros k' v' kv'' ->. destruct Hhead as (i' & _ & ->).
      by apply span_length_take_zero.
    + destruct kv' as [|[k' v'] kv'']; [by destruct y|].
      destruct Hhead as (i' & Hi' & ->).
      pose proof (next_key_nosep k y Hnosep Hy) as Hynosep.
      rewrite (find_index_app_r is_separator y) in Hi' by done.
      cbn [find_index] in Hi'. rewrite Hsep in Hi'. injection Hi' as <-.
      rewrite Nat.add_0_r, take_app_length in Hchained |- *.
      by apply chained_dirty.
Qed.

Lemma chained_serializable kv :
  chained kv →
  Forall (λ p, nosep p.1 ∧ clean p.2) kv
  ∧ Forall (λ p, no_leading_space p.1) (tail kv).
Proof.
  induction 1 as [|k v kv Hk Hclean Hv Hhead _ [IH1 IH2]|k y v kv Hk Hy _ [IH1 IH2]].
  - by split.
  - split; [by constructor|]. cbn [tail].
    destruct kv as [|[k' v'] kv']; [done|]. constructor; [|done].
    by apply (Hhead k' v' kv').
  - split; [by constructor|]. cbn [tail] in *. constructor; [|done].
    by apply (next_key_no_leading_space k).
Qed.

Lemma serialize_cons st k v kv :
  serialize st ((k, v) :: kv)
  = k ++ separator_of st :: v ++ ending_of st :: serialize st kv.
Proof.
  unfold serialize, serialize_pair. cbn [fmap list_fmap mjoin list_join fst snd].
  rewrite <-app_assoc. cbn [app]. by rewrite <-app_assoc.
Qed.

Lemma serialize_no_leading_space st kv :
  Forall (λ p, no_leading_space p.1) kv → no_leading_space (serialize st kv).
Proof.
  destruct kv as [|[k v] kv]; [done|]. intros Hall. apply Forall_cons_1 in Hall as [Hk _].
  rewrite serialize_cons. unfold no_leading_space.
  rewrite span_length_app_stop; [done|].
  apply is_separator_not_space, is_separator_of.
Qed.

(** Parsing the serialized pairs gives, for every pair, its chain. *)
Lemma parse_pairs_serialize st n kv acc :
  (length (serialize st kv) ≤ n)%nat →
  Forall (λ p, nosep p.1 ∧ clean p.2) kv →
  Forall (λ p, no_leading_space p.1) (tail kv) →
  parse_pairs (serialize st kv) acc
  = Return (acc ++ mjoin ((λ p, chain p.1 p.2) <$> kv)).
Proof.
  revert kv acc. induction n as [|n IH]; intros kv acc Hlen Hok Htail.
  - destruct kv as [|[k v] kv].
    + rewrite parse_pairs_eq. cbn. by rewrite app_nil_r.
    + rewrite serialize_cons, length_app in Hlen. cbn [length] in Hlen. lia.
  - destruct kv as [|[k v] kv].
    { rewrite parse_pairs_eq. cbn. by rewrite app_nil_r. }
    apply Forall_cons_1 in Hok as [[Hk Hv] Hok]. cbn [fst snd tail] in *.
    rewrite parse_pairs_eq, serialize_cons in *.
    destruct (k ++ separator_of st :: v ++ ending_of st :: serialize st kv)
      as [|c s] eqn:Hs; [by destruct k|]. rewrite <-Hs in *. clear c s Hs.
    cbn [fmap list_fmap mjoin list_join fst snd]. rewrite chain_eq.
    destruct (next_key k) as [y|] eqn:Hnext.
    + rewrite (parse_pair_dirty k _ _ y Hk Hnext (is_separator_of st)).
      rewrite <-serialize_cons.
      rewrite (IH ((y, v) :: kv)).
      * cbn [fmap list_fmap mjoin list_join fst snd]. by rewrite <-app_assoc.
      * apply next_key_shorter in Hnext.
        rewrite serialize_cons. rewrite !length_app in Hlen |- *. cbn [length] in *. lia.
      * constructor; [|done]. split; [by apply (next_key_nosep k)|done].
      * done.
    + apply next_key_None in Hnext.
      rewrite (parse_pair_clean k _ v _ _ Hk Hnext Hv (is_separator_of st) (is_ending_of st)).
      rewrite (serialize_no_leading_space st kv Htail). rewrite drop_0.
      rewrite (IH kv).
      * by rewrite <-app_assoc.
      * rewrite !length_app in Hlen. cbn [length] in Hlen.
        rewrite length_app in Hlen. cbn [length] in Hlen. lia.
      * done.
      * destruct kv; [done|]. by apply Forall_cons_1 in Htail as [_ ?].
Qed.

(** With keys that have no ending token every chain is the pair itself. *)
Lemma chain_clean_keys kv :
  (∀ k v, (k, v) ∈ kv → clean k) →
  mjoin ((λ p, chain p.1 p.2) <$> kv) = kv.
Proof.
  induction kv as [|[k v] kv IH]; intros Hclean; [done|].
  cbn [fmap list_fmap mjoin list_join fst snd]. rewrite chain_eq.
  rewrite (proj2 (next_key_None k)) by (apply (Hclean k v); by left).
  cbn [app]. f_equal. apply IH. intros k' v' Hin. apply (Hclean k' v'). by right.
Qed.

Lemma clean_iff s : clean s ↔ ("*"%char ∉ s) ∧ ("$"%char ∉ s).
Proof.
  unfold clean. rewrite find_index_None. unfold is_ending. split.
  - intros Hall. split; intros Hin; specialize (Hall _ Hin);
      apply bool_decide_eq_false in Hall; apply Hall; auto.
  - intros [Hstar Hdollar] c Hin. apply bool_decide_eq_false.
    intros [-> | ->]; auto.
Qed.

(** No code of the table has an ending token. *)
Lemma code_clean k attr : KEY_TO_ATTR_MAPPING !! k = Some attr → clean k.
Proof.
  rewrite KEY_TO_ATTR_MAPPING_lookup. intros Hin.
  assert (Forall (λ p, find_index is_ending p.1 = None) KEY_TO_ATTR_ITEMS) as Hall
    by compute_done.
  rewrite Forall_forall in Hall. apply (Hall _ Hin).
Qed.

Lemma translate_step_dirty m k y v :
  next_key k = Some y → translate_step m (k, v) = m.
Proof.
  intros Hnext. unfold translate_step. cbn [fst].
  destruct (KEY_TO_ATTR_MAPPING !! k) as [attr|] eqn:Hattr; [|done].
  apply code_clean, next_key_None in Hattr. congruence.
Qed.

Lemma translate_step_twice m k w v :
  translate_step (translate_step m (k, w)) (k, v) = translate_step m (k, v).
Proof.
  unfold translate_step. cbn [fst snd].
  destruct (KEY_TO_ATTR_MAPPING !! k); [apply insert_insert_eq|done].
Qed.

(** The chain of a key counts, for the attributes, as its last pair: after
    it, the chain of the same key with another value decides. *)
Lemma translate_chain_twice n m k w v :
  (length k ≤ n)%nat →
  foldl translate_step m (chain k w ++ chain k v)
  = foldl translate_step m (chain k v).
Proof.
  revert m k. induction n as [|n IH]; intros m k Hlen.
  - rewrite !(chain_eq k). destruct (next_key k) as [y|] eqn:Hnext.
    + apply next_key_shorter in Hnext. lia.
    + cbn [app foldl]. by rewrite translate_step_twice.
  - rewrite !(chain_eq k). destruct (next_key k) as [y|] eqn:Hnext.
    + cbn [app foldl]. rewrite foldl_app. cbn [foldl].
      rewrite !(translate_step_dirty _ k y) by done.
      rewrite <-foldl_app. apply IH. apply next_key_shorter in Hnext. lia.
    + cbn [app foldl]. by rewrite translate_step_twice.
Qed.

(** The chains of a chained list give the attributes of the list. *)
Lemma translate_chains kv m :
  chained kv →
  foldl translate_step m (mjoin ((λ p, chain p.1 p.2) <$> kv))
  = foldl translate_step m kv.
Proof.
  intros Hchained. revert m.
  induction Hchained as [|k v kv Hk Hclean Hv Hhead _ IH|k y v kv Hk Hy _ IH]; intros m.
  - done.
  - cbn [fmap list_fmap mjoin list_join fst snd]. rewrite chain_eq.
    rewrite (proj2 (next_key_None k)) by done. cbn [app foldl]. apply IH.
  - specialize (IH m). cbn [fmap list_fmap mjoin list_join fst snd] in IH |- *.
    rewrite (chain_eq k), Hy. cbn [app foldl].
    rewrite !(translate_step_dirty _ k y) by done.
    rewrite app_assoc, foldl_app, (translate_chain_twice (length y)) by done.
    rewrite <-foldl_app. exact IH.
Qed.

(** The claim C9 as it is written fails: a key that holds an ending token is
    returned by the token parser, and its token is parsed again into more
    pairs. On ["5*T=A*"] the parser returns a list with one ["T"] pair, on
    the serialized list it returns one with two. *)
Lemma C9_counterexample :
  parse_key_value_pairs "5*T=A*" = Return [("5*T", ""); ("T", "A")]
  ∧ serialize EqualsStar [("5*T", ""); ("T", "A")] = "5*T=*T=A*"
  ∧ parse_key_value_pairs (serialize EqualsStar [("5*T", ""); ("T", "A")])
    = Return [("5*T", ""); ("T", ""); ("T", "A")]
  ∧ parse_key_value_pairs (serialize EqualsStar [("5*T", ""); ("T", "A")])
    ≠ Return [("5*T", ""); ("T", "A")].
Proof. repeat split; compute_done. Qed.

(** Claim C9, amended: for every list of pairs a successful run of
    [parse_key_value_pairs] returns, the serialized list is parsed with
    success and gives the same attribute mapping under
    [translate_keys_to_attributes]; when no key of the list holds ['*'] or
    ['$'], it is parsed into the same ordered list of pairs. Both delimiter
    conventions serve. *)
Theorem C9_serialize_round_trip st kv_pairs_str kv_pairs :
  parse_key_value_pairs kv_pairs_str = Return kv_pairs →
  (∃ kv_pairs',
     parse_key_value_pairs (serialize st kv_pairs) = Return kv_pairs'
     ∧ translate_keys_to_attributes kv_pairs' = translate_keys_to_attributes kv_pairs)
  ∧ ((∀ k v, (k, v) ∈ kv_pairs → ("*"%char ∉ k) ∧ ("$"%char ∉ k)) →
     parse_key_value_pairs (serialize st kv_pairs) = Return kv_pairs).
Proof.
  unfold parse_key_value_pairs at 1. case_bool_decide as Hne; [done|]. intros Hparse.
  destruct (parse_pairs_chained (length kv_pairs_str) kv_pairs_str [] kv_pairs)
    as (kv & -> & Hchained & Hhead); [done..|]. cbn [app] in *.
  destruct kv as [|[k v] kv]; [done|]. clear Hhead.
  destruct (chained_serializable _ Hchained) as [Hok Htail].
  assert (parse_key_value_pairs (serialize st ((k, v) :: kv))
          = Return (mjoin ((λ p, chain p.1 p.2) <$> (k, v) :: kv))) as Hreparse.
  { unfold parse_key_value_pairs. rewrite bool_decide_false.
    - by rewrite (parse_pairs_serialize st (length (serialize st ((k, v) :: kv)))).
    - rewrite serialize_cons. by destruct k. }
  split.
  - eexists. split; [exact Hreparse|]. apply (translate_chains _ ∅ Hchained).
  - intros Hclean. rewrite Hreparse, chain_clean_keys; [done|].
    intros k' v' Hin. by apply clean_iff, (Hclean k' v').
Qed.

Lemma C9_witness :
  parse_key_value_pairs "5=ABC* 10#0981234$  T=A*"
  = Return [("5", "ABC"); ("10", "0981234"); ("T", "A")]
  ∧ parse_key_value_pairs
      (serialize HashDollar [("5", "ABC"); ("10", "0981234"); ("T", "A")])
    = Return [("5", "ABC"); ("10", "0981234"); ("T", "A")].
Proof.
  assert (parse_key_value_pairs "5=ABC* 10#0981234$  T=A*"
          = Return [("5", "ABC"); ("10", "0981234"); ("T", "A")]) as Hparse
    by compute_done.
  split; [done|].
  apply (proj2 (C9_serialize_round_trip HashDollar _ _ Hparse)).
  intros k v Hin.
  assert (Forall (λ p, ("*"%char ∉ p.1) ∧ ("$"%char ∉ p.1))
            [("5", "ABC"); ("10", "0981234"); ("T", "A")]) as Hall by compute_done.
  rewrite Forall_forall in Hall. exact (Hall _ Hin).
Defined.

(** ** The exceptions of [parse] *)

Lemma parse_pair_shorter s k v rest :
  parse_pair s = Return (k, v, rest) → (length rest < length s)%nat.
Proof.
  intros (i & sep & tail & _ & _ & Hs & _ & _ & Hcases)%parse_pair_Return.
  destruct Hcases as [(_ & _ & _ & ?)|(y & Hy & _ & ->)]; [done|].
  apply next_key_shorter in Hy. rewrite Hs, !length_app. cbn [length]. lia.
Qed.

Lemma parse_pair_raise s e : parse_pair s = Raise e → ∃ err, e = ParseErr err.
Proof.
  unfold parse_pair.
  destruct (SEPARATOR_TOKENS_search s); [|intros [= <-]; by eexists].
  destruct (VALUE_ENDING_TOKENS_search s); [done|intros [= <-]; by eexists].
Qed.

(** The token parser raises [ParseError] only. *)
Lemma parse_pairs_raise n s acc e :
  (length s ≤ n)%nat → parse_pairs s acc = Raise e → ∃ err, e = ParseErr err.
Proof.
  revert s acc. induction n as [|n IH]; intros s acc Hlen; rewrite parse_pairs_eq.
  - by destruct s; [|cbn in Hlen; lia].
  - destruct s as [|c s']; [done|]. set (s := c :: s') in *.
    destruct (parse_pair s) as [[[k v] rest]|e'] eqn:Hpair.
    + apply IH. apply parse_pair_shorter in Hpair. lia.
    + intros [= <-]. by apply (parse_pair_raise s).
Qed.

Lemma parse_key_value_pairs_raise s e :
  parse_key_value_pairs s = Raise e → ∃ err, e = ParseErr err.
Proof.
  unfold parse_key_value_pairs. case_bool_decide; [intros [= <-]; by eexists|].
  by apply (parse_pairs_raise (length s)).
Qed.

(** Line splitting and validation raise [ParseError] only: the lines are
    indexed in range. *)
Lemma get_lines_raise_ParseError content e :
  get_lines content = Raise e → ∃ err, e = ParseErr err.
Proof.
  destruct (decide (content = [])) as [->|Hcontent]; [intros [= <-]; by eexists|].
  destruct (decide (drop 1 (re_split_lines content) = [])) as [Hnil|Hlines].
  - unfold get_lines. rewrite bool_decide_false by done.
    rewrite slice_from_nonneg by lia. change (Z.to_nat 1) with 1%nat.
    rewrite Hnil. intros [= <-]. by eexists.
  - rewrite get_lines_spec by done. case_bool_decide; [done|].
    intros [= <-]. by eexists.
Qed.

(** Normalization raises [IndexError] for one reason only: a longitude that
    is one space or one hyphen. *)
Lemma normalize_values_IndexError this_result :
  normalize_values this_result = Raise IndexError →
  ∃ value, this_result !! "longitude" = Some value ∧ (value = " " ∨ value = "-").
Proof.
  unfold normalize_values.
  set (r1 := match this_result !! "stationName" with Some _ => _ | None => _ end).
  assert (r1 !! "longitude" = this_result !! "longitude") as Hr1.
  { unfold r1. destruct (this_result !! "stationName"); [|done].
    by rewrite lookup_insert_ne. }
  clearbody r1.
  set (o2 := match r1 !! "latitude" with Some _ => _ | None => _ end).
  assert (∃ r2, o2 = Return r2 ∧ r2 !! "longitude" = this_result !! "longitude")
    as (r2 & -> & Hr2).
  { unfold o2. destruct (r1 !! "latitude") as [lat|]; [|by exists r1].
    rewrite add_leading_space_spec. cbn [mbind outcome_bind].
    eexists. split; [done|]. by rewrite lookup_insert_ne. }
  cbn [mbind outcome_bind]. rewrite Hr2.
  destruct (this_result !! "longitude") as [value|]; [|done].
  intros Hraise. exists value. split; [done|]. apply longitude_IndexError.
  rewrite add_leading_space_spec in Hraise |- *. cbn [mbind outcome_bind] in Hraise |- *.
  destruct (add_leading_zero _) as [value'|e]; [done|].
  cbn in Hraise. by injection Hraise as ->.
Qed.

Lemma parse_transaction_IndexError transaction :
  parse_transaction transaction = Raise IndexError →
  ∃ kv_pairs value,
    parse_key_value_pairs (key_value_pairs transaction) = Return kv_pairs
    ∧ translate_keys_to_attributes kv_pairs !! "longitude" = Some value
    ∧ (value = " " ∨ value = "-").
Proof.
  unfold parse_transaction.
  destruct (parse_key_value_pairs (key_value_pairs transaction)) as [kv_pairs|e] eqn:Hkv.
  2:{ destruct (parse_key_value_pairs_raise _ _ Hkv) as [err ->]. done. }
  cbn [mbind outcome_bind]. unfold validate_and_normalize.
  repeat (case_match; [done|]).
  intros (value & Hvalue & Hcases)%normalize_values_IndexError.
  exists kv_pairs, value. split; [done|]. split; [|done].
  by rewrite !lookup_insert_ne in Hvalue.
Qed.

Lemma parse_transactions_IndexError transactions results :
  parse_transactions transactions results = Raise IndexError →
  ∃ transaction, transaction ∈ transactions
                 ∧ parse_transaction transaction = Raise IndexError.
Proof.
  revert results. induction transactions as [|t ts IH]; intros results; [done|].
  cbn [parse_transactions].
  destruct (parse_transaction t) as [this_result|e] eqn:Ht.
  - intros (t' & Hin & Ht')%IH. exists t'. split; [by right|done].
  - cbn. intros [= ->]. exists t. split; [by left|done].
Qed.

(** [parse] returns a list, raises [ParseError], or raises [IndexError]; the
    last only for a transaction with a longitude of one space or one
    hyphen. Every other index of the pipeline is in range. *)
Lemma parse_IndexError content :
  parse content = Raise IndexError →
  ∃ lines transaction kv_pairs value,
    get_lines content = Return lines
    ∧ transaction ∈ get_transactions lines
    ∧ parse_key_value_pairs (key_value_pairs transaction) = Return kv_pairs
    ∧ translate_keys_to_attributes kv_pairs !! "longitude" = Some value
    ∧ (value = " " ∨ value = "-").
Proof.
  unfold parse. destruct (get_lines content) as [lines|e] eqn:Hlines.
  2:{ destruct (get_lines_raise_ParseError _ _ Hlines) as [err ->]. done. }
  cbn [mbind outcome_bind].
  destruct (too_many_transactions (len (get_transactions lines))); [done|].
  destruct (parse_transactions (get_transactions lines) []) as [results|e] eqn:Hresults.
  { cbn [mbind outcome_bind]. by case_bool_decide. }
  cbn. intros [= ->].
  apply parse_transactions_IndexError in Hresults as (t & Hin & Ht).
  apply parse_transaction_IndexError in Ht as (kv_pairs & value & ? & ? & ?).
  by exists lines, t, kv_pairs, value.
Qed.

(** A string without line feed is one line. *)
Lemma re_split_lines_no_lf s : "010"%char ∉ s → re_split_lines s = [s].
Proof.
  induction s as [|c s IH]; intros Hlf; [done|].
  apply not_elem_of_cons in Hlf as [Hc Hlf].
  rewrite re_split_lines_char, (IH Hlf); [done..|].
  intros _ Hhead. destruct s as [|c' s]; [done|].
  injection Hhead as ->. apply Hlf. by left.
Qed.

(** A string with a line feed is two lines or more. *)
Lemma re_split_lines_lf_two s :
  "010"%char ∈ s → drop 1 (re_split_lines s) ≠ [].
Proof.
  induction s as [|c s IH]; [by intros ?%elem_of_nil|].
  intros Hin. pose proof (re_split_lines_not_nil s) as Hs.
  destruct (decide (c = "010"%char)) as [->|Hc].
  { rewrite re_split_lines_lf. cbn [drop]. by rewrite drop_0. }
  apply elem_of_cons in Hin as [?|Hin]; [done|].
  destruct (decide (c = "013"%char ∧ head s = Some "010"%char)) as [[-> Hhead]|Hcr].
  - destruct s as [|c' s']; [done|]. injection Hhead as ->.
    rewrite re_split_lines_crlf. cbn [drop]. rewrite drop_0.
    apply re_split_lines_not_nil.
  - rewrite re_split_lines_char by tauto.
    specialize (IH Hin). by destruct (re_split_lines s) as [|line [|line' lines]].
Qed.

(** [parse] fails with [NoTransactions] exactly on a text that is not empty
    and has no line feed: nothing follows the header line, not even an
    empty line. *)
Lemma parse_NoTransactions content :
  parse content = raise NoTransactions ↔ content ≠ [] ∧ "010"%char ∉ content.
Proof.
  split.
  - intros Hparse. destruct (decide (content = [])) as [->|Hcontent]; [done|].
    split; [done|]. intros Hlf%re_split_lines_lf_two.
    unfold parse in Hparse. rewrite get_lines_spec in Hparse by done.
    case_bool_decide; [|done]. cbn [mbind outcome_bind] in Hparse.
    destruct (too_many_transactions _); [done|].
    destruct (parse_transactions _ []) as [results|e] eqn:Hresults.
    + cbn [mbind outcome_bind] in Hparse. by case_bool_decide.
    + cbn in Hparse. injection Hparse as ->.
      by apply parse_transactions_raise in Hresults.
  - intros [Hcontent Hlf]. unfold parse, get_lines.
    rewrite bool_decide_false by done.
    rewrite slice_from_nonneg by lia. change (Z.to_nat 1) with 1%nat.
    by rewrite (re_split_lines_no_lf content Hlf).
Qed.

(** * The value normalizers *)

Lemma startswith_quote value :
  startswith value "'" = bool_decide (head value = Some "'"%char).
Proof.
  unfold startswith. destruct value as [|c value]; [done|]. cbn.
  apply bool_decide_ext. split; intros [= ->]; done.
Qed.

Lemma endswith_quote value :
  endswith value "'" = bool_decide (last value = Some "'"%char).
Proof.
  unfold endswith. cbn [length].
  destruct value as [|c value] using rev_ind; [done|].
  rewrite last_snoc, length_app. cbn [length].
  replace (length value + 1 - 1)%nat with (length value) by lia.
  rewrite drop_app_length. apply bool_decide_ext. split; intros [= ->]; done.
Qed.

(** Property X16: [remove_leading_and_trailing_single_quotes] removes one
    single quote at each end of a value that is enclosed in single quotes, and
    no more than one; it turns the value that is one single quote into the
    empty string, since that character is both the first and the last; every
    other value is returned as it is. *)
Theorem X16_remove_quotes :
  (∀ s, remove_leading_and_trailing_single_quotes ("'" ++ s ++ "'") = s)
  ∧ remove_leading_and_trailing_single_quotes "'" = ""
  ∧ (∀ value, head value ≠ Some "'"%char ∨ last value ≠ Some "'"%char →
       remove_leading_and_trailing_single_quotes value = value).
Proof.
  split_and!.
  - intros s. unfold remove_leading_and_trailing_single_quotes.
    rewrite startswith_quote, endswith_quote.
    change ("'" ++ s ++ "'") with ("'"%char :: s ++ ["'"%char]).
    assert (last ("'"%char :: s ++ ["'"%char]) = Some "'"%char) as ->
      by (change (last (("'"%char :: s) ++ ["'"%char]) = Some "'"%char); apply last_snoc).
    cbn [head].
    rewrite !bool_decide_eq_true_2 by done. cbn [andb].
    assert (len ("'"%char :: s ++ ["'"%char]) - 1 = Z.of_nat (S (length s))) as ->.
    { unfold len. cbn [length]. rewrite length_app. cbn [length]. lia. }
    rewrite slice_nonneg by lia.
    replace (Z.to_nat (Z.of_nat (S (length s))) - Z.to_nat 1)%nat with (length s) by lia.
    change (Z.to_nat 1) with 1%nat. cbn [drop].
    rewrite drop_0. by rewrite take_app_length.
  - done.
  - intros value Hvalue. unfold remove_leading_and_trailing_single_quotes.
    rewrite startswith_quote, endswith_quote.
    destruct Hvalue as [H|H]; rewrite (bool_decide_eq_false_2 _ H); [done|].
    by rewrite andb_false_r.
Qed.

Lemma leading_space_head value :
  value ≠ [] →
  head (leading_space value) = Some " "%char ∨ head (leading_space value) = Some "-"%char.
Proof.
  destruct value as [|c value]; [done|]. intros _. unfold leading_space.
  case_bool_decide as Hc; [|by left]. cbn. destruct Hc as [->| ->]; auto.
Qed.

Lemma leading_space_idemp value : leading_space (leading_space value) = leading_space value.
Proof.
  destruct value as [|c value]; [done|]. cbn [leading_space].
  case_bool_decide as Hc.
  - cbn [leading_space]. by rewrite bool_decide_eq_true_2.
  - cbn. by rewrite bool_decide_eq_true_2 by auto.
Qed.

(** Property X17: [add_leading_space] never raises. The empty value stays
    empty; every other value comes back starting with a space or a hyphen,
    unchanged when it already did and with one space in front otherwise; so a
    second application changes nothing. *)
Theorem X17_add_leading_space value :
  ∃ result,
    add_leading_space value = Return result
    ∧ (result = [] ↔ value = [])
    ∧ (value ≠ [] → head result = Some " "%char ∨ head result = Some "-"%char)
    ∧ (result = value ∨ (result = " " ++ value ∧ head value ≠ Some " "%char
                         ∧ head value ≠ Some "-"%char))
    ∧ add_leading_space result = Return result.
Proof.
  exists (leading_space value). split_and!.
  - apply add_leading_space_spec.
  - destruct value as [|c value]; [done|]. unfold leading_space.
    by case_bool_decide.
  - apply leading_space_head.
  - destruct value as [|c value]; [by left|]. unfold leading_space.
    case_bool_decide as Hc; [by left|]. right. split; [done|]. cbn.
    split; intros [= ->]; apply Hc; auto.
  - rewrite add_leading_space_spec. f_equal. apply leading_space_idemp.
Qed.

(** Property X18: [add_leading_zero] raises [IndexError] exactly on the
    values of one character. On every other value it returns a result with the
    same first character; the result of a non-empty value has ['0'] or ['1'] as
    its second character, the value itself when it already had and the value
    with a ['0'] put after its first character otherwise; a second application
    changes nothing. *)
Theorem X18_add_leading_zero value :
  (add_leading_zero value = Raise IndexError ↔ length value = 1%nat)
  ∧ (∀ result, add_leading_zero value = Return result →
       head result = head value
       ∧ (value ≠ [] →
          result !! 1%nat = Some "0"%char ∨ result !! 1%nat = Some "1"%char)
       ∧ (result = value ∨ result = take 1 value ++ "0" ++ drop 1 value)
       ∧ add_leading_zero result = Return result).
Proof.
  rewrite add_leading_zero_spec.
  destruct value as [|c0 [|c1 s]].
  - split; [done|]. intros result [= <-]. by split_and!; [..|left|].
  - split; [done|]. done.
  - split; [done|]. intros result [= <-]. rewrite add_leading_zero_spec.
    case_bool_decide as Hc.
    + rewrite bool_decide_eq_true_2 by done.
      split_and!; [done| |by left|done].
      intros _. cbn. destruct Hc as [->| ->]; auto.
    + rewrite bool_decide_eq_true_2 by auto.
      split_and!; [done| |by right|done]. intros _. by left.
Qed.

(** * The special processing of values *)

(** An attribute rewritten when it is present. *)
Lemma present_alter (f : str → str) (k : str) (m : gmap str str) :
  match m !! k with Some value => <[k := f value]> m | None => m end = alter f k m.
Proof.
  apply map_eq. intros k'. destruct (decide (k = k')) as [<-|Hne].
  - rewrite lookup_alter_eq. destruct (m !! k) as [value|] eqn:Hk.
    + by rewrite lookup_insert_eq.
    + by rewrite Hk.
  - rewrite lookup_alter_ne by done. destruct (m !! k); [|done].
    by rewrite lookup_insert_ne.
Qed.

Lemma longitude_Return value result :
  (add_leading_space value ≫= add_leading_zero) = Return result →
  result = leading_zero (leading_space value) ∧ value ≠ " " ∧ value ≠ "-".
Proof.
  rewrite add_leading_space_spec, bind_Return, add_leading_zero_spec.
  fold (leading_space value). intros Hresult. split.
  - destruct (leading_space value) as [|c0 [|c1 s]]; cbn in *; congruence.
  - split; intros ->; by vm_compute in Hresult.
Qed.

(** A successful [normalize_values] rewrites the four attributes, each when
    it is present. *)
Lemma normalize_values_Return this_result result :
  normalize_values this_result = Return result →
  result
  = alter update_c_code_to_y_code "siteWebReadyCode"
      (alter (leading_zero ∘ leading_space) "longitude"
         (alter leading_space "latitude"
            (alter remove_leading_and_trailing_single_quotes "stationName" this_result)))
  ∧ ∀ value, this_result !! "longitude" = Some value → value ≠ " " ∧ value ≠ "-".
Proof.
  unfold normalize_values. rewrite present_alter.
  set (m1 := alter _ "stationName" this_result).
  assert ((match m1 !! "latitude" with
           | Some value => value ← add_leading_space value; Return (<["latitude" := value]> m1)
           | None => Return m1
           end) = Return (alter leading_space "latitude" m1)) as ->.
  { rewrite <- present_alter. destruct (m1 !! "latitude") as [value|]; [|done].
    by rewrite add_leading_space_spec, bind_Return. }
  rewrite bind_Return. set (m2 := alter _ "latitude" m1).
  assert (m2 !! "longitude" = this_result !! "longitude") as Hsame.
  { unfold m2, m1. by rewrite !lookup_alter_ne by done. }
  destruct (m2 !! "longitude") as [value|] eqn:Hlongitude.
  - destruct (add_leading_space value ≫= add_leading_zero) as [w|e] eqn:Hw.
    + apply longitude_Return in Hw as Hw'. destruct Hw' as (-> & Hspace & Hhyphen).
      revert Hw. rewrite add_leading_space_spec, !bind_Return. intros ->.
      rewrite !bind_Return, present_alter. intros [= <-]. split.
      * f_equal. rewrite <- present_alter. by rewrite Hlongitude.
      * intros value'. rewrite <- Hsame. by intros [= <-].
    + revert Hw. rewrite add_leading_space_spec, !bind_Return. by intros ->.
  - rewrite bind_Return, present_alter. intros [= <-]. split.
    + f_equal. rewrite <- present_alter. by rewrite Hlongitude.
    + intros value'. by rewrite <- Hsame.
Qed.

Lemma longitude_shape value :
  value ≠ [] → value ≠ " " → value ≠ "-" →
  ∃ c0 c1 rest, leading_zero (leading_space value) = c0 :: c1 :: rest
                ∧ (c0 = " "%char ∨ c0 = "-"%char) ∧ (c1 = "0"%char ∨ c1 = "1"%char).
Proof.
  destruct value as [|c value]; [done|]. intros _ Hspace Hhyphen.
  cbn [leading_space]. case_bool_decide as Hc.
  - destruct value as [|c1 value]; [by destruct Hc as [->| ->]|].
    cbn [leading_zero]. case_bool_decide as Hc1.
    + exists c, c1, value. split_and!; [done..|]. destruct Hc1; auto.
    + exists c, "0"%char, (c1 :: value). auto.
  - cbn. case_bool_decide as Hc1.
    + exists " "%char, c, value. split_and!; [done|auto|]. destruct Hc1; auto.
    + exists " "%char, "0"%char, (c :: value). auto.
Qed.

(** Property X19: when the special processing of values in [parse] succeeds,
    the record has the same attributes as before and only [stationName],
    [latitude], [longitude] and [siteWebReadyCode] can have changed: the
    station name is the old one without its enclosing single quotes, the web
    ready code is never ['C'], a non-empty latitude starts with a space or a
    hyphen, and a non-empty longitude starts with a space or a hyphen followed
    by ['0'] or ['1']. *)
Theorem X19_normalize_values this_result result :
  normalize_values this_result = Return result →
  dom result = dom this_result
  ∧ (∀ attr, attr ∉ normalized_attributes → result !! attr = this_result !! attr)
  ∧ result !! "stationName"
    = remove_leading_and_trailing_single_quotes <$> this_result !! "stationName"
  ∧ result !! "siteWebReadyCode"
    = update_c_code_to_y_code <$> this_result !! "siteWebReadyCode"
  ∧ result !! "siteWebReadyCode" ≠ Some "C"
  ∧ (∀ value, result !! "latitude" = Some value →
       value = [] ∨ head value = Some " "%char ∨ head value = Some "-"%char)
  ∧ (∀ value, result !! "longitude" = Some value →
       value = [] ∨
       ∃ c0 c1 rest, value = c0 :: c1 :: rest
                     ∧ (c0 = " "%char ∨ c0 = "-"%char) ∧ (c1 = "0"%char ∨ c1 = "1"%char)).
Proof.
  intros Hresult. destruct (normalize_values_Return _ _ Hresult) as [-> Hlongitude].
  split_and!.
  - apply set_eq. intros attr. by rewrite !dom_alter.
  - intros attr Hattr. unfold normalized_attributes in Hattr.
    rewrite !lookup_alter_ne; [done|..]; intros <-; apply Hattr; repeat constructor.
  - rewrite !lookup_alter_ne by done. by rewrite lookup_alter_eq.
  - rewrite lookup_alter_eq. by rewrite !lookup_alter_ne by done.
  - rewrite lookup_alter_eq. destruct (_ !! "siteWebReadyCode") as [value|]; [|done].
    cbn. unfold update_c_code_to_y_code. case_bool_decide; congruence.
  - intros value. rewrite !lookup_alter_ne by done. rewrite lookup_alter_eq.
    rewrite lookup_alter_ne by done.
    destruct (this_result !! "latitude") as [old|]; [|done]. intros [= <-].
    destruct old as [|c old]; [by left|]. right. by apply leading_space_head.
  - intros value. rewrite lookup_alter_ne by done. rewrite lookup_alter_eq.
    rewrite !lookup_alter_ne by done.
    destruct (this_result !! "longitude") as [old|] eqn:Hold; [|done]. intros [= <-].
    destruct (Hlongitude _ eq_refl) as [Hspace Hhyphen].
    destruct (decide (old = [])) as [->|Hne]; [by left|]. right.
    by apply longitude_shape.
Qed.

Lemma X19_witness :
  let this_result : gmap str str :=
    list_to_map [("stationName", "'OLD MILL'"); ("latitude", "401020");
                 ("longitude", "-751030"); ("siteWebReadyCode", "C")] in
  let result : gmap str str :=
    list_to_map [("stationName", "OLD MILL"); ("latitude", " 401020");
                 ("longitude", "-0751030"); ("siteWebReadyCode", "Y")] in
  normalize_values this_result = Return result
  ∧ dom result = dom this_result
  ∧ result !! "siteWebReadyCode" ≠ Some "C".
Proof.
  intros this_result result.
  assert (normalize_values this_result = Return result) as Hresult by compute_done.
  split; [done|].
  destruct (X19_normalize_values _ _ Hresult) as (Hdom & _ & _ & _ & Hcode & _).
  by split.
Defined.

(** * Reading the lines of a file *)

(** No line of the split contains a line feed. *)
Lemma re_split_lines_elem_no_lf n s line :
  (length s ≤ n)%nat → line ∈ re_split_lines s → "010"%char ∉ line.
Proof.
  revert s line. induction n as [|n IH]; intros s line Hn.
  { destruct s; [|cbn in Hn; lia]. cbn. intros ->%list_elem_of_singleton. by intros ?%elem_of_nil. }
  destruct s as [|c s]; [cbn; intros ->%list_elem_of_singleton; by intros ?%elem_of_nil|].
  cbn [length] in Hn.
  destruct (decide (c = "010"%char)) as [->|Hc].
  { rewrite re_split_lines_lf. intros [->|Hline]%elem_of_cons; [by intros ?%elem_of_nil|].
    apply (IH s); [lia|done]. }
  destruct (decide (c = "013"%char ∧ head s = Some "010"%char)) as [[-> Hhead]|Hcr].
  - destruct s as [|c' s']; [done|]. injection Hhead as ->.
    rewrite re_split_lines_crlf. intros [->|Hline]%elem_of_cons; [by intros ?%elem_of_nil|].
    apply (IH s'); [cbn [length] in Hn; lia|done].
  - rewrite re_split_lines_char by tauto.
    pose proof (re_split_lines_not_nil s) as Hs.
    destruct (re_split_lines s) as [|first lines] eqn:Hsplit; [done|].
    intros [->|Hline]%elem_of_cons.
    + intros [?|Hin]%elem_of_cons; [done|]. revert Hin. apply (IH s); [lia|].
      rewrite Hsplit. by left.
    + apply (IH s); [lia|]. rewrite Hsplit. by right.
Qed.

Lemma data_lines_subseteq content : data_lines content ⊆ re_split_lines content.
Proof.
  unfold data_lines. case_bool_decide.
  - etrans; [apply subseteq_take|apply subseteq_drop].
  - apply subseteq_drop.
Qed.

Lemma category_of_None line : category_of line = None ↔ valid_line line.
Proof.
  unfold category_of, valid_line.
  destruct (Z.gtb_spec (len line) 80); [split; [done|lia]|].
  destruct (Z.ltb_spec (len line) 21); [split; [done|lia]|].
  case_bool_decide; split; try done; try lia; by intros [_ ?].
Qed.

(** What [get_lines] returns. *)
Lemma get_lines_Return content lines :
  get_lines content = Return lines →
  content ≠ [] ∧ "010"%char ∈ content ∧ lines = data_lines content
  ∧ validation_message lines = [].
Proof.
  destruct (decide (content = [])) as [->|Hcontent]; [done|].
  destruct (decide ("010"%char ∈ content)) as [Hlf|Hlf].
  - rewrite get_lines_spec by auto using re_split_lines_lf_two.
    case_bool_decide as Hmessage; [|done]. by intros [= <-].
  - unfold get_lines. rewrite bool_decide_false by done.
    rewrite slice_from_nonneg by lia. change (Z.to_nat 1) with 1%nat.
    by rewrite (re_split_lines_no_lf content Hlf).
Qed.

(** Property X1: the lines [get_lines] returns are the lines of the file
    after its header, without the empty line of a final line terminator; each
    of them has between 21 and 80 characters, a space at offset 20, and no line
    feed. *)
Theorem X1_get_lines_valid content lines :
  get_lines content = Return lines →
  lines = data_lines content
  ∧ ∀ line, line ∈ lines → valid_line line ∧ "010"%char ∉ line.
Proof.
  intros (_ & _ & -> & Hmessage)%get_lines_Return. split; [done|].
  intros line Hline. split.
  - apply category_of_None. by eapply validation_message_nil.
  - apply (re_split_lines_elem_no_lf (length content) content); [done|].
    by apply data_lines_subseteq.
Qed.

Lemma X1_witness :
  let content := "header" ++ nl ++ "USGS 123456789012345 R=0* T=A*" ++ crlf
                 ++ "USGS 123456789012345 12='NAME'*" ++ nl in
  let lines := ["USGS 123456789012345 R=0* T=A*"; "USGS 123456789012345 12='NAME'*"] in
  get_lines content = Return lines
  ∧ lines = data_lines content
  ∧ ∀ line, line ∈ lines → valid_line line ∧ "010"%char ∉ line.
Proof.
  intros content lines.
  assert (get_lines content = Return lines) as Hlines by (by vm_compute).
  split; [done|]. exact (X1_get_lines_valid content lines Hlines).
Defined.

(** The stage of [parse] that raises. *)
Lemma parse_Raise content e :
  parse content = Raise e →
  get_lines content = Raise e
  ∨ ∃ lines, get_lines content = Return lines
      ∧ ((e = ParseErr TooManyTransactions
          ∧ too_many_transactions (len (get_transactions lines)) = true)
         ∨ (too_many_transactions (len (get_transactions lines)) = false
            ∧ (parse_transactions (get_transactions lines) [] = Raise e
               ∨ ∃ results,
                   parse_transactions (get_transactions lines) [] = Return results
                   ∧ duplicates (site_of <$> site_file results) ≠ ∅
                   ∧ e = ParseErr (DuplicateSite (duplicates (site_of <$> site_file results)))))).
Proof.
  unfold parse. destruct (get_lines content) as [lines|e'] eqn:Hlines;
    [|cbn; intros [= ->]; by left].
  cbn [mbind outcome_bind]. intros Hparse. right. exists lines. split; [done|].
  destruct (too_many_transactions _); [injection Hparse as <-; by left|].
  right. split; [done|].
  destruct (parse_transactions _ []) as [results|e'] eqn:Hresults;
    [|cbn in Hparse; injection Hparse as ->; by left].
  cbn [mbind outcome_bind] in Hparse. case_bool_decide as Hduplicates; [|done].
  injection Hparse as <-. right. by exists results.
Qed.

(** Property X2: [get_lines] and [parse] fail with [EmptyInput] exactly on
    the empty text, and with [NoTransactions] exactly on a text that is not
    empty and has no line feed. *)
Theorem X2_empty_and_headerless content :
  (get_lines content = raise EmptyInput ↔ content = [])
  ∧ (get_lines content = raise NoTransactions ↔ content ≠ [] ∧ "010"%char ∉ content)
  ∧ (parse content = raise EmptyInput ↔ content = [])
  ∧ (parse content = raise NoTransactions ↔ content ≠ [] ∧ "010"%char ∉ content).
Proof.
  assert (get_lines content = raise EmptyInput ↔ content = []) as Hempty.
  { split; [|by intros ->]. intros Hlines.
    destruct (decide (content = [])) as [|Hcontent]; [done|].
    destruct (decide ("010"%char ∈ content)) as [Hlf|Hlf].
    - rewrite get_lines_spec in Hlines by auto using re_split_lines_lf_two.
      by case_bool_decide.
    - unfold get_lines in Hlines. rewrite bool_decide_false in Hlines by done.
      rewrite slice_from_nonneg in Hlines by lia. change (Z.to_nat 1) with 1%nat in Hlines.
      by rewrite (re_split_lines_no_lf content Hlf) in Hlines. }
  assert (get_lines content = raise NoTransactions ↔ content ≠ [] ∧ "010"%char ∉ content)
    as Hnone.
  { split.
    - intros Hlines. destruct (decide (content = [])) as [->|Hcontent]; [done|].
      split; [done|]. intros Hlf.
      rewrite get_lines_spec in Hlines by auto using re_split_lines_lf_two.
      by case_bool_decide.
    - intros [Hcontent Hlf]. unfold get_lines. rewrite bool_decide_false by done.
      rewrite slice_from_nonneg by lia. change (Z.to_nat 1) with 1%nat.
      by rewrite (re_split_lines_no_lf content Hlf). }
  assert (∀ e, e = EmptyInput ∨ e = NoTransactions →
               parse content = raise e ↔ get_lines content = raise e) as Hparse.
  { intros e He. split.
    - intros [Hlines|(lines & _ & Hstage)]%parse_Raise; [done|].
      destruct Hstage as [[[= ->] _]|[_ [Hloop|(results & _ & _ & [= ->])]]].
      + by destruct He.
      + apply parse_transactions_raise in Hloop. by destruct He as [->| ->].
      + by destruct He.
    - intros Hlines. unfold parse. by rewrite Hlines. }
  split_and!; [done..| |].
  - rewrite Hparse; auto.
  - rewrite Hparse; auto.
Qed.

(** * Line terminators and the header line *)

(** A line followed by a line feed or by a carriage return and a line feed
    is one element of the split. *)
Lemma re_split_lines_terminator terminator line rest :
  terminator = nl ∨ terminator = crlf → plain line →
  re_split_lines (line ++ terminator ++ rest) = line :: re_split_lines rest.
Proof.
  intros Hterminator [Hlf Hcr]. destruct Hterminator as [->| ->].
  { by apply re_split_lines_line. }
  induction line as [|c line IH]; [apply re_split_lines_crlf|].
  apply not_elem_of_cons in Hlf as [Hc Hlf]. apply not_elem_of_cons in Hcr as [Hc' Hcr].
  cbn [app]. rewrite re_split_lines_char by done. cbn [app] in IH. by rewrite IH.
Qed.

Lemma terminated_cons terminator line lines :
  terminated terminator (line :: lines) = line ++ terminator ++ terminated terminator lines.
Proof.
  change (terminated terminator (line :: lines))
    with ((line ++ terminator) ++ terminated terminator lines).
  by rewrite <- (assoc_L (++)).
Qed.

Lemma re_split_lines_terminated terminator lines :
  terminator = nl ∨ terminator = crlf → Forall plain lines →
  re_split_lines (terminated terminator lines) = lines ++ [[]].
Proof.
  intros Hterminator. induction 1 as [|line lines Hline _ IH]; [done|].
  rewrite terminated_cons, re_split_lines_terminator by done.
  by rewrite IH.
Qed.

Lemma re_split_lines_join terminator lines :
  terminator = nl ∨ terminator = crlf → Forall plain lines → lines ≠ [] →
  re_split_lines (join terminator lines) = lines.
Proof.
  intros Hterminator. induction 1 as [|line lines Hline Hlines IH]; [done|]. intros _.
  destruct lines as [|line' lines].
  - cbn [join]. apply re_split_lines_no_lf, Hline.
  - change (join terminator (line :: line' :: lines))
      with (line ++ terminator ++ join terminator (line' :: lines)).
    rewrite re_split_lines_terminator by done. by rewrite IH.
Qed.

(** [get_lines] reads the text through its split only. *)
Lemma get_lines_split content content' :
  content ≠ [] → content' ≠ [] →
  drop 1 (re_split_lines content) = drop 1 (re_split_lines content') →
  get_lines content = get_lines content'.
Proof.
  intros Hcontent Hcontent' Hsplit. unfold get_lines.
  rewrite (bool_decide_eq_false_2 (content = [])), (bool_decide_eq_false_2 (content' = []))
    by done.
  rewrite !slice_from_nonneg by lia. change (Z.to_nat 1) with 1%nat. by rewrite Hsplit.
Qed.

Lemma parse_get_lines content content' :
  get_lines content = get_lines content' → parse content = parse content'.
Proof. unfold parse. by intros ->. Qed.

Lemma terminated_not_nil terminator line lines :
  terminator ≠ [] → terminated terminator (line :: lines) ≠ [].
Proof.
  intros Hterminator. rewrite terminated_cons.
  by intros [_ [? _]%app_eq_nil]%app_eq_nil.
Qed.

Lemma terminator_not_nil terminator : terminator = nl ∨ terminator = crlf → terminator ≠ [].
Proof. by intros [->| ->]. Qed.

Lemma data_lines_terminated terminator header lines :
  terminator = nl ∨ terminator = crlf → plain header → Forall plain lines →
  data_lines (terminated terminator (header :: lines)) = lines.
Proof.
  intros Hterminator Hheader Hlines. unfold data_lines.
  rewrite re_split_lines_terminated by (done || by constructor).
  cbn [app drop]. rewrite drop_0, last_snoc, bool_decide_eq_true_2 by done.
  rewrite length_app. cbn [length].
  replace (length lines + 1 - 1)%nat with (length lines) by lia.
  by rewrite take_app_length.
Qed.

(** Property X3: a file written line by line is read back by [get_lines]:
    when the header and the lines contain no line feed and no carriage return,
    and every line has between 21 and 80 characters with a space at offset 20,
    [get_lines] returns exactly the lines after the header, whether each line is
    ended by a line feed or by a carriage return and a line feed. *)
Theorem X3_get_lines_reads_written_lines terminator header lines :
  terminator = nl ∨ terminator = crlf →
  plain header → Forall plain lines → Forall valid_line lines →
  get_lines (terminated terminator (header :: lines)) = Return lines.
Proof.
  intros Hterminator Hheader Hplain Hvalid.
  rewrite get_lines_spec.
  - rewrite data_lines_terminated by done.
    rewrite bool_decide_eq_true_2; [done|]. apply validation_message_nil.
    intros line Hline. apply category_of_None.
    by eapply Forall_forall in Hvalid.
  - by apply terminated_not_nil, terminator_not_nil.
  - rewrite re_split_lines_terminated by (done || by constructor).
    cbn [app drop]. rewrite drop_0. by destruct lines.
Qed.

Lemma X3_witness :
  let lines := ["USGS 123456789012345 R=0* T=A*"; "USGS 123456789012345 12='NAME'*"] in
  (crlf = nl ∨ crlf = crlf)
  ∧ plain "header" ∧ Forall plain lines ∧ Forall valid_line lines
  ∧ get_lines (terminated crlf ("header" :: lines)) = Return lines.
Proof.
  intros lines.
  assert (plain "header") as Hheader by (split; apply (bool_decide_unpack _); by vm_compute).
  assert (Forall plain lines) as Hplain
    by (constructor; [|constructor; [|constructor]];
        split; apply (bool_decide_unpack _); by vm_compute).
  assert (Forall valid_line lines) as Hvalid.
  { constructor; [|constructor; [|constructor]];
      (split; [split|]; by vm_compute). }
  split_and!; [by right|done..|].
  exact (X3_get_lines_reads_written_lines crlf "header" lines
           (or_intror eq_refl) Hheader Hplain Hvalid).
Defined.

(** Property X4: the two line terminators are interchangeable, and the
    terminator of the last line is optional. For a header and lines without
    line feed and carriage return, [parse] returns or raises the same on the
    file written with line feeds and on the file written with carriage return
    and line feed; and when there is a last line and it is not empty, also on
    the file whose last line has no terminator. *)
Theorem X4_line_terminators header lines :
  plain header → Forall plain lines →
  parse (terminated crlf (header :: lines)) = parse (terminated nl (header :: lines))
  ∧ (lines ≠ [] → last lines ≠ Some [] →
     ∀ terminator, terminator = nl ∨ terminator = crlf →
       parse (join terminator (header :: lines))
       = parse (terminated nl (header :: lines))).
Proof.
  intros Hheader Hlines. split.
  - apply parse_get_lines, get_lines_split.
    + by apply terminated_not_nil.
    + by apply terminated_not_nil.
    + by rewrite !re_split_lines_terminated by (auto || by constructor).
  - intros Hne Hlast terminator Hterminator.
    assert (join terminator (header :: lines) ≠ []) as Hcontent.
    { destruct lines as [|line lines]; [done|].
      change (join terminator (header :: line :: lines))
        with (header ++ terminator ++ join terminator (line :: lines)).
      intros [_ [? _]%app_eq_nil]%app_eq_nil.
      by apply (terminator_not_nil terminator). }
    assert (drop 1 (re_split_lines (join terminator (header :: lines))) ≠ []) as Hsplit.
    { rewrite re_split_lines_join by (done || by constructor). cbn [drop].
      by rewrite drop_0. }
    rewrite (parse_get_lines _ (terminated nl (header :: lines))); [done|].
    rewrite !get_lines_spec.
    + rewrite data_lines_terminated by auto. unfold data_lines.
      rewrite re_split_lines_join by (done || by constructor). cbn [drop].
      rewrite !drop_0. by rewrite (bool_decide_eq_false_2 (last lines = Some [])).
    + by apply terminated_not_nil.
    + rewrite re_split_lines_terminated by (auto || by constructor).
      cbn [app drop]. rewrite drop_0. by destruct lines.
    + done.
    + done.
Qed.

Lemma X4_witness :
  let lines := ["USGS 123456789012345 R=0* T=A*"; "USGS 123456789012345 12='NAME'*"] in
  plain "header" ∧ Forall plain lines
  ∧ parse (terminated crlf ("header" :: lines)) = parse (terminated nl ("header" :: lines))
  ∧ parse (join crlf ("header" :: lines)) = parse (terminated nl ("header" :: lines)).
Proof.
  intros lines.
  assert (plain "header") as Hheader by (split; apply (bool_decide_unpack _); by vm_compute).
  assert (Forall plain lines) as Hplain
    by (constructor; [|constructor; [|constructor]];
        split; apply (bool_decide_unpack _); by vm_compute).
  destruct (X4_line_terminators "header" lines Hheader Hplain) as [Hsame Hlast].
  split_and!; [done..|]. apply Hlast; [done|done|by right].
Defined.

(** The first line of a text ends at its first line feed. *)
Lemma re_split_lines_first header rest :
  "010"%char ∉ header →
  ∃ line, re_split_lines (header ++ nl ++ rest) = line :: re_split_lines rest.
Proof.
  induction header as [|c header IH]; intros Hlf.
  { exists []. apply re_split_lines_lf. }
  apply not_elem_of_cons in Hlf as [Hc Hlf].
  destruct (decide (c = "013"%char ∧ header = [])) as [[-> ->]|Hcr].
  { exists []. apply re_split_lines_crlf. }
  destruct (IH Hlf) as [line Hline]. exists (c :: line).
  cbn [app]. rewrite re_split_lines_char; [by rewrite Hline|done|].
  intros -> Hhead. apply Hcr. split; [done|].
  destruct header as [|c' header]; [done|]. injection Hhead as ->.
  exfalso. apply Hlf. by left.
Qed.

(** Property X5: the header line is not read: two files that differ only in
    their first line, up to the first line feed, give the same lines and the
    same result or the same error. *)
Theorem X5_header_ignored header header' body :
  "010"%char ∉ header → "010"%char ∉ header' →
  get_lines (header ++ nl ++ body) = get_lines (header' ++ nl ++ body)
  ∧ parse (header ++ nl ++ body) = parse (header' ++ nl ++ body).
Proof.
  intros Hheader Hheader'.
  assert (get_lines (header ++ nl ++ body) = get_lines (header' ++ nl ++ body)) as Hlines.
  { apply get_lines_split.
    - by intros [_ ?]%app_eq_nil.
    - by intros [_ ?]%app_eq_nil.
    - destruct (re_split_lines_first header body Hheader) as [line ->].
      by destruct (re_split_lines_first header' body Hheader') as [line' ->]. }
  split; [done|]. by apply parse_get_lines.
Qed.

Lemma X5_witness :
  ("010"%char ∉ "AGENCY SITE")
  ∧ ("010"%char ∉ "")
  ∧ parse ("AGENCY SITE" ++ nl ++ "USGS 123456789012345 R=0* T=A*")
    = parse ("" ++ nl ++ "USGS 123456789012345 R=0* T=A*").
Proof.
  assert ("010"%char ∉ "AGENCY SITE") as Hheader by (apply (bool_decide_unpack _); by vm_compute).
  assert ("010"%char ∉ "") as Hheader' by (apply (bool_decide_unpack _); by vm_compute).
  split_and!; [done..|].
  exact (proj2 (X5_header_ignored "AGENCY SITE" "" "USGS 123456789012345 R=0* T=A*"
                  Hheader Hheader')).
Defined.

(** * The fields of a transaction *)

Lemma payloads_enumerate_from i lines :
  payloads (parse_line <$> enumerate_from i lines) = payload <$> lines.
Proof.
  revert i. induction lines as [|line lines IH]; intros i; [done|].
  cbn [enumerate_from]. unfold payloads in *. rewrite !fmap_cons. by rewrite IH.
Qed.

Lemma keys_enumerate_from i lines :
  (λ x : parsed_line, x.1.1) <$> (parse_line <$> enumerate_from i lines) = site_key <$> lines.
Proof.
  revert i. induction lines as [|line lines IH]; intros i; [done|].
  cbn [enumerate_from]. rewrite !fmap_cons. by rewrite IH.
Qed.

(** A block of a list is an image of the same block of the list it is the
    image of. *)
Lemma fmap_block {A B} (f : A → B) (l : list A) (l1 seg l2 : list B) :
  f <$> l = l1 ++ seg ++ l2 →
  seg = f <$> take (length seg) (drop (length l1) l).
Proof.
  intros Hl. rewrite fmap_take, fmap_drop, Hl.
  rewrite drop_app_length. by rewrite take_app_length.
Qed.

Lemma slice_site_key line :
  slice (site_key line) 0 5 = slice line 0 5
  ∧ slice (site_key line) 5 20 = slice line 5 20.
Proof.
  unfold site_key. rewrite !slice_nonneg by lia.
  change (Z.to_nat 20 - Z.to_nat 0)%nat with 20%nat.
  change (Z.to_nat 5 - Z.to_nat 0)%nat with 5%nat.
  change (Z.to_nat 20 - Z.to_nat 5)%nat with 15%nat.
  change (Z.to_nat 0) with 0%nat. change (Z.to_nat 5) with 5%nat.
  rewrite !drop_0. split.
  - rewrite take_take. by rewrite Nat.min_l by lia.
  - change (take 20 line) with (take (5 + 15) line).
    rewrite <- take_drop_commute, take_take. by rewrite Nat.min_l by lia.
Qed.

(** The block of lines of a transaction. *)
Lemma transaction_block lines t :
  t ∈ get_transactions lines →
  ∃ a n : nat,
    (0 < n)%nat ∧ (a + n ≤ length lines)%nat
    ∧ line_numbers t = line_number <$> seq a n
    ∧ key_value_pairs t = join " " (payload <$> take n (drop a lines))
    ∧ ∀ line, line ∈ take n (drop a lines) →
        agencyCode t = slice line 0 5 ∧ siteNumber t = slice line 5 20.
Proof.
  rewrite get_transactions_segments. intros (seg & -> & Hseg)%list_elem_of_fmap.
  pose proof (segments_not_nil _ _ _ Hseg) as Hne.
  destruct (segments_uniform line_break (λ x : parsed_line, x.1.1)
              (parse_line <$> enumerate lines) seg) as (h & rest & Hh & Hkey); [|done|].
  { intros x y. unfold line_break. intros [Hxy _]%orb_false_elim.
    apply bool_decide_eq_false in Hxy. by destruct (decide (x.1.1 = y.1.1)). }
  apply segments_block in Hseg as (l1 & l2 & Hl).
  pose proof (numbers_parsed_lines lines) as Hnumbers.
  pose proof (payloads_enumerate_from 0 lines) as Hpayloads.
  pose proof (keys_enumerate_from 0 lines) as Hkeys.
  fold (enumerate lines) in Hpayloads, Hkeys.
  unfold numbers, payloads in *.
  rewrite Hl in Hnumbers, Hpayloads, Hkeys.
  rewrite !fmap_app in Hnumbers.
  assert (length l1 + length seg + length l2 = length lines)%nat as Hlen.
  { apply (f_equal length) in Hnumbers.
    rewrite !length_app, !length_fmap, length_seq in Hnumbers. lia. } rewrite !fmap_app in Hpayloads.
  rewrite !fmap_app in Hkeys.
  symmetry in Hnumbers, Hpayloads, Hkeys.
  apply fmap_block in Hnumbers. apply fmap_block in Hpayloads. apply fmap_block in Hkeys.
  rewrite !length_fmap in Hnumbers. rewrite !length_fmap in Hpayloads.
  rewrite !length_fmap in Hkeys.
  exists (length l1), (length seg). split_and!.
  - destruct seg; [done|cbn; lia].
  - lia.
  - cbn. unfold numbers. rewrite Hnumbers, drop_seq, take_seq.
    do 2 f_equal; lia.
  - cbn. unfold payloads. by rewrite Hpayloads.
  - intros line Hline.
    assert (site_key line ∈ (λ x : parsed_line, x.1.1) <$> seg) as Hin.
    { rewrite Hkeys. by apply list_elem_of_fmap_2. }
    apply list_elem_of_fmap in Hin as (x & Hx & Hin).
    rewrite (Hkey x Hin) in Hx. cbn. rewrite Hh. cbn [head from_option].
    rewrite <- Hx. apply slice_site_key.
Qed.

(** Property X6: every transaction [get_transactions] returns is made of a
    block of one or more consecutive lines: its line numbers are the numbers of
    these lines, its [key_value_pairs] is the text of these lines from offset 21
    on, joined by one space, and its agency code and site number are the first
    5 characters and the characters 5 to 19 of each of these lines. *)
Theorem X6_transaction_fields lines t :
  t ∈ get_transactions lines →
  ∃ a n : nat,
    (0 < n)%nat ∧ (a + n ≤ length lines)%nat
    ∧ line_numbers t = line_number <$> seq a n
    ∧ key_value_pairs t = join " " (payload <$> take n (drop a lines))
    ∧ ∀ line, line ∈ take n (drop a lines) →
        agencyCode t = slice line 0 5 ∧ siteNumber t = slice line 5 20.
Proof. apply transaction_block. Qed.

Lemma X6_witness :
  let lines :=
    ["USGS 123456789012345 R=0* T=A*";
     "USGS 123456789012345 12='NAME'*";
     "USGS 999999999999999 R=0* T=M*"] in
  let t := {| agencyCode := "USGS "; siteNumber := "123456789012345";
              key_value_pairs := "R=0* T=A* 12='NAME'*"; line_numbers := [2; 3] |} in
  t ∈ get_transactions lines
  ∧ ∃ a n : nat,
      (0 < n)%nat ∧ (a + n ≤ length lines)%nat
      ∧ line_numbers t = line_number <$> seq a n
      ∧ key_value_pairs t = join " " (payload <$> take n (drop a lines))
      ∧ ∀ line, line ∈ take n (drop a lines) →
          agencyCode t = slice line 0 5 ∧ siteNumber t = slice line 5 20.
Proof.
  intros lines t.
  assert (t ∈ get_transactions lines) as Ht.
  { apply (bool_decide_unpack _). by vm_compute. }
  split; [done|]. exact (X6_transaction_fields lines t Ht).
Defined.

(** * The number of transactions *)

Lemma length_segments {A} (brk : A → A → bool) (l : list A) :
  (length (segments brk l) ≤ length l)%nat ∧ (segments brk l = [] ↔ l = []).
Proof.
  induction l as [|x l [IHlen IHnil]]; [done|]. split.
  2:{ destruct (segments_head brk x l) as (seg & segs & ->). done. }
  destruct l as [|y l]; [cbn; lia|].
  rewrite segments_cons_cons.
  destruct (segments brk (y :: l)) as [|seg segs] eqn:Hsegs.
  - cbn. lia.
  - destruct (brk x y); cbn [length] in *; lia.
Qed.

Lemma get_transactions_count lines :
  (length (get_transactions lines) ≤ length lines)%nat
  ∧ (get_transactions lines = [] ↔ lines = []).
Proof.
  rewrite get_transactions_segments. rewrite length_fmap.
  destruct (length_segments line_break (parse_line <$> enumerate lines)) as [Hlen Hnil].
  unfold enumerate in *. rewrite length_fmap, length_enumerate_from in Hlen.
  split; [done|]. split.
  - intros Hsegs%fmap_nil_inv. apply Hnil in Hsegs. apply fmap_nil_inv in Hsegs.
    by destruct lines.
  - by intros ->.
Qed.

(** Property X7: [get_transactions] returns at most as many transactions as
    there are lines, and none exactly when there is no line. *)
Theorem X7_transaction_count lines :
  (length (get_transactions lines) ≤ length lines)%nat
  ∧ (get_transactions lines = [] ↔ lines = []).
Proof. apply get_transactions_count. Qed.

(** Property X8: a file of at most 30000 lines after the header never
    fails with [TooManyTransactions]. *)
Theorem X8_small_file_within_limit content lines :
  get_lines content = Return lines →
  len lines ≤ MAX_TRANSACTIONS →
  parse content ≠ raise TooManyTransactions.
Proof.
  intros Hlines Hlen [Hraise|(lines' & Hlines' & Hstage)]%parse_Raise; [congruence|].
  assert (lines' = lines) as -> by congruence.
  destruct Hstage as [[_ Hmany]|[_ [Hloop|(results & _ & _ & [=])]]].
  - destruct (get_transactions_count lines) as [Hbound _]. unfold too_many_transactions in Hmany.
    destruct (Z.gtb_spec (len (get_transactions lines)) MAX_TRANSACTIONS); [|done].
    unfold len in *. lia.
  - by apply parse_transactions_not_too_many in Hloop.
Qed.

Lemma X8_witness :
  let content := "header" ++ nl ++ "USGS 123456789012345 R=0* T=A*" ++ nl in
  get_lines content = Return ["USGS 123456789012345 R=0* T=A*"]
  ∧ len ["USGS 123456789012345 R=0* T=A*"] ≤ MAX_TRANSACTIONS
  ∧ parse content ≠ raise TooManyTransactions.
Proof.
  intros content.
  assert (get_lines content = Return ["USGS 123456789012345 R=0* T=A*"]) as Hlines
    by (by vm_compute).
  assert (len ["USGS 123456789012345 R=0* T=A*"] ≤ MAX_TRANSACTIONS) as Hlen
    by (by vm_compute).
  split_and!; [done..|].
  exact (X8_small_file_within_limit content _ Hlines Hlen).
Defined.

(** * Reading written tokens *)

Lemma span_length_app_all p ws rest :
  Forall (λ c, p c = true) ws →
  span_length p (ws ++ rest) = (length ws + span_length p rest)%nat.
Proof. induction 1 as [|c ws Hc _ IH]; [done|]. cbn. by rewrite Hc, IH. Qed.

Lemma span_length_all p s : span_length p s = length s → Forall (λ c, p c = true) s.
Proof.
  induction s as [|c s IH]; [constructor|]. cbn.
  destruct (p c) eqn:Hc; [|done]. intros [= Hs]. constructor; auto.
Qed.

Lemma write_tokens_cons t tokens :
  write_tokens (t :: tokens)
  = token_key t ++ token_separator t :: token_value t
    ++ token_ending t :: token_space t ++ write_tokens tokens.
Proof.
  change (write_tokens (t :: tokens)) with (write_token t ++ write_tokens tokens).
  unfold write_token. rewrite <- (assoc_L (++)). cbn [app]. f_equal. f_equal.
  by rewrite <- (assoc_L (++)).
Qed.

Lemma write_tokens_no_leading_space tokens :
  Forall well_formed tokens →
  Forall (λ t, no_leading_space (token_key t)) tokens →
  no_leading_space (write_tokens tokens).
Proof.
  destruct tokens as [|t tokens]; [done|].
  intros [(_ & _ & _ & Hsep & _) _]%Forall_cons_1 [Hkey _]%Forall_cons_1.
  rewrite write_tokens_cons. unfold no_leading_space.
  rewrite span_length_app_stop; [done|]. by apply is_separator_not_space.
Qed.

Lemma parse_pairs_written tokens acc :
  Forall well_formed tokens →
  Forall (λ t, no_leading_space (token_key t)) (tail tokens) →
  parse_pairs (write_tokens tokens) acc = Return (acc ++ (token_pair <$> tokens)).
Proof.
  revert acc. induction tokens as [|t tokens IH]; intros acc Hok Htail.
  { rewrite parse_pairs_eq. cbn. by rewrite app_nil_r. }
  apply Forall_cons_1 in Hok as [Ht Hok]. cbn [tail] in Htail.
  destruct Ht as (Hkey & Hclean & Hvalue & Hsep & Hend & Hspace).
  rewrite parse_pairs_eq, write_tokens_cons.
  destruct (token_key t ++ token_separator t :: token_value t
            ++ token_ending t :: token_space t ++ write_tokens tokens)
    as [|c s] eqn:Hs; [by destruct (token_key t)|]. rewrite <- Hs. clear c s Hs.
  rewrite (parse_pair_clean _ _ _ _ _ Hkey Hclean Hvalue Hsep Hend).
  rewrite (span_length_app_all _ _ _ Hspace).
  rewrite (write_tokens_no_leading_space tokens Hok Htail), Nat.add_0_r.
  rewrite drop_app_length. rewrite IH.
  - rewrite fmap_cons. by rewrite <- (assoc_L (++)).
  - done.
  - destruct tokens; [done|]. by apply Forall_cons_1 in Htail as [_ ?].
Qed.

(** Property X9: a list of tokens written one after the other is read back
    by [parse_key_value_pairs] as the list of their keys and values, in order,
    when it is not empty and each token has a key without ['='], ['#'], ['*']
    and ['$'], one of ['='] and ['#'] as separator, a value without ['*'] and
    ['$'], one of ['*'] and ['$'] as ending token and only whitespace after it,
    and no key after the first starts with whitespace. *)
Theorem X9_parse_written_tokens tokens :
  tokens ≠ [] →
  Forall well_formed tokens →
  Forall (λ t, no_leading_space (token_key t)) (tail tokens) →
  parse_key_value_pairs (write_tokens tokens) = Return (token_pair <$> tokens).
Proof.
  intros Hne Hok Htail. unfold parse_key_value_pairs.
  rewrite bool_decide_eq_false_2.
  - by rewrite parse_pairs_written.
  - destruct tokens as [|t tokens]; [done|]. rewrite write_tokens_cons.
    by destruct (token_key t).
Qed.

Lemma X9_witness :
  let tokens :=
    [ {| token_key := "R"; token_separator := "="; token_value := "0";
         token_ending := "*"; token_space := " " |};
      {| token_key := "12"; token_separator := "#"; token_value := "'A=B'";
         token_ending := "$"; token_space := "" |} ] in
  write_tokens tokens = "R=0* 12#'A=B'$"
  ∧ parse_key_value_pairs (write_tokens tokens) = Return [("R", "0"); ("12", "'A=B'")].
Proof.
  intros tokens. split; [done|].
  apply (X9_parse_written_tokens tokens).
  - done.
  - apply Forall_cons_2; [|apply Forall_cons_2; [|apply Forall_nil_2]];
      (split_and!; [reflexivity..|]); cbn [token_space].
    + apply Forall_cons_2; [reflexivity|apply Forall_nil_2].
    + apply Forall_nil_2.
  - apply Forall_cons_2; [reflexivity|apply Forall_nil_2].
Defined.

(** * The errors and the results of the token parser *)

Lemma parse_pair_Raise s e :
  parse_pair s = Raise e →
  (e = ParseErr (MissingSeparator s) ∧ nosep s)
  ∨ (e = ParseErr (MissingEndingToken s) ∧ ¬ nosep s ∧ clean s).
Proof.
  unfold parse_pair, SEPARATOR_TOKENS_search, VALUE_ENDING_TOKENS_search, nosep, clean.
  destruct (find_index is_separator s) as [i|]; cbn [mbind option_bind].
  - destruct (find_index is_ending s) as [j|]; cbn [mbind option_bind]; [done|].
    intros [= <-]. by right.
  - intros [= <-]. by left.
Qed.

(** The string that remains after a pair. *)
Lemma parse_pair_rest s k v rest :
  parse_pair s = Return (k, v, rest) →
  ∃ j e, find_index is_ending s = Some j ∧ s !! j = Some e ∧ is_ending e = true
         ∧ rest = drop (S j + span_length is_space (drop (S j) s)) s.
Proof.
  unfold parse_pair, SEPARATOR_TOKENS_search, VALUE_ENDING_TOKENS_search.
  destruct (find_index is_separator s) as [i|]; cbn [mbind option_bind]; [|done].
  destruct (find_index is_ending s) as [j|] eqn:Hj; cbn [mbind option_bind]; [|done].
  cbn [m_end m_start]. intros [= _ _ <-].
  apply find_index_Some in Hj as (_ & (e & He & Hending) & _).
  exists j, e. split_and!; [done..|].
  rewrite slice_from_nonneg by lia. f_equal. lia.
Qed.

Lemma parse_pairs_Raise n s acc e :
  (length s ≤ n)%nat → parse_pairs s acc = Raise e →
  ∃ r, r ≠ [] ∧ r `suffix_of` s
       ∧ ((e = ParseErr (MissingSeparator r) ∧ nosep r)
          ∨ (e = ParseErr (MissingEndingToken r) ∧ ¬ nosep r ∧ clean r)).
Proof.
  revert s acc. induction n as [|n IH]; intros s acc Hlen; rewrite parse_pairs_eq.
  - by destruct s; [|cbn in Hlen; lia].
  - destruct s as [|c s']; [done|]. set (s := c :: s') in *.
    destruct (parse_pair s) as [[[k v] rest]|e'] eqn:Hpair.
    + intros Hrest. apply parse_pair_shorter in Hpair as Hshorter.
      apply IH in Hrest as (r & Hr & Hsuffix & He); [|lia].
      exists r. split_and!; [done| |done]. etrans; [done|].
      apply parse_pair_rest in Hpair as (j & _ & _ & _ & _ & ->).
      apply suffix_drop.
    + intros [= <-]. exists s. split_and!; [done..|]. by apply parse_pair_Raise.
Qed.

(** Property X10: [parse_key_value_pairs] fails with [NoTokens] exactly on
    the empty string. Every other failure names the part of the string it could
    not read: a non-empty end of the string that has no separator
    ([MissingSeparator]) or has a separator and no ending token
    ([MissingEndingToken]). It raises nothing else. *)
Theorem X10_token_errors s :
  (parse_key_value_pairs s = raise NoTokens ↔ s = [])
  ∧ ∀ e, parse_key_value_pairs s = Raise e →
      (s = [] ∧ e = ParseErr NoTokens)
      ∨ ∃ r, r ≠ [] ∧ r `suffix_of` s
             ∧ ((e = ParseErr (MissingSeparator r) ∧ nosep r)
                ∨ (e = ParseErr (MissingEndingToken r) ∧ ¬ nosep r ∧ clean r)).
Proof.
  assert (∀ e, parse_key_value_pairs s = Raise e →
      (s = [] ∧ e = ParseErr NoTokens)
      ∨ ∃ r, r ≠ [] ∧ r `suffix_of` s
             ∧ ((e = ParseErr (MissingSeparator r) ∧ nosep r)
                ∨ (e = ParseErr (MissingEndingToken r) ∧ ¬ nosep r ∧ clean r))) as Hraise.
  { intros e. unfold parse_key_value_pairs. case_bool_decide as Hs.
    - intros [= <-]. by left.
    - intros Hpairs. right. by apply (parse_pairs_Raise (length s) s []). }
  split; [|done]. split; [|by intros ->].
  intros [[? _]|(r & _ & _ & [[[=] _]|[[=] _]])]%Hraise. done.
Qed.

Lemma parse_pairs_ends n s acc res :
  (length s ≤ n)%nat → parse_pairs s acc = Return res →
  s = [] ∨ ∃ body e ws, s = body ++ e :: ws ∧ is_ending e = true
                        ∧ Forall (λ c, is_space c = true) ws.
Proof.
  revert s acc. induction n as [|n IH]; intros s acc Hlen; rewrite parse_pairs_eq.
  - destruct s; [by left|cbn in Hlen; lia].
  - destruct s as [|c s']; [by left|]. set (s := c :: s') in *.
    destruct (parse_pair s) as [[[k v] rest]|e'] eqn:Hpair; [|done].
    intros Hrest. right. apply parse_pair_shorter in Hpair as Hshorter.
    apply parse_pair_rest in Hpair as (j & e & Hj & He & Hending & Hdrop).
    apply IH in Hrest as [Hnil|(body & e' & ws & Hbody & He' & Hws)]; [| |lia].
    + exists (take j s), e, (drop (S j) s). split_and!; [|done|].
      * rewrite <- (take_drop j s) at 1. f_equal. by apply drop_S.
      * apply span_length_all.
        pose proof (span_length_le is_space (drop (S j) s)) as Hle.
        apply (f_equal length) in Hdrop. rewrite Hnil, length_drop in Hdrop.
        rewrite length_drop in Hle |- *. cbn [length] in Hdrop. lia.
    + exists (take (S j + span_length is_space (drop (S j) s)) s ++ body), e', ws.
      split_and!; [|done..]. rewrite <- (assoc_L (++)), <- Hbody, Hdrop.
      by rewrite take_drop.
Qed.

(** Property X11: every string [parse_key_value_pairs] accepts ends with an
    ending token, ['*'] or ['$'], followed by whitespace only: a string whose
    last token is not ended is never accepted. *)
Theorem X11_accepted_string_ends s kv_pairs :
  parse_key_value_pairs s = Return kv_pairs →
  ∃ body e ws, s = body ++ e :: ws ∧ (e = "*"%char ∨ e = "$"%char)
               ∧ Forall (λ c, is_space c = true) ws.
Proof.
  unfold parse_key_value_pairs. case_bool_decide as Hs; [done|].
  intros [?|(body & e & ws & -> & He & Hws)]%(parse_pairs_ends (length s)); [done| |done].
  exists body, e, ws. split_and!; [done| |done].
  unfold is_ending in He. by apply bool_decide_eq_true in He.
Qed.

Lemma X11_witness :
  parse_key_value_pairs "R=0* T#A$  " = Return [("R", "0"); ("T", "A")]
  ∧ ∃ body e ws, "R=0* T#A$  " = body ++ e :: ws ∧ (e = "*"%char ∨ e = "$"%char)
                 ∧ Forall (λ c, is_space c = true) ws.
Proof.
  assert (parse_key_value_pairs "R=0* T#A$  " = Return [("R", "0"); ("T", "A")]) as Hparse
    by (by vm_compute).
  split; [done|]. exact (X11_accepted_string_ends _ _ Hparse).
Defined.

(** Property X12: a list of pairs [parse_key_value_pairs] returns is never
    empty; no key contains a separator character, no value contains an ending
    token, no key after the first starts with whitespace, and the first key is
    the string up to its first separator. *)
Theorem X12_token_result s kv_pairs :
  parse_key_value_pairs s = Return kv_pairs →
  kv_pairs ≠ []
  ∧ Forall (λ p, nosep p.1 ∧ clean p.2) kv_pairs
  ∧ Forall (λ p, no_leading_space p.1) (tail kv_pairs)
  ∧ ∃ i, find_index is_separator s = Some i ∧ fst <$> head kv_pairs = Some (take i s).
Proof.
  unfold parse_key_value_pairs. case_bool_decide as Hs; [done|].
  intros (kv & -> & Hchained & Hfirst)%(parse_pairs_chained (length s)); [|done].
  cbn [app]. destruct (chained_serializable kv Hchained) as [Hok Htail].
  destruct kv as [|[k v] kv]; [done|]. destruct Hfirst as (i & Hi & ->).
  split_and!; [done..|]. by exists i.
Qed.

Lemma X12_witness :
  parse_key_value_pairs "R=0* 12#'A=B'$" = Return [("R", "0"); ("12", "'A=B'")]
  ∧ [("R", "0"); ("12", "'A=B'")] ≠ []
  ∧ Forall (λ p : str * str, nosep p.1 ∧ clean p.2) [("R", "0"); ("12", "'A=B'")].
Proof.
  assert (parse_key_value_pairs "R=0* 12#'A=B'$" = Return [("R", "0"); ("12", "'A=B'")])
    as Hparse by (by vm_compute).
  split; [done|].
  destruct (X12_token_result _ _ Hparse) as (Hne & Hok & _). by split.
Defined.

(** * The attributes of a transaction *)

Lemma values_of_cons attr p kv_pairs :
  values_of attr (p :: kv_pairs)
  = (if decide (KEY_TO_ATTR_MAPPING !! p.1 = Some attr) then [p.2] else [])
    ++ values_of attr kv_pairs.
Proof. unfold values_of. rewrite filter_cons. by case_decide. Qed.

Lemma translate_fold_lookup kv_pairs result attr :
  foldl translate_step result kv_pairs !! attr
  = match last (values_of attr kv_pairs) with
    | Some value => Some value
    | None => result !! attr
    end.
Proof.
  revert result. induction kv_pairs as [|[k v] kv IH]; intros result; [done|].
  cbn [foldl]. rewrite IH, values_of_cons. cbn [fst snd].
  unfold translate_step. cbn [fst snd].
  destruct (KEY_TO_ATTR_MAPPING !! k) as [attr'|] eqn:Hk.
  - destruct (decide (attr' = attr)) as [->|Hne].
    + rewrite decide_True by done. cbn [app].
      destruct (values_of attr kv) as [|w ws] eqn:Hvalues.
      * cbn [last]. by rewrite lookup_insert_eq.
      * rewrite last_cons_cons. destruct (last (w :: ws)) eqn:Hlast; [done|].
        by apply last_None in Hlast.
    + rewrite decide_False by congruence. cbn [app].
      destruct (last (values_of attr kv)); [done|]. by rewrite lookup_insert_ne.
  - rewrite decide_False by done. done.
Qed.

Lemma translate_lookup kv_pairs attr :
  translate_keys_to_attributes kv_pairs !! attr = last (values_of attr kv_pairs).
Proof.
  change (translate_keys_to_attributes kv_pairs) with (foldl translate_step ∅ kv_pairs).
  rewrite translate_fold_lookup. by destruct (last _).
Qed.

Lemma elem_of_values_of attr kv_pairs value :
  value ∈ values_of attr kv_pairs
  ↔ ∃ key, (key, value) ∈ kv_pairs ∧ (key, attr) ∈ KEY_TO_ATTR_ITEMS.
Proof.
  unfold values_of. rewrite list_elem_of_fmap. split.
  - intros ([k v] & -> & [Hk Hin]%list_elem_of_filter). exists k.
    split; [done|]. by apply KEY_TO_ATTR_MAPPING_lookup.
  - intros (k & Hin & Hk). exists (k, value). split; [done|].
    apply list_elem_of_filter. split; [|done]. by apply KEY_TO_ATTR_MAPPING_lookup.
Qed.

(** Property X13: in the dictionary [translate_keys_to_attributes] builds,
    an attribute has the value of the last pair whose code the table maps to
    it, and is absent when there is no such pair; so pairs with a code that is
    not in the table are ignored, and every attribute of the dictionary is an
    attribute name of the table. *)
Theorem X13_translate_last_wins kv_pairs attr :
  translate_keys_to_attributes kv_pairs !! attr = last (values_of attr kv_pairs)
  ∧ (∀ value, translate_keys_to_attributes kv_pairs !! attr = Some value →
       attr ∈ attribute_names
       ∧ ∃ key, (key, value) ∈ kv_pairs ∧ (key, attr) ∈ KEY_TO_ATTR_ITEMS).
Proof.
  split; [apply translate_lookup|]. intros value. rewrite translate_lookup.
  intros Hlast. assert (value ∈ values_of attr kv_pairs) as Hin.
  { apply last_Some in Hlast as [l ->]. apply elem_of_app. right. by left. }
  apply elem_of_values_of in Hin as (key & Hin & Hkey). split; [|by exists key].
  unfold attribute_names. apply list_elem_of_fmap. by exists (key, attr).
Qed.

(** * The checks of a transaction *)

Lemma not_duplicate_station_name kv_pairs :
  has_duplicate_station_name_keys kv_pairs = false ↔ (station_name_count kv_pairs ≤ 1)%nat.
Proof.
  pose proof (has_duplicate_station_name_keys_spec kv_pairs) as Hspec.
  destruct (has_duplicate_station_name_keys kv_pairs).
  - split; [done|]. intros Hcount. assert (2 ≤ station_name_count kv_pairs)%nat; [|lia].
    by apply Hspec.
  - split; [|done]. intros _.
    destruct (decide (2 ≤ station_name_count kv_pairs)%nat) as [Hcount|]; [|lia].
    by apply Hspec in Hcount.
Qed.

Lemma no_transaction_type kv_pairs :
  has_transaction_type kv_pairs = false ↔ transaction_type_count kv_pairs ≠ 1%nat.
Proof.
  pose proof (has_transaction_type_spec kv_pairs) as Hspec.
  destruct (has_transaction_type kv_pairs).
  - split; [done|]. intros Hcount. destruct Hcount. by apply Hspec.
  - split; [|done]. intros _ Hcount. by apply Hspec in Hcount.
Qed.

(** [validate_and_normalize] by its checks, in their order. *)
Lemma validate_and_normalize_checks transaction kv_pairs :
  validate_and_normalize transaction kv_pairs =
  if decide (2 ≤ station_name_count kv_pairs)%nat then
    raise (DuplicateStationName (line_numbers transaction))
  else if decide (transaction_type_count kv_pairs ≠ 1%nat) then
    raise (MissingTransactionType (line_numbers transaction))
  else if decide (invalid_key_codes kv_pairs ≠ []) then
    raise (InvalidCodes (line_numbers transaction) (invalid_key_codes kv_pairs))
  else if decide (default "" (identified transaction kv_pairs !! "transactionType")
                  ∉ ["A"; "M"]) then
    raise (InvalidTransactionType (line_numbers transaction))
  else normalize_values (identified transaction kv_pairs).
Proof.
  unfold validate_and_normalize.
  destruct (has_duplicate_station_name_keys kv_pairs) eqn:Hduplicate.
  { apply has_duplicate_station_name_keys_spec in Hduplicate. by rewrite decide_True. }
  apply not_duplicate_station_name in Hduplicate. rewrite decide_False by lia.
  destruct (has_transaction_type kv_pairs) eqn:Htype; cbn [negb].
  - apply has_transaction_type_spec in Htype.
    rewrite (decide_False (P := transaction_type_count kv_pairs ≠ 1%nat)) by tauto.
    fold (identified transaction kv_pairs).
    case_bool_decide; case_decide; try done.
    case_bool_decide; case_decide; done.
  - apply no_transaction_type in Htype. by rewrite decide_True.
Qed.

Lemma elem_of_invalid_key_codes kv_pairs key :
  key ∈ invalid_key_codes kv_pairs ↔ key ∈ kv_pairs.*1 ∧ key ∉ KEY_TO_ATTR_ITEMS.*1.
Proof.
  unfold invalid_key_codes. split.
  - intros (p & -> & [Hp Hin]%list_elem_of_filter)%list_elem_of_fmap.
    split; [by apply list_elem_of_fmap_2|]. by apply not_elem_of_list_to_map.
  - intros [(p & -> & Hin)%list_elem_of_fmap Hkey]. apply list_elem_of_fmap.
    exists p. split; [done|].
    apply list_elem_of_filter. split; [|done]. by apply not_elem_of_list_to_map.
Qed.


Lemma transaction_type_code key :
  KEY_TO_ATTR_MAPPING !! key = Some "transactionType" ↔ key = "T".
Proof.
  split.
  - rewrite KEY_TO_ATTR_MAPPING_lookup. intros Hin.
    assert (Forall (λ p, p.2 = "transactionType" → p.1 = "T") KEY_TO_ATTR_ITEMS) as Hall.
    { apply (bool_decide_unpack _). by vm_compute. }
    rewrite Forall_forall in Hall. by apply (Hall _ Hin).
  - intros ->. by vm_compute.
Qed.

Lemma identified_lookup transaction kv_pairs attr :
  attr ≠ "agencyCode" → attr ≠ "siteNumber" →
  identified transaction kv_pairs !! attr = last (values_of attr kv_pairs).
Proof.
  intros Hagency Hsite. unfold identified.
  rewrite !lookup_insert_ne by done. apply translate_lookup.
Qed.

(** With exactly one key ['T'], the transaction type is the value of that
    pair. *)
Lemma transaction_type_value transaction kv_pairs :
  transaction_type_count kv_pairs = 1%nat →
  ∃ value, identified transaction kv_pairs !! "transactionType" = Some value
           ∧ ("T", value) ∈ kv_pairs
           ∧ ∀ value', ("T", value') ∈ kv_pairs → value' = value.
Proof.
  unfold transaction_type_count. intros Hcount.
  rewrite identified_lookup by done. unfold values_of.
  rewrite (list_filter_iff _ (λ p, p.1 = "T")) by (intros p; apply transaction_type_code).
  destruct (filter (λ p, p.1 = "T") kv_pairs) as [|[k v] [|p' l]] eqn:Hfilter; try done.
  assert ((k, v) ∈ filter (λ p : str * str, p.1 = "T") kv_pairs) as Hin
    by (rewrite Hfilter; by left).
  apply list_elem_of_filter in Hin as [Hk Hin]. cbn in Hk. subst k.
  exists v. split_and!; [done..|]. intros value' Hvalue'.
  assert (("T", value') ∈ filter (λ p : str * str, p.1 = "T") kv_pairs) as Hin'
    by (by apply list_elem_of_filter).
  rewrite Hfilter in Hin'. apply list_elem_of_singleton in Hin'. congruence.
Qed.

(** Property X15: the checks of a transaction fail with
    [InvalidTransactionType] exactly when the pairs have at most one station
    name code, exactly one key ['T'], only codes of the table, and the value of
    the key ['T'] is neither ['A'] nor ['M']; the error carries the line numbers
    of the transaction. *)
Theorem X15_invalid_transaction_type transaction kv_pairs line_numbers' :
  validate_and_normalize transaction kv_pairs = raise (InvalidTransactionType line_numbers')
  ↔ (station_name_count kv_pairs ≤ 1)%nat
    ∧ transaction_type_count kv_pairs = 1%nat
    ∧ (∀ key, key ∈ kv_pairs.*1 → key ∈ KEY_TO_ATTR_ITEMS.*1)
    ∧ (∃ value, ("T", value) ∈ kv_pairs ∧ value ≠ "A" ∧ value ≠ "M")
    ∧ line_numbers' = line_numbers transaction.
Proof.
  rewrite validate_and_normalize_checks.
  assert ((∀ key, key ∈ kv_pairs.*1 → key ∈ KEY_TO_ATTR_ITEMS.*1)
          ↔ invalid_key_codes kv_pairs = []) as ->.
  { split.
    - intros Hall. destruct (invalid_key_codes kv_pairs) as [|key codes] eqn:Hcodes; [done|].
      assert (key ∈ invalid_key_codes kv_pairs) as Hkey by (rewrite Hcodes; by left).
      apply elem_of_invalid_key_codes in Hkey as [Hin Hnot]. destruct Hnot. by apply Hall.
    - intros Hnil key Hin.
      destruct (decide (key ∈ KEY_TO_ATTR_ITEMS.*1)) as [|Hnot]; [done|].
      assert (key ∈ invalid_key_codes kv_pairs) as Hkey
        by (by apply elem_of_invalid_key_codes).
      rewrite Hnil in Hkey. by apply elem_of_nil in Hkey. }
  destruct (decide (2 ≤ station_name_count kv_pairs)%nat) as [Hcount|Hcount].
  { split; [done|]. intros (? & _). lia. }
  destruct (decide (transaction_type_count kv_pairs ≠ 1%nat)) as [Htype|Htype].
  { split; [done|]. by intros (_ & ? & _). }
  assert (transaction_type_count kv_pairs = 1%nat) as Hone by lia.
  destruct (decide (invalid_key_codes kv_pairs ≠ [])) as [Hcodes|Hcodes].
  { split; [done|]. by intros (_ & _ & ? & _). }
  destruct (transaction_type_value transaction kv_pairs Hone) as (v & Hv & Hin & Hunique).
  rewrite Hv. cbn [default].
  assert (v ∉ ["A"; "M"] ↔ ∃ value, ("T", value) ∈ kv_pairs ∧ value ≠ "A" ∧ value ≠ "M")
    as Hvalue.
  { split.
    - intros Hnot. exists v. split_and!; [done|..]; intros ->; apply Hnot; repeat constructor.
    - intros (value & Hvalue & HA & HM). rewrite (Hunique _ Hvalue) in HA, HM.
      intros [->|[->|[]%elem_of_nil]%elem_of_cons]%elem_of_cons; done. }
  case_decide as Hdec.
  - split.
    + intros [= <-]. split_and!; [lia|done| |by apply Hvalue|done].
      by destruct (decide (invalid_key_codes kv_pairs = [])).
    + by intros (_ & _ & _ & _ & ->).
  - split; [by intros ?%normalize_values_not_ParseErr|].
    intros (_ & _ & _ & ?%Hvalue & _). done.
Qed.

(** * The loop of [parse] *)

(** What one iteration returns. *)
Lemma parse_transaction_Return transaction result :
  parse_transaction transaction = Return result ↔
  ∃ kv_pairs,
    parse_key_value_pairs (key_value_pairs transaction) = Return kv_pairs
    ∧ (station_name_count kv_pairs ≤ 1)%nat
    ∧ transaction_type_count kv_pairs = 1%nat
    ∧ invalid_key_codes kv_pairs = []
    ∧ default "" (identified transaction kv_pairs !! "transactionType") ∈ ["A"; "M"]
    ∧ normalize_values (identified transaction kv_pairs) = Return result.
Proof.
  unfold parse_transaction.
  destruct (parse_key_value_pairs (key_value_pairs transaction)) as [kv_pairs|[err|]].
  - cbn [mbind outcome_bind]. rewrite validate_and_normalize_checks. split.
    + intros Hresult. exists kv_pairs. repeat case_decide; try done.
      split_and!; [done|lia|lia| |  |done].
      * by destruct (decide (invalid_key_codes kv_pairs = [])).
      * by destruct (decide (default "" (identified transaction kv_pairs !! "transactionType")
                             ∈ ["A"; "M"])).
    + intros (kv & [= <-] & Hcount & Htype & Hcodes & Hvalue & Hresult).
      rewrite decide_False by lia.
      rewrite (decide_False (P := transaction_type_count kv_pairs ≠ 1%nat)) by lia.
      rewrite (decide_False (P := invalid_key_codes kv_pairs ≠ [])) by auto.
      by rewrite decide_False by auto.
  - split; [done|]. by intros (kv & ? & _).
  - split; [done|]. by intros (kv & ? & _).
Qed.

(** An error of one iteration carries the line numbers of the transaction. *)
Lemma parse_transaction_error_lines transaction e :
  parse_transaction transaction = raise e →
  error_lines e = Some (line_numbers transaction)
  ∧ ∀ line_numbers' err, e = TokenError line_numbers' err →
      parse_key_value_pairs (key_value_pairs transaction) = raise err.
Proof.
  unfold parse_transaction.
  destruct (parse_key_value_pairs (key_value_pairs transaction)) as [kv_pairs|[err|]];
    [|intros [= <-]; split; [done|]; by intros ? ? [= <- <-]|done].
  cbn [mbind outcome_bind]. rewrite validate_and_normalize_checks.
  repeat case_decide; try (intros [= <-]; split; [done|]; by intros ? ? [=]).
  by intros ?%normalize_values_not_ParseErr.
Qed.

Lemma parse_transactions_Return transactions results all :
  parse_transactions transactions results = Return all ↔
  ∃ more, all = results ++ more
          ∧ Forall2 (λ transaction result, parse_transaction transaction = Return result)
              transactions more.
Proof.
  revert results all. induction transactions as [|t ts IH]; intros results all.
  - cbn. split.
    + intros [= <-]. exists []. by rewrite app_nil_r.
    + intros (more & -> & ->%Forall2_nil_inv_l). by rewrite app_nil_r.
  - cbn [parse_transactions]. destruct (parse_transaction t) as [r|e] eqn:Ht.
    + cbn [mbind outcome_bind]. rewrite IH. split.
      * intros (more & -> & Hmore). exists (r :: more).
        rewrite <- (assoc_L (++)). split; [done|]. by constructor.
      * intros (more & -> & Hmore).
        apply Forall2_cons_inv_l in Hmore as (r' & more' & Hr' & Hmore' & ->).
        assert (r' = r) as -> by congruence.
        exists more'. by rewrite <- (assoc_L (++)).
    + split; [done|]. intros (more & _ & Hmore).
      apply Forall2_cons_inv_l in Hmore as (r' & more' & Hr' & _). congruence.
Qed.

Lemma parse_transactions_Raise transactions results e :
  parse_transactions transactions results = Raise e ↔
  ∃ before transaction after,
    transactions = before ++ transaction :: after
    ∧ Forall (λ t, ∃ result, parse_transaction t = Return result) before
    ∧ parse_transaction transaction = Raise e.
Proof.
  revert results. induction transactions as [|t ts IH]; intros results.
  - split; [done|]. intros (before & t & after & Happ & _). by destruct before.
  - cbn [parse_transactions]. destruct (parse_transaction t) as [r|e'] eqn:Ht.
    + cbn [mbind outcome_bind]. rewrite IH. split.
      * intros (before & t' & after & -> & Hbefore & Ht').
        exists (t :: before), t', after. split_and!; [done| |done].
        constructor; [by exists r|done].
      * intros (before & t' & after & Happ & Hbefore & Ht').
        destruct before as [|t0 before].
        { injection Happ as -> ->. congruence. }
        injection Happ as -> ->. apply Forall_cons_1 in Hbefore as [_ Hbefore].
        by exists before, t', after.
    + cbn. split.
      * intros [= ->]. exists [], t, ts. by split_and!.
      * intros (before & t' & after & Happ & Hbefore & Ht').
        destruct before as [|t0 before].
        { injection Happ as -> ->. congruence. }
        injection Happ as -> ->. apply Forall_cons_1 in Hbefore as [[r Hr] _]. congruence.
Qed.

(** Property X20: the loop of [parse] handles the transactions in their
    order and stops at the first that fails. It returns exactly when every
    transaction gives a record, the records then follow the ones it started
    with, one per transaction and in the order of the transactions; it raises
    an exception exactly when some transaction raises it and every transaction
    before that one gives a record. *)
Theorem X20_parse_transactions_in_order transactions results :
  (∀ all,
     parse_transactions transactions results = Return all ↔
     ∃ more, all = results ++ more
             ∧ Forall2 (λ transaction result, parse_transaction transaction = Return result)
                 transactions more)
  ∧ (∀ e,
       parse_transactions transactions results = Raise e ↔
       ∃ before transaction after,
         transactions = before ++ transaction :: after
         ∧ Forall (λ t, ∃ result, parse_transaction t = Return result) before
         ∧ parse_transaction transaction = Raise e).
Proof.
  split; intros ?; [apply parse_transactions_Return|apply parse_transactions_Raise].
Qed.

(** The line numbers of the transactions are numbers of lines of the file. *)
Lemma transaction_line_numbers lines t n :
  t ∈ get_transactions lines → n ∈ line_numbers t → 2 ≤ n ≤ len lines + 1.
Proof.
  intros (a & m & _ & Hlen & -> & _)%transaction_block.
  intros (k & -> & Hk%elem_of_seq)%list_elem_of_fmap.
  unfold line_number, len. lia.
Qed.

(** Property X21: when [parse] fails on a transaction, with a token error,
    [DuplicateStationName], [MissingTransactionType], [InvalidCodes] or
    [InvalidTransactionType], the error carries the line numbers of a
    transaction of the file: the first one in the file that fails, every
    transaction before it gives a record. These numbers are numbers of lines
    of the file, from 2 for the first line after the header, and a token error
    is the error [parse_key_value_pairs] raises on the text of that
    transaction. *)
Theorem X21_error_line_numbers content e :
  parse content = raise e → transaction_error e →
  ∃ lines before transaction after,
    get_lines content = Return lines
    ∧ get_transactions lines = before ++ transaction :: after
    ∧ Forall (λ t, ∃ result, parse_transaction t = Return result) before
    ∧ parse_transaction transaction = raise e
    ∧ error_lines e = Some (line_numbers transaction)
    ∧ (∀ n, n ∈ line_numbers transaction → 2 ≤ n ≤ len lines + 1)
    ∧ ∀ line_numbers' err, e = TokenError line_numbers' err →
        token_error err
        ∧ parse_key_value_pairs (key_value_pairs transaction) = raise err.
Proof.
  intros [Hlines|(lines & Hlines & Hstage)]%parse_Raise Herror.
  { apply get_lines_raise in Hlines as [->|[->|[message ->]]]; done. }
  destruct Hstage as [[[= ->] _]|[_ [Hloop|(results & _ & _ & [= ->])]]]; [done| |done].
  apply parse_transactions_Raise in Hloop as (before & t & after & Happ & Hbefore & Ht).
  destruct (parse_transaction_error_lines t e Ht) as [Hnumbers Htoken].
  exists lines, before, t, after. split_and!; [done..| |].
  - intros n. apply transaction_line_numbers. rewrite Happ.
    apply elem_of_app. right. by left.
  - intros line_numbers' err He. pose proof (Htoken _ _ He) as Herr. split; [|done].
    unfold raise in Herr.
    assert (∀ e', parse_key_value_pairs (key_value_pairs t) = Raise e' →
                  e' = ParseErr err → token_error err) as Hkind; [|by eapply Hkind].
    intros e' He' ->. unfold parse_key_value_pairs in He'. revert He'.
    case_bool_decide; [by intros [= <-]|]. intros Hpairs.
    apply (parse_pairs_Raise (length (key_value_pairs t))) in Hpairs
      as (r & _ & _ & [[[= ->] _]|[[= ->] _]]); done.
Qed.

Lemma X21_witness :
  let content := "header" ++ nl ++ "USGS 123456789012345 R=0* T=A*" ++ nl
                 ++ "USGS 999999999999999 R=0* T=A" ++ nl in
  let e := TokenError [3] (MissingEndingToken "T=A") in
  parse content = raise e
  ∧ transaction_error e
  ∧ ∃ lines before transaction after,
      get_lines content = Return lines
      ∧ get_transactions lines = before ++ transaction :: after
      ∧ Forall (λ t, ∃ result, parse_transaction t = Return result) before
      ∧ parse_transaction transaction = raise e
      ∧ error_lines e = Some (line_numbers transaction)
      ∧ (∀ n, n ∈ line_numbers transaction → 2 ≤ n ≤ len lines + 1)
      ∧ ∀ line_numbers' err, e = TokenError line_numbers' err →
          token_error err
          ∧ parse_key_value_pairs (key_value_pairs transaction) = raise err.
Proof.
  intros content e.
  assert (parse content = raise e) as Hparse by compute_done.
  split; [done|]. split; [done|].
  exact (X21_error_line_numbers content e Hparse I).
Defined.

(** * The records [parse] returns *)

Lemma lookup_normalized this_result result attr :
  normalize_values this_result = Return result →
  attr ∉ normalized_attributes → result !! attr = this_result !! attr.
Proof.
  intros [-> _]%normalize_values_Return Hattr. unfold normalized_attributes in Hattr.
  rewrite !lookup_alter_ne; [done|..]; intros <-; apply Hattr; repeat constructor.
Qed.

Lemma dom_normalized this_result result :
  normalize_values this_result = Return result → dom result = dom this_result.
Proof.
  intros [-> _]%normalize_values_Return. apply set_eq. intros attr. by rewrite !dom_alter.
Qed.

Lemma not_normalized attr :
  attr ∈ ["agencyCode"; "siteNumber"; "transactionType"; "databaseTableIdentifier"] →
  attr ∉ normalized_attributes.
Proof.
  unfold normalized_attributes. intros Hattr Hin.
  repeat (apply elem_of_cons in Hattr as [->|Hattr];
          [by repeat (apply elem_of_cons in Hin as [?|Hin]; [done|]);
              apply elem_of_nil in Hin|]).
  by apply elem_of_nil in Hattr.
Qed.

(** Property X22: the record of a transaction that [parse] accepts. Its
    pairs have at most one station name code, exactly one key ['T'] and only
    codes of the table. The record has the agency code and the site number of
    the transaction, a transaction type ['A'] or ['M'] that is the value of the
    key ['T'], and for every other attribute except the four that are rewritten
    the value of the last pair whose code maps to it; it has no attribute
    besides the attribute names of the table, [agencyCode] and [siteNumber]. *)
Theorem X22_accepted_transaction transaction result :
  parse_transaction transaction = Return result →
  ∃ kv_pairs,
    parse_key_value_pairs (key_value_pairs transaction) = Return kv_pairs
    ∧ (station_name_count kv_pairs ≤ 1)%nat
    ∧ transaction_type_count kv_pairs = 1%nat
    ∧ (∀ key, key ∈ kv_pairs.*1 → key ∈ KEY_TO_ATTR_ITEMS.*1)
    ∧ result !! "agencyCode" = Some (agencyCode transaction)
    ∧ result !! "siteNumber" = Some (siteNumber transaction)
    ∧ (∃ value, result !! "transactionType" = Some value
                ∧ ("T", value) ∈ kv_pairs ∧ (value = "A" ∨ value = "M"))
    ∧ (∀ attr, attr ∉ normalized_attributes → attr ≠ "agencyCode" → attr ≠ "siteNumber" →
         result !! attr = last (values_of attr kv_pairs))
    ∧ (∀ attr, is_Some (result !! attr) →
         attr ∈ attribute_names ∨ attr = "agencyCode" ∨ attr = "siteNumber").
Proof.
  intros (kv & Hkv & Hcount & Htype & Hcodes & Hvalue & Hresult)%parse_transaction_Return.
  exists kv. split_and!; [done..| | | | | |].
  - intros key Hin. destruct (decide (key ∈ KEY_TO_ATTR_ITEMS.*1)) as [|Hnot]; [done|].
    assert (key ∈ invalid_key_codes kv) as Hkey by (by apply elem_of_invalid_key_codes).
    rewrite Hcodes in Hkey. by apply elem_of_nil in Hkey.
  - rewrite (lookup_normalized _ _ _ Hresult) by (apply not_normalized; repeat constructor).
    unfold identified. rewrite lookup_insert_ne by done. by rewrite lookup_insert_eq.
  - rewrite (lookup_normalized _ _ _ Hresult) by (apply not_normalized; repeat constructor).
    unfold identified. by rewrite lookup_insert_eq.
  - destruct (transaction_type_value transaction kv Htype) as (v & Hv & Hin & _).
    exists v. rewrite (lookup_normalized _ _ _ Hresult)
      by (apply not_normalized; repeat constructor).
    split_and!; [done..|]. rewrite Hv in Hvalue. cbn [default from_option] in Hvalue. change (id v) with v in Hvalue.
    apply elem_of_cons in Hvalue as [->|Hvalue]; [by left|].
    apply elem_of_cons in Hvalue as [->|Hvalue]; [by right|]. by apply elem_of_nil in Hvalue.
  - intros attr Hattr Hagency Hsite. rewrite (lookup_normalized _ _ _ Hresult) by done.
    by apply identified_lookup.
  - intros attr Hattr%elem_of_dom. rewrite (dom_normalized _ _ Hresult) in Hattr.
    apply elem_of_dom in Hattr as [value Hattr].
    destruct (decide (attr = "agencyCode")) as [|Hagency]; [auto|].
    destruct (decide (attr = "siteNumber")) as [|Hsite]; [auto|]. left.
    rewrite identified_lookup in Hattr by done.
    assert (value ∈ values_of attr kv) as Hin.
    { apply last_Some in Hattr as [l ->]. apply elem_of_app. right. by left. }
    apply elem_of_values_of in Hin as (key & _ & Hkey).
    unfold attribute_names. apply list_elem_of_fmap. by exists (key, attr).
Qed.

Lemma X22_witness :
  let transaction :=
    {| agencyCode := "USGS "; siteNumber := "123456789012345";
       key_value_pairs := "R=0* T=M* 6=01* 6=02*"; line_numbers := [2; 3] |} in
  let result : gmap str str :=
    list_to_map [("databaseTableIdentifier", "0"); ("transactionType", "M");
                 ("districtCode", "02"); ("agencyCode", "USGS ");
                 ("siteNumber", "123456789012345")] in
  parse_transaction transaction = Return result
  ∧ result !! "agencyCode" = Some (agencyCode transaction)
  ∧ result !! "siteNumber" = Some (siteNumber transaction)
  ∧ ∀ attr, is_Some (result !! attr) →
      attr ∈ attribute_names ∨ attr = "agencyCode" ∨ attr = "siteNumber".
Proof.
  intros transaction result.
  assert (parse_transaction transaction = Return result) as Hresult by compute_done.
  split; [done|].
  destruct (X22_accepted_transaction transaction result Hresult)
    as (kv & _ & _ & _ & _ & Hagency & Hsite & _ & _ & Hattr).
  by split_and!.
Defined.

(** What [parse] returns. *)
Lemma parse_Return content site_results :
  parse content = Return site_results →
  ∃ lines results,
    get_lines content = Return lines
    ∧ len (get_transactions lines) ≤ MAX_TRANSACTIONS
    ∧ parse_transactions (get_transactions lines) [] = Return results
    ∧ site_results = site_file results.
Proof.
  unfold parse. destruct (get_lines content) as [lines|e] eqn:Hlines; [|done].
  cbn [mbind outcome_bind]. unfold too_many_transactions.
  destruct (Z.gtb_spec (len (get_transactions lines)) MAX_TRANSACTIONS); [done|].
  destruct (parse_transactions _ []) as [results|e] eqn:Hresults; [|done].
  cbn [mbind outcome_bind]. case_bool_decide; [done|]. intros [= <-].
  by exists lines, results.
Qed.

Lemma length_site_fields line :
  valid_line line → len (slice line 0 5) = 5 ∧ len (slice line 5 20) = 15.
Proof.
  intros [Hlen _]. rewrite !slice_nonneg by lia. unfold len in *.
  rewrite !length_take, !length_drop. lia.
Qed.

(** Property X23: every record [parse] returns is for the site file, its
    [databaseTableIdentifier] is ['0']; its transaction type is ['A'] or ['M'];
    its agency code and its site number are the first 5 characters and the
    characters 5 to 19 of a line of the file, so they have 5 and 15 characters;
    and there are no more records than lines after the header. *)
Theorem X23_parse_records content site_results :
  parse content = Return site_results →
  (length site_results ≤ length (data_lines content))%nat
  ∧ ∀ result, result ∈ site_results →
      result !! "databaseTableIdentifier" = Some "0"
      ∧ (result !! "transactionType" = Some "A" ∨ result !! "transactionType" = Some "M")
      ∧ ∃ line agency site,
          line ∈ data_lines content
          ∧ result !! "agencyCode" = Some agency ∧ agency = slice line 0 5 ∧ len agency = 5
          ∧ result !! "siteNumber" = Some site ∧ site = slice line 5 20 ∧ len site = 15.
Proof.
  intros (lines & results & Hlines & _ & Hresults & ->)%parse_Return.
  apply get_lines_Return in Hlines as Hdata. destruct Hdata as (_ & _ & Hdata & Hmessage).
  apply parse_transactions_Return in Hresults as (more & Hmore & Hall). cbn in Hmore.
  subst more. split.
  - etrans; [apply length_filter|]. rewrite <- (Forall2_length _ _ _ Hall), <- Hdata.
    apply get_transactions_count.
  - intros result [Htable Hin]%list_elem_of_filter. split; [done|].
    apply list_elem_of_lookup in Hin as [i Hi].
    destruct (Forall2_lookup_r _ _ _ _ _ Hall Hi) as (t & Ht & Hresult).
    apply list_elem_of_lookup_2 in Ht.
    apply parse_transaction_Return in Hresult
      as (kv & Hkv & Hcount & Htype & Hcodes & Hvalue & Hresult).
    assert (∀ attr, attr ∈ ["agencyCode"; "siteNumber"; "transactionType";
                            "databaseTableIdentifier"] →
                    result !! attr = identified t kv !! attr) as Hsame.
    { intros attr Hattr. by apply lookup_normalized, not_normalized. }
    split.
    + rewrite Hsame by repeat constructor.
      destruct (transaction_type_value t kv Htype) as (v & Hv & _). rewrite Hv in Hvalue |- *. cbn [default from_option] in Hvalue.
      change (id v) with v in Hvalue.
      apply elem_of_cons in Hvalue as [->|Hvalue]; [by left|].
      apply elem_of_cons in Hvalue as [->|Hvalue]; [by right|]. by apply elem_of_nil in Hvalue.
    + apply transaction_block in Ht as (a & n & Hn & Hlen & _ & _ & Hsite).
      destruct (take n (drop a lines)) as [|line block] eqn:Hblock.
      { apply (f_equal length) in Hblock. rewrite length_take, length_drop in Hblock.
        cbn in Hblock. lia. }
      assert (line ∈ lines) as Hline.
      { apply (subseteq_drop a), (subseteq_take n). rewrite Hblock. by left. }
      destruct (Hsite line) as [Hagency Hnumber]; [by left|].
      assert (valid_line line) as Hvalid.
      { apply category_of_None. by eapply validation_message_nil. }
      destruct (length_site_fields line Hvalid) as [Hlen5 Hlen15].
      exists line, (slice line 0 5), (slice line 5 20). rewrite <- Hdata.
      split_and!; [done| |done|done| |done|done].
      * rewrite Hsame by repeat constructor. unfold identified.
        rewrite lookup_insert_ne by done. by rewrite lookup_insert_eq, Hagency.
      * rewrite Hsame by repeat constructor. unfold identified.
        by rewrite lookup_insert_eq, Hnumber.
Qed.

Lemma X23_witness :
  let content := "header" ++ nl ++ "USGS 123456789012345 R=0* T=A*" ++ nl
                 ++ "USGS 123456789012345 12='OLD MILL'*" ++ nl
                 ++ "USGS 123456789012345 R=1* T=M*" ++ nl in
  let result : gmap str str :=
    list_to_map [("databaseTableIdentifier", "0"); ("transactionType", "A");
                 ("stationName", "OLD MILL"); ("agencyCode", "USGS ");
                 ("siteNumber", "123456789012345")] in
  parse content = Return [result]
  ∧ (length [result] ≤ length (data_lines content))%nat
  ∧ result !! "databaseTableIdentifier" = Some "0".
Proof.
  intros content result.
  assert (parse content = Return [result]) as Hparse by compute_done.
  split; [done|].
  destruct (X23_parse_records content [result] Hparse) as [Hlength Hrecords].
  split; [done|]. apply (Hrecords result). by left.
Defined.

(** * The failures of [parse] *)

(** Property X24: the ways [parse] fails. It raises [IndexError], or a
    [ParseError] of one of these kinds: [EmptyInput]; [NoTransactions];
    [ValidationError] with the message of line validation, which is not empty;
    [TooManyTransactions]; an error of a transaction, where a [TokenError]
    holds an error of the token parser; or [DuplicateSite] with a set of sites
    that is not empty. A token error is never raised without the line numbers
    of its transaction. *)
Theorem X24_parse_failures content e :
  parse content = Raise e →
  e = IndexError
  ∨ ∃ err, e = ParseErr err
      ∧ (err = EmptyInput
         ∨ err = NoTransactions
         ∨ (err = ValidationError (validation_message (data_lines content))
            ∧ validation_message (data_lines content) ≠ [])
         ∨ err = TooManyTransactions
         ∨ (transaction_error err
            ∧ ∀ line_numbers' inner, err = TokenError line_numbers' inner → token_error inner)
         ∨ ∃ duplicate_sites, err = DuplicateSite duplicate_sites ∧ duplicate_sites ≠ ∅).
Proof.
  destruct e as [err|]; [|by left]. intros Hparse. right. exists err. split; [done|].
  apply parse_Raise in Hparse as [Hlines|(lines & Hlines & Hstage)].
  - destruct (decide (content = [])) as [->|Hcontent].
    { injection Hlines as <-. by left. }
    destruct (decide ("010"%char ∈ content)) as [Hlf|Hlf].
    + rewrite get_lines_spec in Hlines by auto using re_split_lines_lf_two.
      case_bool_decide as Hmessage; [done|]. injection Hlines as <-.
      right; right; by left.
    + unfold get_lines in Hlines. rewrite bool_decide_false in Hlines by done.
      rewrite slice_from_nonneg in Hlines by lia. change (Z.to_nat 1) with 1%nat in Hlines.
      rewrite (re_split_lines_no_lf content Hlf) in Hlines.
      injection Hlines as <-. right; by left.
  - destruct Hstage as [[[= ->] _]|[_ [Hloop|(results & _ & Hduplicates & [= ->])]]].
    + do 3 right; by left.
    + do 4 right; left.
      apply parse_transactions_Raise in Hloop as (before & t & after & _ & _ & Ht).
      split; [by apply (parse_transaction_raise t)|].
      intros line_numbers' inner ->.
      destruct (parse_transaction_error_lines t _ Ht) as [_ Htoken].
      specialize (Htoken _ _ eq_refl). unfold parse_key_value_pairs in Htoken.
      revert Htoken. case_bool_decide; [by intros [= <-]|]. intros Hpairs.
      apply (parse_pairs_Raise (length (key_value_pairs t))) in Hpairs
        as (r & _ & _ & [[[= ->] _]|[[= ->] _]]); done.
    + do 5 right. by eexists.
Qed.

Lemma X24_witness :
  let content := "header" ++ nl ++ "USGS 123456789012345" ++ nl in
  let message :=
    "Contains lines with an invalid agency code / site number format (fewer than 21 characters): lines 2. " in
  parse content = raise (ValidationError message)
  ∧ (Raise (A := list (gmap str str)) (ParseErr (ValidationError message)) = Raise IndexError
     ∨ ∃ err, ParseErr (ValidationError message) = ParseErr err
         ∧ (err = EmptyInput
            ∨ err = NoTransactions
            ∨ (err = ValidationError (validation_message (data_lines content))
               ∧ validation_message (data_lines content) ≠ [])
            ∨ err = TooManyTransactions
            ∨ (transaction_error err
               ∧ ∀ line_numbers' inner,
                   err = TokenError line_numbers' inner → token_error inner)
            ∨ ∃ duplicate_sites, err = DuplicateSite duplicate_sites ∧ duplicate_sites ≠ ∅)).
Proof.
  intros content message.
  assert (parse content = raise (ValidationError message)) as Hparse by (by vm_compute).
  split; [done|].
  destruct (X24_parse_failures content _ Hparse) as [[=]|Herr]. by right.
Defined.
